(** * slice: the statistical data-transform module

    A shallow embedding of [src/utils/dataTransforms.ts], the properties
    its specification states about it, and further properties of its
    functions that the code shows.

    Conventions of the embedding.
    - A JavaScript number is an IEEE 754 binary64 value: [spec_float] with
      precision 53 and maximal exponent 1024, a single NaN.
    - A scalar is [undefined], [null], a boolean, a number or a string.
    - An object is the list of its own properties in the order JavaScript
      enumerates them (integer-like keys ascending, then the other keys in
      creation order).  A read [r[k]] is the read of an own property, and
      an absent property reads as [undefined].  The members that a plain
      object inherits from [Object.prototype] are functions and objects,
      which the scalars do not hold: [prototype_names] lists their names,
      [longToWide] is [None] where the code would read or write one of
      them, and a property that depends on what an absent field reads as
      is stated for the names that are not inherited.
    - Records that are mutated in place live in a heap and are referred to
      by location; arrays that are only read are lists.
    - ECMAScript's conversions between strings and numbers (StringToNumber
      and Number::toString) are parameters: every theorem holds for any
      choice of them.
    - The d3 functions are embedded after d3-array: [mean], [variance] and
      [deviation], [quantile]/[median], [min] and [max], [group] and
      [rollup], [extent] and [bin].  The tick generator behind [bin]
      depends on [Math.log] and [Math.pow] and is a parameter. *)

From Stdlib Require Import ZArith NArith Bool List String Ascii Lia SpecFloat.
From Stdlib Require Import DecimalString Permutation Sorted.
From Stdlib Require Import QArith Qpower Qabs Lqa.
From stdpp Require Import base list.
From Equations Require Import Equations.
Import ListNotations.

Local Open Scope string_scope.
Local Open Scope list_scope.
Local Open Scope nat_scope.

(** ** Numbers *)

Definition number : Type := spec_float.

Definition prec : Z := 53.
Definition emax : Z := 1024.

Definition num_add : number -> number -> number := SFadd prec emax.
Definition num_sub : number -> number -> number := SFsub prec emax.
Definition num_mul : number -> number -> number := SFmul prec emax.
Definition num_div : number -> number -> number := SFdiv prec emax.
Definition num_sqrt : number -> number := SFsqrt prec emax.
Definition num_eqb : number -> number -> bool := SFeqb.
Definition num_ltb : number -> number -> bool := SFltb.
Definition num_leb : number -> number -> bool := SFleb.

(** The number denoting an integer, rounded to nearest even. *)
Definition num_of_Z (z : Z) : number := binary_normalize prec emax z 0 false.
Definition num_of_nat (n : nat) : number := num_of_Z (Z.of_nat n).

Definition NaN : number := S754_nan.

Definition num_is_nan (x : number) : bool :=
  match x with S754_nan => true | _ => false end.

Definition num_is_zero (x : number) : bool :=
  match x with S754_zero _ => true | _ => false end.

Definition num_is_finite (x : number) : bool :=
  match x with S754_zero _ | S754_finite _ _ _ => true | _ => false end.

(** ** Scalars *)

Inductive value : Type :=
| VUndefined
| VNull
| VBool (b : bool)
| VNumber (x : number)
| VString (s : string).

(** [typeof v === 'number'] and not NaN. *)
Definition is_numeric (v : value) : bool :=
  match v with VNumber x => negb (num_is_nan x) | _ => false end.

(** ToBoolean, the test behind [||], [!] and [if]. *)
Definition to_boolean (v : value) : bool :=
  match v with
  | VUndefined | VNull => false
  | VBool b => b
  | VNumber x => negb (num_is_zero x || num_is_nan x)
  | VString s => negb (String.eqb s "")
  end.

(** [a === b]. *)
Definition strict_equals (a b : value) : bool :=
  match a, b with
  | VUndefined, VUndefined => true
  | VNull, VNull => true
  | VBool x, VBool y => Bool.eqb x y
  | VNumber x, VNumber y => num_eqb x y
  | VString x, VString y => String.eqb x y
  | _, _ => false
  end.

(** SameValueZero, the key equality of [Map]. *)
Definition same_value_zero (a b : value) : bool :=
  match a, b with
  | VNumber x, VNumber y => (num_is_nan x && num_is_nan y) || num_eqb x y
  | _, _ => strict_equals a b
  end.

(** [v != null]. *)
Definition not_nullish (v : value) : bool :=
  match v with VUndefined | VNull => false | _ => true end.

(** [v === null || v === undefined || v === ''], the missing-value test of
    [countMissingValues] and [imputeMissingValues]. *)
Definition is_missing (v : value) : bool :=
  strict_equals v VNull || strict_equals v VUndefined
  || strict_equals v (VString "").

(** ** Objects *)

Abbreviation object A := (list (string * A)) (only parsing).
Abbreviation record := (object value) (only parsing).

Definition is_digit (c : ascii) : bool :=
  let n := nat_of_ascii c in Nat.leb 48 n && Nat.leb n 57.

Fixpoint digits_value (s : string) (acc : N) : option N :=
  match s with
  | EmptyString => Some acc
  | String c t =>
      if is_digit c
      then digits_value t (acc * 10 + N.of_nat (nat_of_ascii c - 48))%N
      else None
  end.

(** An array index is the canonical decimal form of an integer below
    2^32 - 1; such keys are enumerated first, in ascending order. *)
Definition array_index (k : string) : option N :=
  match k with
  | EmptyString => None
  | String c t =>
      if Ascii.eqb c "0"%char && negb (String.eqb t "") then None
      else match digits_value k 0 with
           | Some n => if (n <? 4294967295)%N then Some n else None
           | None => None
           end
  end.

Section Objects.
Context {A : Type}.

Fixpoint obj_lookup (o : object A) (k : string) : option A :=
  match o with
  | [] => None
  | (k', v) :: t => if String.eqb k k' then Some v else obj_lookup t k
  end.

Definition obj_has (o : object A) (k : string) : bool :=
  match obj_lookup o k with Some _ => true | None => false end.

Fixpoint obj_replace (o : object A) (k : string) (v : A) : object A :=
  match o with
  | [] => []
  | (k', v') :: t =>
      if String.eqb k k' then (k', v) :: t else (k', v') :: obj_replace t k v
  end.

(** A new integer-like key goes before the first key that is not
    integer-like or is a larger integer. *)
Fixpoint obj_insert_index (o : object A) (n : N) (k : string) (v : A)
  : object A :=
  match o with
  | [] => [(k, v)]
  | (k', v') :: t =>
      match array_index k' with
      | Some n' =>
          if (n' <? n)%N then (k', v') :: obj_insert_index t n k v
          else (k, v) :: o
      | None => (k, v) :: o
      end
  end.

(** [o[k] = v]. *)
Definition obj_set (o : object A) (k : string) (v : A) : object A :=
  if obj_has o k then obj_replace o k v
  else match array_index k with
       | Some n => obj_insert_index o n k v
       | None => o ++ [(k, v)]
       end.

(** [Object.keys(o)] and [Object.values(o)]. *)
Definition obj_keys (o : object A) : list string := map fst o.
Definition obj_values (o : object A) : list A := map snd o.
End Objects.

(** [r[k]] on a record, as the read of an own property: the value of
    [k] in [r], [undefined] when [r] has no property [k].  For the twelve
    names of [prototype_names] JavaScript reads the inherited member where
    there is no own property; that member is a function or an object, not
    a scalar, and [obj_get] does not stand for such a read. *)
Definition obj_get (r : record) (k : string) : value :=
  match obj_lookup r k with Some v => v | None => VUndefined end.

(** The names of the members that every plain object inherits from
    [Object.prototype]: a read [o[k]] finds one of them when [k] is not an
    own property of [o]. *)
Definition prototype_names : list string :=
  [ "constructor"; "hasOwnProperty"; "isPrototypeOf"; "propertyIsEnumerable";
    "toLocaleString"; "toString"; "valueOf"; "__proto__";
    "__defineGetter__"; "__defineSetter__"; "__lookupGetter__";
    "__lookupSetter__" ].

Definition inherited (k : string) : bool :=
  existsb (String.eqb k) prototype_names.

Abbreviation dataset := (list record) (only parsing).

(** The records of a dataset that is copied and updated in place are
    objects in a heap; the dataset is then the array of their locations. *)
Abbreviation loc := nat (only parsing).
Abbreviation heap := (list record) (only parsing).

(** ** Sorting

    [Array.prototype.sort] is stable; for a comparator that is a consistent
    order its result is the one of a stable insertion sort.  [cmp a b] is
    the sign of the comparator: not positive when [a] may stay before [b]. *)

Section Sort.
Context {A : Type} (cmp : A -> A -> Z).

Fixpoint sort_insert (x : A) (l : list A) : list A :=
  match l with
  | [] => [x]
  | y :: t => if (cmp x y <=? 0)%Z then x :: y :: t else y :: sort_insert x t
  end.

Definition js_sort (l : list A) : list A := foldr sort_insert [] l.
End Sort.

(** ** The runtime: conversions and the d3 functions *)

Definition num_zero : number := S754_zero false.
Definition num_one : number := num_of_Z 1.
Definition num_half : number := S754_finite false 4503599627370496 (-53).
Definition num_hundred : number := num_of_Z 100.

(** The outcome of a call: a value is returned, or an exception is
    thrown. *)
Inductive completion (A : Type) : Type :=
| Normal (a : A)
| Throw (error : string).
Arguments Normal {A} a.
Arguments Throw {A} error.

(** ** A runtime for the examples

    The examples are evaluated with [Number::toString] as ECMAScript
    defines it on NaN, the infinities and the integers below 10^21, with
    [StringToNumber] as it is on the empty string, on the decimal integers
    (but "-0") and on the strings that hold no numeric literal, and with
    the one value of [d3.ticks] they need: [d3.ticks(1, 3, 2)] is
    [[1, 2, 3]].  They convert nothing else. *)

Definition integer_value (x : number) : option Z :=
  match x with
  | S754_zero _ => Some 0%Z
  | S754_finite s m e =>
      let z :=
        if (0 <=? e)%Z then Some (Z.pos m * 2 ^ e)%Z
        else if (Z.pos m mod 2 ^ (- e) =? 0)%Z then Some (Z.pos m / 2 ^ (- e))%Z
        else None in
      option_map (fun z => if s then (- z)%Z else z) z
  | _ => None
  end.

Definition example_NumberToString (x : number) : string :=
  match x with
  | S754_nan => "NaN"
  | S754_infinity s => if s then "-Infinity" else "Infinity"
  | _ =>
      match integer_value x with
      | Some z =>
          if (Z.abs z <? 10 ^ 21)%Z
          then DecimalString.NilZero.string_of_int (Z.to_int z)
          else ""
      | None => ""
      end
  end.

Definition example_StringToNumber (s : string) : number :=
  if String.eqb s "" then S754_zero false
  else match DecimalString.NilZero.int_of_string s with
       | Some z => num_of_Z (Z.of_int z)
       | None => S754_nan
       end.

Definition example_ticks (start stop count : number) : list number :=
  if num_eqb start (num_of_Z 1) && num_eqb stop (num_of_Z 3)
     && num_eqb count (num_of_Z 2)
  then [num_of_Z 1; num_of_Z 2; num_of_Z 3]
  else [].

(** ** Datasets for the examples *)

Definition num (z : Z) : value := VNumber (num_of_Z z).

(** 0.1, the binary64 number nearest to one tenth. *)
Definition num_tenth : number := S754_finite false 7205759403792794 (-56).

(** [[{id: 'a', x: 1, y: 2}, {id: 'b', x: 3, y: 4}]]. *)
Definition example_wide : dataset :=
  [ [("id", VString "a"); ("x", num 1); ("y", num 2)];
    [("id", VString "b"); ("x", num 3); ("y", num 4)] ].

(** [[{x: 1, y: 2}, {x: 2, y: 4}, {x: 3, y: 6}]]. *)
Definition example_xy : dataset :=
  [ [("x", num 1); ("y", num 2)];
    [("x", num 2); ("y", num 4)];
    [("x", num 3); ("y", num 6)] ].

(** [[{x: 2, y: 1}, {x: 2, y: 2}, {x: 2, y: 3}]]: the mean of [x] is 2. *)
Definition example_constant : dataset :=
  [ [("x", num 2); ("y", num 1)];
    [("x", num 2); ("y", num 2)];
    [("x", num 2); ("y", num 3)] ].

(** [[{x: 0.1, y: 1}, {x: 0.1, y: 2}, {x: 0.1, y: 3}]]: the sum of [x] is
    0.30000000000000004 and its mean 0.10000000000000002. *)
Definition example_tenths : dataset :=
  [ [("x", VNumber num_tenth); ("y", num 1)];
    [("x", VNumber num_tenth); ("y", num 2)];
    [("x", VNumber num_tenth); ("y", num 3)] ].

(** [[{c: 'x'}, {c: 'y'}, {c: 'x'}]]. *)
Definition example_categories : dataset :=
  [ [("c", VString "x")]; [("c", VString "y")]; [("c", VString "x")] ].

(** A heap with [{a: null, b: 1}], [{a: 3, b: ''}] and [{a: 1, b: null}],
    and the dataset of the three. *)
Definition example_heap : heap :=
  [ [("a", VNull); ("b", num 1)];
    [("a", num 3); ("b", VString "")];
    [("a", num 1); ("b", VNull)] ].

Definition example_data : list loc := [0; 1; 2].

(** [[{g: 'a', v: 10}, {g: 'a', v: 20}, {g: 'b', v: 5}]]. *)
Definition example_groups : dataset :=
  [ [("g", VString "a"); ("v", num 10)];
    [("g", VString "a"); ("v", num 20)];
    [("g", VString "b"); ("v", num 5)] ].

(** Long rows in which the variable [x] of the id [a] is given twice:
    [[{id: 'a', variable: 'x', value: 1}, {id: 'b', variable: 'x', value: 2},
      {id: 'a', variable: 'x', value: 3}]]. *)
Definition example_long : dataset :=
  [ [("id", VString "a"); ("variable", VString "x"); ("value", num 1)];
    [("id", VString "b"); ("variable", VString "x"); ("value", num 2)];
    [("id", VString "a"); ("variable", VString "x"); ("value", num 3)] ].

(** [[{x: 1, y: 2}, {y: 4}]]: the second record has no [x]. *)
Definition example_gap : dataset :=
  [ [("x", num 1); ("y", num 2)]; [("y", num 4)] ].

(** A heap with [{a: NaN, b: 1}] and [{a: 3, b: 2}]. *)
Definition example_nan_heap : heap :=
  [ [("a", VNumber S754_nan); ("b", num 1)]; [("a", num 3); ("b", num 2)] ].

Section Runtime.
Set Default Proof Using "Type".

(** StringToNumber and Number::toString of ECMAScript. *)
Variable StringToNumber : string -> number.
Variable NumberToString : number -> string.
(** [d3.ticks start stop count]. *)
Variable d3_ticks : number -> number -> number -> list number.

(** ToNumber, the conversion behind unary [+] and binary [-]. *)
Definition to_number (v : value) : number :=
  match v with
  | VUndefined => NaN
  | VNull => num_zero
  | VBool b => if b then num_one else num_zero
  | VNumber x => x
  | VString s => StringToNumber s
  end.

(** ToPropertyKey, the conversion behind [o[v]]. *)
Definition to_property_key (v : value) : string :=
  match v with
  | VUndefined => "undefined"
  | VNull => "null"
  | VBool b => if b then "true" else "false"
  | VNumber x => NumberToString x
  | VString s => s
  end.

(** [a < b] and [a <= b]: strings compare by code units, anything else
    as numbers. *)
Definition js_lt (a b : value) : bool :=
  match a, b with
  | VString s, VString t => String.ltb s t
  | _, _ => num_ltb (to_number a) (to_number b)
  end.

Definition js_le (a b : value) : bool :=
  match a, b with
  | VString s, VString t => String.leb s t
  | _, _ => num_leb (to_number a) (to_number b)
  end.

(** [x || 0] on an optional number ([undefined] when absent). *)
Definition or_zero (o : option number) : number :=
  match o with
  | Some x => if to_boolean (VNumber x) then x else num_zero
  | None => num_zero
  end.

(** [v || 0] on a value. *)
Definition value_or_zero (v : value) : value :=
  if to_boolean v then v else VNumber num_zero.

(** Modelled from the spec: d3 is a library outside src/.  "compute over
    numeric values of field, skipping non-numeric": d3 keeps the values
    with [value != null && (value = +value) >= value]. *)
Definition d3_number (v : value) : option number :=
  if not_nullish v
  then let x := to_number v in if num_leb x x then Some x else None
  else None.

Definition d3_numbers (values : list value) : list number :=
  omap d3_number values.

(** Modelled from the spec: [d3.mean] is not under src/.  The numeric
    values are counted and summed from left to right, the result is
    [sum / count], and [undefined] when there is none. *)
Definition d3_mean (values : list value) : option number :=
  let '(count, sum) :=
    fold_left (fun '(count, sum) v =>
                 match d3_number v with
                 | Some x => (S count, num_add sum x)
                 | None => (count, sum)
                 end) values (0, num_zero) in
  match count with
  | 0 => None
  | _ => Some (num_div sum (num_of_nat count))
  end.

(** Modelled from the spec: [d3.variance] is not under src/.  One pass
    (Welford's update) over the numeric values; [undefined] unless there
    are at least two of them. *)
Definition d3_variance (values : list value) : option number :=
  let '(count, _, sum) :=
    fold_left (fun '(count, mean, sum) v =>
                 match d3_number v with
                 | Some x =>
                     let delta := num_sub x mean in
                     let count' := S count in
                     let mean' := num_add mean (num_div delta (num_of_nat count')) in
                     (count', mean', num_add sum (num_mul delta (num_sub x mean')))
                 | None => (count, mean, sum)
                 end) values (0, num_zero, num_zero) in
  if 1 <? count then Some (num_div sum (num_of_nat (count - 1))) else None.

(** Modelled from the spec: [d3.deviation] is not under src/:
    [v ? Math.sqrt(v) : v] on the variance [v]. *)
Definition d3_deviation (values : list value) : option number :=
  match d3_variance values with
  | Some v => if to_boolean (VNumber v) then Some (num_sqrt v) else Some v
  | None => None
  end.

(** Ascending order of numbers, none of them NaN. *)
Definition num_ascending (a b : number) : Z :=
  if num_ltb a b then (-1)%Z else if num_ltb b a then 1%Z else 0%Z.

(** Modelled from the spec: [d3.median] is not under src/.  It is the
    quantile at 0.5 of the numeric values: [undefined] when there is
    none, the value itself when there is one, and otherwise the linear
    interpolation [v0 + (v1 - v0) * (i - i0)] between the order
    statistics around [i = (n - 1) * 0.5].  d3 selects the two order
    statistics in place; a sorted copy gives the same numbers (up to the
    sign of a zero among equal zeros). *)
Definition d3_median (values : list value) : option number :=
  let numbers := d3_numbers values in
  let n := length numbers in
  match n with
  | 0 => None
  | 1 => Some (nth 0 numbers NaN)
  | _ =>
      let sorted := js_sort num_ascending numbers in
      let i := num_mul (num_of_nat (n - 1)) num_half in
      let i0 := Nat.div2 (n - 1) in
      let value0 := nth i0 sorted NaN in
      let value1 := nth (S i0) sorted NaN in
      Some (num_add value0
              (num_mul (num_sub value1 value0) (num_sub i (num_of_nat i0))))
  end.

(** *** Basic statistics *)

Definition column (data : dataset) (variable : string) : list value :=
  map (fun d => obj_get d variable) data.

Definition calculateMean (data : dataset) (variable : string) : number :=
  or_zero (d3_mean (column data variable)).

Definition calculateMedian (data : dataset) (variable : string) : number :=
  or_zero (d3_median (column data variable)).

Definition calculateStandardDeviation (data : dataset) (variable : string)
  : number :=
  or_zero (d3_deviation (column data variable)).

(** *** Reshaping *)

(** The two assignments of a turn of the [forEach] when they act on own
    properties: [result[idValue]] is created empty when it is not there,
    then [result[idValue][row[variable]] = row[value]]. *)
Definition longToWide_write (id variable value : string)
    (result : object record) (row : record) : object record :=
  let idValue := to_property_key (obj_get row id) in
  let wide :=
    match obj_lookup result idValue with
    | Some r => r
    | None => []
    end in
  obj_set result idValue
    (obj_set wide (to_property_key (obj_get row variable)) (obj_get row value)).

(** One turn of the [forEach].  [result] is a plain object.  When
    [idValue] is not an own property of it and names a member of
    [Object.prototype], [result[idValue]] is that member: it is truthy, no
    record is created and the second assignment writes to a built-in
    object.  When [row[variable]] is ['__proto__'] the second assignment
    goes through the setter that the record inherits.  The embedding holds
    no built-in object and no prototype link: it follows neither, and the
    turn is [None]. *)
Definition longToWide_step (id variable value : string)
    (result : object record) (row : record) : option (object record) :=
  let idValue := to_property_key (obj_get row id) in
  if negb (obj_has result idValue) && inherited idValue then None
  else if String.eqb (to_property_key (obj_get row variable)) "__proto__"
  then None
  else Some (longToWide_write id variable value result row).

(** [None] when a turn of the [forEach] is [None]. *)
Definition longToWide (data : dataset) (id variable value : string)
  : option dataset :=
  option_map obj_values
    (fold_left (fun result row =>
                  match result with
                  | Some result => longToWide_step id variable value result row
                  | None => None
                  end) data (Some [])).

(** The object literal [{[idColumn]: idValue, variable: column,
    value: row[column]}]. *)
Definition wideToLong_row (idColumn : string) (row : record)
    (column : string) : record :=
  obj_set (obj_set (obj_set [] idColumn (obj_get row idColumn))
             "variable" (VString column))
    "value" (obj_get row column).

Definition wideToLong (data : dataset) (idColumn : string)
    (valueColumns : list string) : dataset :=
  fold_left (fun result row =>
               fold_left (fun result column =>
                            result ++ [wideToLong_row idColumn row column])
                 valueColumns result)
    data [].

(** *** Correlation *)

Record correlation_matrix : Type := {
  cm_variables : list string;
  cm_matrix : list (list number)
}.

(** The body of the [else] branch: the Pearson coefficient of two
    columns, the three sums accumulated over [k]. *)
Definition correlation (data : dataset) (vx vy : string) : number :=
  let xValues := column data vx in
  let yValues := column data vy in
  let xMean := or_zero (d3_mean xValues) in
  let yMean := or_zero (d3_mean yValues) in
  let '(numerator, denominatorX, denominatorY) :=
    fold_left (fun '(numerator, denominatorX, denominatorY) '(x, y) =>
                 let xDiff := num_sub (to_number x) xMean in
                 let yDiff := num_sub (to_number y) yMean in
                 (num_add numerator (num_mul xDiff yDiff),
                  num_add denominatorX (num_mul xDiff xDiff),
                  num_add denominatorY (num_mul yDiff yDiff)))
      (combine xValues yValues) (num_zero, num_zero, num_zero) in
  num_div numerator (num_sqrt (num_mul denominatorX denominatorY)).

(** [matrix[i][j] = v]; the loops stay inside the matrix. *)
Definition set_cell (matrix : list (list number)) (i j : nat) (v : number)
  : list (list number) :=
  match matrix !! i with
  | Some row => <[i := <[j := v]> row]> matrix
  | None => matrix
  end.

(** [variables[i]] as a property key. *)
Definition variable_at (variables : list string) (i : nat) : string :=
  nth i variables "undefined".

Definition correlation_cell (data : dataset) (variables : list string)
    (i j : nat) : number :=
  if i =? j then num_one
  else correlation data (variable_at variables i) (variable_at variables j).

Definition calculateCorrelationMatrix (data : dataset)
    (variables : list string) : completion correlation_matrix :=
  let n := length variables in
  let matrix := replicate n (replicate n num_zero) in
  let matrix :=
    fold_left (fun matrix i =>
                 fold_left (fun matrix j =>
                              set_cell matrix i j
                                (correlation_cell data variables i j))
                   (seq 0 n) matrix)
      (seq 0 n) matrix in
  Normal {| cm_variables := variables; cm_matrix := matrix |}.

(** *** Frequencies *)

(** [Map.prototype.set] stores the key -0 as +0. *)
Definition map_key (v : value) : value :=
  match v with
  | VNumber (S754_zero true) => VNumber (S754_zero false)
  | _ => v
  end.

Fixpoint group_push {A : Type} (groups : list (value * list A))
    (key : value) (x : A) : list (value * list A) :=
  match groups with
  | [] => [(map_key key, [x])]
  | (k, xs) :: t =>
      if same_value_zero k key then (k, xs ++ [x]) :: t
      else (k, xs) :: group_push t key x
  end.

(** Modelled from the spec: [d3.group] is not under src/.  "partitions
    records by exact equality of the value ... in first-encountered
    order": a [Map] from key to the array of the elements with that key. *)
Definition d3_group {A : Type} (values : list A) (keyof : A -> value)
  : list (value * list A) :=
  fold_left (fun groups x => group_push groups (keyof x) x) values [].

(** Modelled from the spec: [d3.rollup] is not under src/: the groups of
    [d3.group], each reduced. *)
Definition d3_rollup {A B : Type} (values : list A) (reduce : list A -> B)
    (keyof : A -> value) : list (value * B) :=
  map (fun '(k, xs) => (k, reduce xs)) (d3_group values keyof).

Record frequency : Type := {
  freq_value : value;
  freq_count : nat;
  freq_percentage : number
}.

(** [(count / total) * 100]. *)
Definition percentage_of (count total : nat) : number :=
  num_mul (num_div (num_of_nat count) (num_of_nat total)) num_hundred.

(** The comparator [(a, b) => b.count - a.count]. *)
Definition by_count_desc {A : Type} (count : A -> nat) (a b : A) : Z :=
  (Z.of_nat (count b) - Z.of_nat (count a))%Z.

Definition calculateFrequencies (data : dataset) (variable : string)
  : list frequency :=
  let counts :=
    d3_rollup data (fun v => length v) (fun d => obj_get d variable) in
  let total := length data in
  js_sort (by_count_desc freq_count)
    (map (fun '(value, count) =>
            {| freq_value := value;
               freq_count := count;
               freq_percentage := percentage_of count total |})
       counts).

(** *** Binning *)

(** Modelled from the spec: [d3.extent] is not under src/.  "the observed
    [min,max] extent of field": the least and the greatest of the values
    that are neither null nor undefined and compare to themselves, in
    JavaScript's order; [undefined] for both when there is none. *)
Definition d3_extent (values : list value) : value * value :=
  let state :=
    fold_left (fun (state : option (value * value)) value =>
                 if not_nullish value then
                   match state with
                   | None => if js_le value value then Some (value, value) else None
                   | Some (min, max) =>
                       let min := if js_lt value min then value else min in
                       let max := if js_lt max value then value else max in
                       Some (min, max)
                   end
                 else state) values None in
  match state with
  | Some (min, max) => (min, max)
  | None => (VUndefined, VUndefined)
  end.

(** Modelled from the spec: the order of d3's bisector is not under src/:
    [ascending(a, x) <= 0], where [ascending] is NaN on [null] and
    [undefined] and on values that do not compare. *)
Definition ascending_le (a x : value) : bool :=
  if not_nullish a && not_nullish x then
    if js_lt a x then true
    else if js_lt x a then false
    else js_le x a
  else false.

(** Modelled from the spec: [d3.bisectRight(a, x, lo, hi)] is not under
    src/: the binary search
    [while (lo < hi) { mid = (lo + hi) >>> 1; ... }]. *)
Equations? bisect_right (a : list value) (x : value) (lo hi : nat) : nat
  by wf (hi - lo) lt :=
  bisect_right a x lo hi with decide (lo < hi) => {
    | right _ := lo
    | left _ with ascending_le (nth ((lo + hi) / 2) a VUndefined) x => {
        | true := bisect_right a x ((lo + hi) / 2 + 1) hi
        | false := bisect_right a x lo ((lo + hi) / 2) } }.
Proof.
  all: pose proof (Nat.div_mod_eq (lo + hi) 2) as Hmid;
    pose proof (Nat.mod_upper_bound (lo + hi) 2) as Hrem;
    change (fst (Nat.divmod (lo + hi) 1 0 1)) with ((lo + hi) / 2); lia.
Qed.

Record bin : Type := {
  bin_x0 : value;
  bin_x1 : value;
  bin_items : list value
}.

(** [tz.pop()] when [test] holds of the last threshold. *)
Definition pop_if (test : value -> bool) (tz : list value) : list value :=
  match last tz with
  | Some t => if test t then removelast tz else tz
  | None => tz
  end.

(** [while (test(tz[0])) tz.shift()] and
    [while (test(tz[m - 1])) tz.pop()]. *)
Fixpoint shift_while (test : value -> bool) (tz : list value) : list value :=
  match tz with
  | [] => []
  | t :: rest => if test t then shift_while test rest else tz
  end.

Definition pop_while (test : value -> bool) (tz : list value) : list value :=
  rev (shift_while test (rev tz)).

(** [bins[i].push(x)]. *)
Definition bin_push (bins : list bin) (i : nat) (x : value) : list bin :=
  match bins !! i with
  | Some b =>
      <[i := {| bin_x0 := bin_x0 b; bin_x1 := bin_x1 b;
                bin_items := bin_items b ++ [x] |}]> bins
  | None => bins
  end.

(** Modelled from the spec: [d3.bin] is not under src/.  "partitions it
    into binCount equal-width threshold-based bins (... the returned bin
    count may differ slightly from binCount)": the thresholds are the
    ticks of the domain for the requested count, without the last one
    when it reaches the upper bound and without those outside the domain;
    there is one bin between successive thresholds, from the lower to the
    upper bound of the domain; every value inside the domain is pushed to
    the bin that bisection of the thresholds gives. *)
Definition d3_bin (values : list value) (domain : value * value)
    (thresholds : number) : list bin :=
  let '(x0, x1) := domain in
  let tz := map VNumber (d3_ticks (to_number x0) (to_number x1) thresholds) in
  let tz := pop_if (fun t => js_le x1 t) tz in
  let tz := shift_while (fun t => js_le t x0) tz in
  let tz := pop_while (fun t => js_lt x1 t) tz in
  let m := length tz in
  let bins :=
    map (fun i =>
           {| bin_x0 := if 0 <? i then nth (i - 1) tz VUndefined else x0;
              bin_x1 := if i <? m then nth i tz VUndefined else x1;
              bin_items := [] |})
      (seq 0 (S m)) in
  fold_left (fun bins x =>
               if not_nullish x && js_le x0 x && js_le x x1
               then bin_push bins (bisect_right tz x 0 m) x
               else bins)
    values bins.

Record histogram_bin : Type := {
  binStart : value;
  binEnd : value;
  bin_count : nat;
  bin_percentage : number
}.

Definition createBins (data : dataset) (variable : string)
    (binCount : number) : list histogram_bin :=
  let values := column data variable in
  let extent := d3_extent values in
  let bins := d3_bin values extent binCount in
  let total := length data in
  map (fun b =>
         {| binStart := value_or_zero (bin_x0 b);
            binEnd := value_or_zero (bin_x1 b);
            bin_count := length (bin_items b);
            bin_percentage := percentage_of (length (bin_items b)) total |})
    bins.

(** *** Missing data *)

Record missing_report : Type := {
  mr_variable : string;
  mr_count : nat;
  mr_percentage : number
}.

Definition countMissingValues (data : dataset) : list missing_report :=
  match data with
  | [] => []
  | first :: _ =>
      let variables := obj_keys first in
      let results :=
        map (fun variable =>
               let missingCount :=
                 length (List.filter (fun d => is_missing (obj_get d variable)) data) in
               {| mr_variable := variable;
                  mr_count := missingCount;
                  mr_percentage := percentage_of missingCount (length data) |})
          variables in
      js_sort (by_count_desc mr_count) results
  end.

(** The filter [d[variable] !== null && d[variable] !== undefined &&
    d[variable] !== '']. *)
Definition is_present (v : value) : bool :=
  negb (strict_equals v VNull) && negb (strict_equals v VUndefined)
  && negb (strict_equals v (VString "")).

(** What [JSON.parse(JSON.stringify(v))] makes of a property value: a
    property that is [undefined] is left out, a number that is not
    finite becomes [null], and -0 is written [0]. *)
Definition json_value (v : value) : option value :=
  match v with
  | VUndefined => None
  | VNumber x =>
      if num_is_finite x
      then Some (VNumber (if num_is_zero x then num_zero else x))
      else Some VNull
  | _ => Some v
  end.

(** The copy of a record: its properties are written in order and
    created again in that order. *)
Definition json_clone (r : record) : record :=
  fold_left (fun o '(k, v) =>
               match json_value v with
               | Some v' => obj_set o k v'
               | None => o
               end) r [].

Definition heap_get (h : heap) (l : loc) : record :=
  match h !! l with Some r => r | None => [] end.

Definition deref (h : heap) (data : list loc) : dataset :=
  map (heap_get h) data.

(** [JSON.parse(JSON.stringify(data))]: one new object for each element
    of the array. *)
Definition json_clone_data (h : heap) (data : list loc) : heap * list loc :=
  (h ++ map json_clone (deref h data), seq (length h) (length data)).

(** [d[variable] = valueToImpute] when [d[variable]] is missing. *)
Definition impute_record (variable : string) (valueToImpute : value)
    (h : heap) (l : loc) : heap :=
  let d := heap_get h l in
  if is_missing (obj_get d variable)
  then <[l := obj_set d variable valueToImpute]> h
  else h.

(** The [if ... else if ...] chain that sets [valueToImpute]; it stays
    [undefined] when no branch is taken. *)
Definition valueToImpute (present : dataset) (variable : string)
    (method : value) : value :=
  if strict_equals method (VString "mean") then
    VNumber (calculateMean present variable)
  else if strict_equals method (VString "median") then
    VNumber (calculateMedian present variable)
  else if strict_equals method (VString "mode") then
    let frequencies := calculateFrequencies present variable in
    value_or_zero
      (match frequencies with
       | f :: _ => freq_value f
       | [] => VUndefined
       end)
  else VUndefined.

(** [method] is whatever the caller passes; the default ['mean'] stands in
    for [undefined]. *)
Definition imputeMissingValues (h : heap) (data : list loc)
    (variable : string) (method : value) : completion (heap * list loc) :=
  let method := match method with VUndefined => VString "mean" | _ => method end in
  let '(h, newData) := json_clone_data h data in
  let present :=
    List.filter (fun d => is_present (obj_get d variable)) (deref h data) in
  let v := valueToImpute present variable method in
  Normal (fold_left (impute_record variable v) newData h, newData).

(** *** Quantiles *)

(** Modelled from the spec: [d3.min] and [d3.max] are not under src/.
    "min, max" of a group summary: the least and the greatest, in
    JavaScript's order, of the values that are neither null nor undefined;
    the first value kept is one that compares to itself, and the result
    is [undefined] when there is none. *)
Definition d3_min (values : list value) : value :=
  fold_left (fun min value =>
               if not_nullish value
                  && (js_lt value min
                      || (strict_equals min VUndefined && js_le value value))
               then value else min) values VUndefined.

Definition d3_max (values : list value) : value :=
  fold_left (fun max value =>
               if not_nullish value
                  && (js_lt max value
                      || (strict_equals max VUndefined && js_le value value))
               then value else max) values VUndefined.

(** [Math.floor]. *)
Definition num_floor (x : number) : number :=
  match x with
  | S754_finite s m e =>
      if (0 <=? e)%Z then x
      else binary_normalize prec emax (cond_Zopp s (Z.pos m) / 2 ^ (- e)) 0 s
  | _ => x
  end.

(** The array index that a number which is a natural number denotes. *)
Definition num_index (x : number) : nat :=
  match integer_value x with
  | Some z => Z.to_nat z
  | None => 0
  end.

(** An element of a [Float64Array], read back as a number; [undefined]
    stays [undefined]. *)
Definition number_of (v : value) : option number :=
  match v with
  | VNumber x => Some x
  | _ => None
  end.

(** Modelled from the spec: [d3.quantile] is not under src/.  "linear-
    interpolation quantile estimation over the sorted values of field":
    [undefined] when there is no numeric value or [p] is NaN, the least
    value for [p <= 0] or a single value, the greatest for [p >= 1], and
    otherwise [v0 + (v1 - v0) * (i - i0)] between the order statistics
    around [i = (n - 1) * p], with [i0 = Math.floor(i)].  As for the
    median the order statistics are read from a sorted copy. *)
Definition d3_quantile (values : list value) (p : number) : option number :=
  let numbers := d3_numbers values in
  let n := length numbers in
  if (n =? 0) || num_is_nan p then None
  else if num_leb p num_zero || (n <? 2) then
    number_of (d3_min (map VNumber numbers))
  else if num_leb num_one p then
    number_of (d3_max (map VNumber numbers))
  else
    let sorted := js_sort num_ascending numbers in
    let i := num_mul (num_of_nat (n - 1)) p in
    let i0 := num_floor i in
    let value0 := nth (num_index i0) sorted NaN in
    let value1 := nth (S (num_index i0)) sorted NaN in
    Some (num_add value0 (num_mul (num_sub value1 value0) (num_sub i i0))).

(** 0.25 and 0.75. *)
Definition num_quarter : number := S754_finite false 4503599627370496 (-54).
Definition num_three_quarters : number :=
  S754_finite false 6755399441055744 (-53).

(** [q] is [None] when the caller leaves the argument out. *)
Definition calculateQuantiles (data : dataset) (variable : string)
    (q : option (list number)) : list number :=
  let q :=
    match q with
    | Some q => q
    | None => [num_quarter; num_half; num_three_quarters]
    end in
  map (fun quantile => or_zero (d3_quantile (column data variable) quantile)) q.

(** *** Groups *)

Record category_group : Type := {
  cg_key : value;
  cg_values : list record
}.

Definition groupByCategory (data : dataset) (category : string)
  : list category_group :=
  map (fun '(key, values) => {| cg_key := key; cg_values := values |})
    (d3_group data (fun d => obj_get d category)).

Record group_summary : Type := {
  gs_group : value;
  gs_count : nat;
  gs_mean : number;
  gs_median : number;
  gs_stdDev : number;
  gs_min : value;
  gs_max : value
}.

Definition summarizeByGroup (data : dataset) (groupVar valueVar : string)
  : list group_summary :=
  let groups := d3_group data (fun d => obj_get d groupVar) in
  map (fun '(key, values) =>
         {| gs_group := key;
            gs_count := length values;
            gs_mean := or_zero (d3_mean (column values valueVar));
            gs_median := or_zero (d3_median (column values valueVar));
            gs_stdDev := or_zero (d3_deviation (column values valueVar));
            gs_min := value_or_zero (d3_min (column values valueVar));
            gs_max := value_or_zero (d3_max (column values valueVar)) |})
    groups.

(** *** The vocabulary of the properties *)

(** [matrix[i][j]]. *)
Definition cell (matrix : list (list number)) (i j : nat) : option number :=
  match matrix !! i with
  | Some row => row !! j
  | None => None
  end.

(** An [n] by [n] matrix. *)
Definition square (n : nat) (matrix : list (list number)) : Prop :=
  length matrix = n /\ Forall (fun row => length row = n) matrix.

(** Every value of the column [v] equals ([==], as a number) the mean
    computed for the column. *)
Definition constant_at_mean (data : dataset) (v : string) : Prop :=
  Forall (fun d => num_eqb (to_number (obj_get d v)) (calculateMean data v) = true)
    data.

(** A number that is a zero or NaN. *)
Definition zero_or_nan (x : number) : bool := num_is_zero x || num_is_nan x.

(** An integer-like key [k] is enumerated after the keys [seen] when they
    are all integer-like and smaller. *)
Definition index_after (seen : list string) (k : string) : bool :=
  match array_index k with
  | None => true
  | Some n =>
      forallb (fun k' => match array_index k' with
                         | Some n' => (n' <? n)%N
                         | None => false
                         end) seen
  end.

(** The keys [ks], created in this order after the keys [seen], are
    enumerated in this order: each one is new, and an integer-like one is
    greater than all the keys before it, which are integer-like too. *)
Fixpoint created_in_order (seen ks : list string) : bool :=
  match ks with
  | [] => true
  | k :: rest =>
      negb (existsb (String.eqb k) seen) && index_after seen k
      && created_in_order (seen ++ [k]) rest
  end.

(** The record holding the columns [cols] of [row], written one by one
    into [acc]. *)
Definition restrict (row : record) (cols : list string) (acc : record)
  : record :=
  fold_left (fun o c => obj_set o c (obj_get row c)) cols acc.

(** The property key of the id of a row. *)
Definition id_key (idColumn : string) (row : record) : string :=
  to_property_key (obj_get row idColumn).

(** The record [r] once [imputeMissingValues] has gone over it:
    [variable] is set to [v] when it was missing. *)
Definition impute_one (variable : string) (v : value) (r : record) : record :=
  if is_missing (obj_get r variable) then obj_set r variable v else r.

(** The values JSON represents: [null], booleans, finite numbers and
    strings. *)
Definition json_representable (v : value) : bool :=
  match v with
  | VUndefined => false
  | VNumber x => num_is_finite x
  | _ => true
  end.

(** A record of JSON values, no key twice. *)
Definition json_record (r : record) : Prop :=
  NoDup (obj_keys r) /\ Forall (fun kv => json_representable (snd kv) = true) r.

(** The sum of a list of numbers, from left to right. *)
Definition num_sum (l : list number) : number := fold_left num_add l num_zero.

(** The index of the first element of [l] that [same_value_zero] equates
    with [v]. *)
Fixpoint first_seen (v : value) (l : list value) : option nat :=
  match l with
  | [] => None
  | x :: t =>
      if same_value_zero x v then Some 0
      else option_map S (first_seen v t)
  end.

(** The place of a number that is not NaN in the order of the numbers:
    the sign class first, then exponent and mantissa, both reversed
    for the negative numbers. *)
Definition num_rank (x : number) : Z * Z * Z :=
  match x with
  | S754_infinity true => (-2, 0, 0)%Z
  | S754_finite true m e => (-1, - e, - Z.pos m)%Z
  | S754_zero _ | S754_nan => (0, 0, 0)%Z
  | S754_finite false m e => (1, e, Z.pos m)%Z
  | S754_infinity false => (2, 0, 0)%Z
  end.

Definition rank_le (r r' : Z * Z * Z) : Prop :=
  let '(a, b, c) := r in
  let '(a', b', c') := r' in
  (a < a' \/ (a = a' /\ (b < b' \/ (b = b' /\ c <= c'))))%Z.

Definition rank_lt (r r' : Z * Z * Z) : Prop :=
  let '(a, b, c) := r in
  let '(a', b', c') := r' in
  (a < a' \/ (a = a' /\ (b < b' \/ (b = b' /\ c < c'))))%Z.

(** [count / total * 100] in exact arithmetic, the quotient that
    [percentage_of] computes in binary64. *)
Definition exact_percentage (count total : nat) : Q :=
  (inject_Z (Z.of_nat count) / inject_Z (Z.of_nat total) * 100)%Q.

Definition Qsum (l : list Q) : Q := fold_right Qplus 0%Q l.

(** The rational number that a finite number is. *)
Definition num_value (x : number) : Q :=
  match x with
  | S754_finite s m e =>
      (inject_Z (if s then Z.neg m else Z.pos m) * 2 ^ e)%Q
  | _ => 0%Q
  end.

(** 2^-52, the relative error of one rounding at most. *)
Definition rounding_unit : Q := (1 # 4503599627370496)%Q.

(** The distance from 100 that the sum of the percentages of a table
    keeps. *)
Definition percentage_tolerance : Q := (1 # 10000000000000)%Q.

(** The groups of a [Map]: normalised keys, none twice. *)
Definition groups_ok {A : Type} (groups : list (value * list A)) : Prop :=
  Forall (fun g => map_key (fst g) = fst g) groups /\
  NoDup (map fst groups).

(** The entry of [calculateFrequencies] for a group, before the sort. *)
Definition frequency_of_group (total : nat) (g : value * list record)
  : frequency :=
  {| freq_value := fst g;
     freq_count := length (snd g);
     freq_percentage := percentage_of (length (snd g)) total |}.

(** [a] occurs before an occurrence of [b] in [l]. *)
Inductive before {A : Type} : list A -> A -> A -> Prop :=
| before_here a b l : In b l -> before (a :: l) a b
| before_later x a b l : before l a b -> before (x :: l) a b.

(** [result[k][c]] on an object of records. *)
Definition obj_cell (result : object record) (k c : string) : option value :=
  match obj_lookup result k with
  | Some wide => obj_lookup wide c
  | None => None
  end.

(** The value of the last row of [data] whose id has the property key [k]
    and whose variable has the property key [c]. *)
Definition last_written (data : dataset) (id variable val : string)
    (k c : string) : option value :=
  fold_left (fun written row =>
               if String.eqb (to_property_key (obj_get row id)) k
                  && String.eqb (to_property_key (obj_get row variable)) c
               then Some (obj_get row val) else written)
    data None.

(** The strings of [l] without repetition, each at its first
    occurrence. *)
Definition first_occurrences (l : list string) : list string :=
  fold_left (fun seen k =>
               if existsb (String.eqb k) seen then seen else seen ++ [k])
    l [].

(** A value that d3 skips, or that it counts as a zero. *)
Definition skipped_or_zero (v : value) : bool :=
  match d3_number v with
  | Some x => num_is_zero x
  | None => true
  end.

(** A value that is a number (NaN too), [null] or [undefined]. *)
Definition number_or_nullish (v : value) : bool :=
  match v with
  | VNumber _ | VNull | VUndefined => true
  | _ => false
  end.

(** How many values of [col] SameValueZero equates with [v]. *)
Definition occurrences (v : value) (col : list value) : nat :=
  length (List.filter (same_value_zero v) col).

(** ** Properties *)

(** *** Lists *)

Lemma lookup_map {A B : Type} (f : A -> B) (l : list A) (k : nat) :
  map f l !! k = option_map f (l !! k).
Proof.
  revert k. induction l as [|x l IH]; intros [|k]; simpl; auto.
Qed.

(** *** Objects *)

Lemma obj_lookup_app {A : Type} (o1 o2 : object A) k :
  obj_lookup (o1 ++ o2) k =
  match obj_lookup o1 k with Some v => Some v | None => obj_lookup o2 k end.
Proof.
  induction o1 as [|[k' v'] o1 IH]; simpl; [reflexivity|].
  destruct (String.eqb k k'); auto.
Qed.

Lemma obj_lookup_replace {A : Type} (o : object A) k v k' :
  obj_lookup o k <> None ->
  obj_lookup (obj_replace o k v) k' =
  if String.eqb k' k then Some v else obj_lookup o k'.
Proof.
  induction o as [|[k0 v0] o IH]; simpl; [congruence|].
  destruct (String.eqb_spec k k0) as [->|Hne]; simpl.
  - intros _. destruct (String.eqb k' k0); reflexivity.
  - intros H. rewrite (IH H).
    destruct (String.eqb_spec k' k0) as [->|Hne'].
    + destruct (String.eqb_spec k0 k); congruence.
    + reflexivity.
Qed.

Lemma obj_lookup_insert_index {A : Type} (o : object A) n k v k' :
  obj_lookup o k = None ->
  obj_lookup (obj_insert_index o n k v) k' =
  if String.eqb k' k then Some v else obj_lookup o k'.
Proof.
  induction o as [|[k0 v0] o IH]; simpl; [reflexivity|].
  destruct (String.eqb_spec k k0) as [->|Hne]; [discriminate|]. intros H.
  destruct (array_index k0) as [n0|]; [destruct (n0 <? n)%N|]; simpl;
    try reflexivity.
  rewrite (IH H).
  destruct (String.eqb_spec k' k0) as [->|Hne'].
  - destruct (String.eqb_spec k0 k); congruence.
  - reflexivity.
Qed.

(** Reading after [o[k] = v]. *)
Lemma obj_lookup_set {A : Type} (o : object A) k v k' :
  obj_lookup (obj_set o k v) k' =
  if String.eqb k' k then Some v else obj_lookup o k'.
Proof.
  unfold obj_set, obj_has.
  destruct (obj_lookup o k) eqn:Hk.
  - apply obj_lookup_replace. congruence.
  - destruct (array_index k).
    + apply obj_lookup_insert_index, Hk.
    + rewrite obj_lookup_app. simpl.
      destruct (String.eqb_spec k' k) as [->|Hne].
      * now rewrite Hk.
      * now destruct (obj_lookup o k').
Qed.

Lemma obj_get_set (r : record) k v k' :
  obj_get (obj_set r k v) k' = if String.eqb k' k then v else obj_get r k'.
Proof.
  unfold obj_get. rewrite obj_lookup_set. now destruct (String.eqb k' k).
Qed.

Lemma obj_lookup_keys {A : Type} (o : object A) k :
  obj_lookup o k <> None <-> In k (obj_keys o).
Proof.
  induction o as [|[k0 v0] o IH]; simpl; [split; [congruence|contradiction]|].
  destruct (String.eqb_spec k k0) as [->|Hne].
  - split; [auto|congruence].
  - rewrite IH. split; [auto|]. intros [H|H]; congruence.
Qed.

Lemma existsb_eqb_false (k : string) (l : list string) :
  existsb (String.eqb k) l = false <-> ~ In k l.
Proof.
  induction l as [|x l IH]; simpl; [split; [auto|reflexivity]|].
  rewrite orb_false_iff, IH.
  destruct (String.eqb_spec k x) as [->|Hne].
  - split; [intros [? _]; discriminate|intros H; exfalso; apply H; now left].
  - split; [intros [_ H] [?|?]; [congruence|contradiction]|].
    intros H. split; [reflexivity|]. intros Hin. apply H. now right.
Qed.

(** A key that is new and comes after the others in the enumeration is
    appended. *)
Lemma obj_set_append {A : Type} (o : object A) k v :
  existsb (String.eqb k) (obj_keys o) = false ->
  index_after (obj_keys o) k = true ->
  obj_set o k v = o ++ [(k, v)].
Proof.
  intros Hnew Hafter. unfold obj_set, obj_has.
  destruct (obj_lookup o k) eqn:Hk.
  { apply existsb_eqb_false in Hnew. exfalso. apply Hnew.
    apply obj_lookup_keys. congruence. }
  unfold index_after in Hafter. destruct (array_index k) as [n|]; [|reflexivity].
  clear Hk Hnew. induction o as [|[k0 v0] o IH]; simpl in *; [reflexivity|].
  destruct (array_index k0) as [n0|]; [|discriminate].
  apply andb_true_iff in Hafter as [-> Hafter]. now rewrite IH.
Qed.

(** Keys that are created in order are enumerated in that order. *)
Lemma created_in_order_enumerated (o : object unit) (ks : list string) :
  created_in_order (obj_keys o) ks = true ->
  obj_keys (fold_left (fun o k => obj_set o k tt) ks o) = obj_keys o ++ ks.
Proof.
  revert o. induction ks as [|k ks IH]; intros o H; simpl in *.
  - now rewrite app_nil_r.
  - apply andb_true_iff in H as [H Hrest]. apply andb_true_iff in H as [Hnew Hafter].
    apply negb_true_iff in Hnew.
    rewrite (obj_set_append o k tt Hnew Hafter), IH.
    + unfold obj_keys. rewrite map_app, <- app_assoc. reflexivity.
    + unfold obj_keys. rewrite map_app. exact Hrest.
Qed.

(** Writing again the key that was created last. *)
Lemma obj_set_last {A : Type} (o : object A) k v v' :
  obj_lookup o k = None ->
  obj_set (o ++ [(k, v)]) k v' = o ++ [(k, v')].
Proof.
  intros Hk. unfold obj_set, obj_has.
  rewrite obj_lookup_app, Hk. simpl. rewrite String.eqb_refl.
  induction o as [|[k0 v0] o IH]; simpl in *.
  - now rewrite String.eqb_refl.
  - destruct (String.eqb k k0); [discriminate|]. now rewrite IH.
Qed.

(** *** Reshaping *)

Lemma wideToLong_concat data idColumn valueColumns :
  wideToLong data idColumn valueColumns =
  concat (map (fun row => map (wideToLong_row idColumn row) valueColumns) data).
Proof.
  unfold wideToLong.
  assert (Hinner : forall row cols acc,
             fold_left (fun result column =>
                          result ++ [wideToLong_row idColumn row column])
               cols acc = acc ++ map (wideToLong_row idColumn row) cols).
  { intros row cols. induction cols as [|c cols IH]; intros acc; simpl.
    - now rewrite app_nil_r.
    - rewrite IH, <- app_assoc. reflexivity. }
  assert (Houter : forall rows acc,
             fold_left (fun result row =>
                          fold_left (fun result column =>
                                       result ++ [wideToLong_row idColumn row column])
                            valueColumns result) rows acc =
             acc ++ concat (map (fun row => map (wideToLong_row idColumn row)
                                              valueColumns) rows)).
  { intros rows. induction rows as [|row rows IH]; intros acc; simpl.
    - now rewrite app_nil_r.
    - rewrite IH, Hinner, <- app_assoc. reflexivity. }
  apply (Houter data []).
Qed.

(** What [longToWide] reads in a row written by [wideToLong]. *)
Lemma wideToLong_row_fields idColumn row column :
  idColumn <> "variable" -> idColumn <> "value" ->
  obj_get (wideToLong_row idColumn row column) idColumn = obj_get row idColumn /\
  obj_get (wideToLong_row idColumn row column) "variable" = VString column /\
  obj_get (wideToLong_row idColumn row column) "value" = obj_get row column.
Proof.
  intros H1 H2. unfold wideToLong_row. rewrite !obj_get_set.
  rewrite String.eqb_refl.
  destruct (String.eqb_spec idColumn "value"); [contradiction|].
  destruct (String.eqb_spec idColumn "variable"); [contradiction|].
  repeat split.
Qed.

(** The rows of one record, read back: one property per column is
    written into the record created for its id. *)
Lemma longToWide_one_record idColumn row cols (result : object record) wide :
  idColumn <> "variable" -> idColumn <> "value" ->
  obj_lookup result (id_key idColumn row) = None ->
  fold_left (longToWide_write idColumn "variable" "value")
    (map (wideToLong_row idColumn row) cols)
    (result ++ [(id_key idColumn row, wide)]) =
  result ++ [(id_key idColumn row, restrict row cols wide)].
Proof.
  intros H1 H2 Hnew. revert wide.
  induction cols as [|c cols IH]; intros wide; simpl; [reflexivity|].
  destruct (wideToLong_row_fields idColumn row c H1 H2) as (Hid & Hvar & Hval).
  unfold longToWide_write at 2. rewrite Hid, Hvar, Hval. simpl.
  fold (id_key idColumn row).
  rewrite obj_lookup_app, Hnew. simpl. rewrite String.eqb_refl.
  rewrite obj_set_last by exact Hnew. apply IH.
Qed.

(** The first row of a record creates the record for its id. *)
Lemma longToWide_new_record idColumn row cols (result : object record) :
  idColumn <> "variable" -> idColumn <> "value" -> cols <> [] ->
  existsb (String.eqb (id_key idColumn row)) (obj_keys result) = false ->
  index_after (obj_keys result) (id_key idColumn row) = true ->
  fold_left (longToWide_write idColumn "variable" "value")
    (map (wideToLong_row idColumn row) cols) result =
  result ++ [(id_key idColumn row, restrict row cols [])].
Proof.
  intros H1 H2 Hcols Hnew Hafter.
  assert (Hlook : obj_lookup result (id_key idColumn row) = None).
  { destruct (obj_lookup result (id_key idColumn row)) eqn:E; [|reflexivity].
    apply existsb_eqb_false in Hnew. exfalso. apply Hnew.
    apply obj_lookup_keys. congruence. }
  destruct cols as [|c cols]; [contradiction|]. simpl.
  destruct (wideToLong_row_fields idColumn row c H1 H2) as (Hid & Hvar & Hval).
  unfold longToWide_write at 2. rewrite Hid, Hvar, Hval. simpl.
  fold (id_key idColumn row). rewrite Hlook.
  rewrite (obj_set_append result) by assumption.
  now apply longToWide_one_record.
Qed.

Lemma longToWide_wideToLong_object idColumn cols data (result : object record) :
  idColumn <> "variable" -> idColumn <> "value" -> cols <> [] ->
  created_in_order (obj_keys result) (map (id_key idColumn) data) = true ->
  fold_left (longToWide_write idColumn "variable" "value")
    (concat (map (fun row => map (wideToLong_row idColumn row) cols) data))
    result =
  result ++ map (fun row => (id_key idColumn row, restrict row cols [])) data.
Proof.
  intros H1 H2 Hcols. revert result.
  induction data as [|row data IH]; intros result Hord.
  - simpl. now rewrite app_nil_r.
  - cbn [map concat created_in_order] in *.
    apply andb_true_iff in Hord as [Hord Hrest].
    apply andb_true_iff in Hord as [Hnew Hafter].
    apply negb_true_iff in Hnew.
    rewrite fold_left_app, longToWide_new_record by assumption.
    rewrite IH.
    + rewrite <- app_assoc. reflexivity.
    + unfold obj_keys in *. rewrite map_app. exact Hrest.
Qed.

Lemma restrict_lookup row cols acc c :
  obj_lookup (restrict row cols acc) c =
  if existsb (String.eqb c) cols then Some (obj_get row c)
  else obj_lookup acc c.
Proof.
  unfold restrict. induction cols as [|c0 cols IH] using rev_ind; [reflexivity|].
  rewrite fold_left_app, existsb_app. simpl.
  rewrite obj_lookup_set, IH, orb_false_r.
  destruct (String.eqb_spec c c0) as [->|Hne].
  - now rewrite orb_true_r.
  - now rewrite orb_false_r.
Qed.

Lemma existsb_eqb_true (k : string) (l : list string) :
  In k l -> existsb (String.eqb k) l = true.
Proof.
  intros H. destruct (existsb (String.eqb k) l) eqn:E; [reflexivity|].
  apply existsb_eqb_false in E. contradiction.
Qed.

(** The guard of [longToWide_step] on the rows that [longToWide] is
    given. *)
Lemma longToWide_within data id variable val :
  Forall (fun row => inherited (id_key id row) = false /\
                     to_property_key (obj_get row variable) <> "__proto__")
    data ->
  longToWide data id variable val =
  Some (obj_values (fold_left (longToWide_write id variable val) data [])).
Proof.
  intros Hrows. unfold longToWide.
  assert (Hfold : forall result,
             fold_left (fun result row =>
                          match result with
                          | Some result => longToWide_step id variable val result row
                          | None => None
                          end) data (Some result) =
             Some (fold_left (longToWide_write id variable val) data result)).
  { induction Hrows as [|row rows [Hid Hvar] _ IH]; intros result;
      [reflexivity|].
    cbn [fold_left]. rewrite <- IH. f_equal.
    unfold longToWide_step. fold (id_key id row). rewrite Hid, andb_false_r.
    apply String.eqb_neq in Hvar. rewrite Hvar. reflexivity. }
  rewrite Hfold. reflexivity.
Qed.

(** C1, as the code has it.  For a wide dataset whose ids, as property
    keys, are pairwise distinct, already in the order JavaScript
    enumerates them (integer-like ids ascending and before the others)
    and not the name of a member of [Object.prototype], an id field other
    than "variable" and "value" and at least one value field, none named
    "__proto__": [wideToLong] followed by [longToWide] returns as many
    records, in the same order, and each of them holds the value fields of
    the original record with their values, and nothing else: the id field
    is not restored. *)
Theorem wideToLong_longToWide_value_fields data idColumn valueColumns :
  idColumn <> "variable" -> idColumn <> "value" -> valueColumns <> [] ->
  created_in_order [] (map (id_key idColumn) data) = true ->
  Forall (fun row => inherited (id_key idColumn row) = false) data ->
  ~ In "__proto__" valueColumns ->
  exists wide : list record,
    longToWide (wideToLong data idColumn valueColumns)
      idColumn "variable" "value" = Some wide /\
    length wide = length data /\
    forall (k : nat) (row : record),
      data !! k = Some row ->
      exists out : record,
        wide !! k = Some out /\
        (forall c, In c valueColumns -> obj_get out c = obj_get row c) /\
        (forall c, ~ In c valueColumns -> obj_lookup out c = None).
Proof.
  intros H1 H2 Hcols Hord Hids Hproto.
  exists (map (fun row => restrict row valueColumns []) data).
  split.
  { rewrite longToWide_within.
    - rewrite wideToLong_concat.
      rewrite longToWide_wideToLong_object by assumption.
      unfold obj_values. simpl. rewrite map_map. reflexivity.
    - rewrite wideToLong_concat. apply List.Forall_forall. intros long Hlong.
      apply in_concat in Hlong. destruct Hlong as (rows & Hrows & Hlong).
      apply in_map_iff in Hrows. destruct Hrows as (row & <- & Hrow).
      apply in_map_iff in Hlong. destruct Hlong as (c & <- & Hc).
      destruct (wideToLong_row_fields idColumn row c H1 H2) as (Hid & Hvar & _).
      unfold id_key. rewrite Hid, Hvar. split.
      + rewrite List.Forall_forall in Hids. apply (Hids row Hrow).
      + simpl. intros ->. contradiction. }
  split; [apply length_map|].
  intros k row Hk. exists (restrict row valueColumns []).
  split; [rewrite lookup_map, Hk; reflexivity|].
  split; intros c Hc.
  - unfold obj_get at 1. rewrite restrict_lookup, existsb_eqb_true by assumption.
    reflexivity.
  - rewrite restrict_lookup.
    apply existsb_eqb_false in Hc. now rewrite Hc.
Qed.

(** *** Numbers *)

Lemma num_mul_comm x y : num_mul x y = num_mul y x.
Proof.
  unfold num_mul.
  destruct x as [sx|sx| |sx mx ex], y as [sy|sy| |sy my ey];
    cbn [SFmul]; try reflexivity;
    rewrite ?(xorb_comm sx sy); try reflexivity.
  now rewrite (Pos.mul_comm mx my), (Z.add_comm ex ey).
Qed.

(** Numbers that compare equal differ by a zero, or by NaN when they are
    infinite. *)
Lemma num_sub_equal x y :
  num_eqb x y = true -> zero_or_nan (num_sub x y) = true.
Proof.
  unfold num_eqb, SFeqb, num_sub.
  destruct x as [sx|sx| |sx mx ex], y as [sy|sy| |sy my ey];
    cbn [SFcompare SFsub];
    try discriminate;
    try (destruct sx, sy; reflexivity || discriminate);
    try (destruct sx; discriminate); try (destruct sy; discriminate).
  intros H.
  assert (Hsame : ex = ey /\ mx = my /\ sx = sy).
  { destruct sx, sy; try discriminate;
      destruct (Z.compare ex ey) eqn:He; try discriminate;
      destruct (Pos.compare_cont Eq mx my) eqn:Hm; try discriminate;
      apply Z.compare_eq in He; apply Pos.compare_eq in Hm; auto. }
  destruct Hsame as (-> & -> & ->).
  rewrite Z.sub_diag. reflexivity.
Qed.

Lemma zero_or_nan_mul_l x y :
  zero_or_nan x = true -> zero_or_nan (num_mul x y) = true.
Proof.
  unfold num_mul.
  destruct x as [sx|sx| |sx mx ex], y as [sy|sy| |sy my ey];
    cbn; congruence.
Qed.

Lemma zero_or_nan_add x y :
  zero_or_nan x = true -> zero_or_nan y = true ->
  zero_or_nan (num_add x y) = true.
Proof.
  unfold num_add.
  destruct x as [sx|sx| |sx mx ex], y as [sy|sy| |sy my ey];
    cbn; try congruence.
  now destruct sx, sy.
Qed.

Lemma zero_or_nan_sqrt x :
  zero_or_nan x = true -> zero_or_nan (num_sqrt x) = true.
Proof.
  unfold zero_or_nan, num_sqrt.
  destruct x as [sx|sx| |sx mx ex]; cbn; congruence.
Qed.

(** 0 / 0, and any quotient with a NaN in it, is NaN. *)
Lemma zero_or_nan_div x y :
  zero_or_nan x = true -> zero_or_nan y = true -> num_div x y = NaN.
Proof.
  unfold zero_or_nan, num_div, NaN.
  destruct x as [sx|sx| |sx mx ex], y as [sy|sy| |sy my ey];
    cbn; congruence.
Qed.

(** *** The correlation matrix *)

Lemma cell_set_cell_same m i j v x :
  cell m i j = Some x -> cell (set_cell m i j v) i j = Some v.
Proof.
  unfold cell, set_cell. destruct (m !! i) as [row|] eqn:Hrow; [|discriminate].
  intros Hj. rewrite list_lookup_insert_eq by (eapply lookup_lt_Some; eauto).
  apply list_lookup_insert_eq. eapply lookup_lt_Some; eauto.
Qed.

Lemma cell_set_cell_other m i j v i' j' :
  (i, j) <> (i', j') -> cell (set_cell m i j v) i' j' = cell m i' j'.
Proof.
  unfold cell, set_cell. intros Hne.
  destruct (m !! i) as [row|] eqn:Hrow; [|reflexivity].
  destruct (Nat.eq_dec i i') as [<-|Hi].
  - rewrite list_lookup_insert_eq by (eapply lookup_lt_Some; eauto).
    rewrite Hrow. apply list_lookup_insert_ne. congruence.
  - now rewrite list_lookup_insert_ne.
Qed.

Lemma cell_set_cell_some m i j v i' j' x :
  cell m i' j' = Some x -> exists y, cell (set_cell m i j v) i' j' = Some y.
Proof.
  intros H. destruct (decide ((i, j) = (i', j'))) as [E|E].
  - inversion E; subst. exists v. eapply cell_set_cell_same; eauto.
  - exists x. now rewrite cell_set_cell_other.
Qed.

Lemma cell_fill_some (f : nat -> nat -> number) (cells : list (nat * nat)) m i j x :
  cell m i j = Some x ->
  exists y,
    cell (fold_left (fun m '(i, j) => set_cell m i j (f i j)) cells m) i j
    = Some y.
Proof.
  revert m x. induction cells as [|[i0 j0] cells IH]; intros m x Hx; simpl; eauto.
  destruct (cell_set_cell_some m i0 j0 (f i0 j0) i j x Hx) as [y Hy]. eauto.
Qed.

(** The loops write [f i j] into every cell they visit. *)
Lemma cell_fill (f : nat -> nat -> number) (cells : list (nat * nat)) m i j x :
  In (i, j) cells -> cell m i j = Some x ->
  cell (fold_left (fun m '(i, j) => set_cell m i j (f i j)) cells m) i j
  = Some (f i j).
Proof.
  induction cells as [|[i0 j0] cells IH] using rev_ind; [contradiction|].
  intros Hin Hx. rewrite fold_left_app. simpl.
  destruct (decide ((i0, j0) = (i, j))) as [E|E].
  - inversion E; subst.
    destruct (cell_fill_some f cells m i j x Hx) as [y Hy].
    eapply cell_set_cell_same; eauto.
  - rewrite cell_set_cell_other by exact E. apply IH; [|exact Hx].
    apply in_app_or in Hin as [?|[?|[]]]; congruence.
Qed.

(** The two nested [for] loops visit the cells row by row. *)
Lemma nested_loops {S : Type} (body : S -> nat -> nat -> S) (rows cols : list nat)
    (s : S) :
  fold_left (fun s i => fold_left (fun s j => body s i j) cols s) rows s =
  fold_left (fun s '(i, j) => body s i j)
    (flat_map (fun i => map (pair i) cols) rows) s.
Proof.
  revert s. induction rows as [|i rows IH]; intros s; simpl; [reflexivity|].
  rewrite fold_left_app, IH. f_equal.
  clear IH. revert s. induction cols as [|j cols IHc]; intros s; simpl; auto.
Qed.

(** Every entry of the matrix is the value computed for its cell. *)
Lemma correlation_matrix_cell data variables i j :
  i < length variables -> j < length variables ->
  exists m,
    calculateCorrelationMatrix data variables = Normal m /\
    cm_variables m = variables /\
    cell (cm_matrix m) i j = Some (correlation_cell data variables i j).
Proof.
  intros Hi Hj. unfold calculateCorrelationMatrix.
  eexists. split; [reflexivity|]. split; [reflexivity|]. simpl.
  rewrite (nested_loops (fun m i j => set_cell m i j (correlation_cell data variables i j))).
  apply cell_fill with (x := num_zero).
  - apply in_flat_map. exists i. split; [apply in_seq; lia|].
    apply in_map, in_seq. lia.
  - unfold cell. rewrite lookup_replicate_2 by exact Hi.
    now apply lookup_replicate_2.
Qed.

Lemma square_set_cell n m i j v : square n m -> square n (set_cell m i j v).
Proof.
  intros [Hlen Hrows]. unfold set_cell.
  destruct (m !! i) as [row|] eqn:Hrow; [|now split].
  split; [now rewrite length_insert|].
  apply Forall_insert; [exact Hrows|]. rewrite length_insert.
  rewrite Forall_forall in Hrows. apply Hrows.
  apply list_elem_of_lookup. eauto.
Qed.

Lemma correlation_matrix_square data variables :
  exists m,
    calculateCorrelationMatrix data variables = Normal m /\
    square (length variables) (cm_matrix m).
Proof.
  unfold calculateCorrelationMatrix. eexists. split; [reflexivity|]. simpl.
  rewrite (nested_loops (fun m i j => set_cell m i j (correlation_cell data variables i j))).
  set (n := length variables).
  assert (Hstart : square n (replicate n (replicate n num_zero))).
  { split; [apply length_replicate|].
    apply Forall_forall. intros row Hrow.
    apply elem_of_replicate in Hrow as [-> _].
    apply length_replicate. }
  revert Hstart. generalize (replicate n (replicate n num_zero)).
  generalize (flat_map (fun i => map (pair i) (seq 0 n)) (seq 0 n)).
  intros cells. induction cells as [|[i j] cells IH]; intros m Hm; simpl; [exact Hm|].
  apply IH. now apply square_set_cell.
Qed.

(** The three sums of the coefficient of [vy] and [vx] are those of [vx]
    and [vy], the two sums of squares exchanged. *)
Lemma correlation_sums_swap (xMean yMean : number) data vx vy n dx dy :
  fold_left (fun '(numerator, denominatorX, denominatorY) '(x, y) =>
               let xDiff := num_sub (to_number x) yMean in
               let yDiff := num_sub (to_number y) xMean in
               (num_add numerator (num_mul xDiff yDiff),
                num_add denominatorX (num_mul xDiff xDiff),
                num_add denominatorY (num_mul yDiff yDiff)))
    (combine (column data vy) (column data vx)) (n, dy, dx) =
  let '(n', dx', dy') :=
    fold_left (fun '(numerator, denominatorX, denominatorY) '(x, y) =>
                 let xDiff := num_sub (to_number x) xMean in
                 let yDiff := num_sub (to_number y) yMean in
                 (num_add numerator (num_mul xDiff yDiff),
                  num_add denominatorX (num_mul xDiff xDiff),
                  num_add denominatorY (num_mul yDiff yDiff)))
      (combine (column data vx) (column data vy)) (n, dx, dy) in
  (n', dy', dx').
Proof.
  revert n dx dy. induction data as [|d data IH]; intros n dx dy; simpl.
  - reflexivity.
  - rewrite <- IH.
    now rewrite (num_mul_comm (num_sub (to_number (obj_get d vy)) yMean)).
Qed.

Lemma correlation_sym data vx vy :
  correlation data vx vy = correlation data vy vx.
Proof.
  unfold correlation.
  rewrite (correlation_sums_swap (or_zero (d3_mean (column data vy)))
             (or_zero (d3_mean (column data vx))) data vy vx).
  destruct (fold_left _ (combine (column data vy) (column data vx)) _)
    as [[n dx] dy].
  now rewrite (num_mul_comm dx dy).
Qed.

(** When every deviation from the mean of [vx] is a zero or NaN, so are
    the numerator and the sum of squares of [vx], and the quotient is
    NaN. *)
Lemma correlation_constant_at_mean data vx vy :
  constant_at_mean data vx -> correlation data vx vy = NaN.
Proof.
  unfold constant_at_mean, calculateMean, correlation.
  set (xMean := or_zero (d3_mean (column data vx))).
  set (yMean := or_zero (d3_mean (column data vy))).
  intros Hconst.
  assert (Hinv : forall rows n dx dy,
             Forall (fun d => num_eqb (to_number (obj_get d vx)) xMean = true) rows ->
             zero_or_nan n = true -> zero_or_nan dx = true ->
             let '(n', dx', _) :=
               fold_left (fun '(numerator, denominatorX, denominatorY) '(x, y) =>
                            let xDiff := num_sub (to_number x) xMean in
                            let yDiff := num_sub (to_number y) yMean in
                            (num_add numerator (num_mul xDiff yDiff),
                             num_add denominatorX (num_mul xDiff xDiff),
                             num_add denominatorY (num_mul yDiff yDiff)))
                 (combine (column rows vx) (column rows vy)) (n, dx, dy) in
             zero_or_nan n' = true /\ zero_or_nan dx' = true).
  { induction rows as [|d rows IH]; intros n dx dy Hrows Hn Hdx; simpl.
    - now split.
    - inversion Hrows as [|? ? Hd Hrest]; subst.
      apply num_sub_equal in Hd.
      apply IH; [exact Hrest| |].
      + apply zero_or_nan_add; [exact Hn|]. now apply zero_or_nan_mul_l.
      + apply zero_or_nan_add; [exact Hdx|]. now apply zero_or_nan_mul_l. }
  specialize (Hinv data num_zero num_zero num_zero Hconst eq_refl eq_refl).
  destruct (fold_left _ (combine (column data vx) (column data vy)) _)
    as [[n dx] dy].
  destruct Hinv as [Hn Hdx].
  apply zero_or_nan_div; [exact Hn|].
  apply zero_or_nan_sqrt. now apply zero_or_nan_mul_l.
Qed.

Lemma variable_at_lookup variables i v :
  variables !! i = Some v -> variable_at variables i = v.
Proof.
  unfold variable_at. revert i.
  induction variables as [|x l IH]; intros [|i]; simpl; try discriminate.
  - congruence.
  - apply IH.
Qed.

(** C3.  The matrix returned by [calculateCorrelationMatrix] has 1 at
    every diagonal position, and its entries at (i, j) and (j, i) are the
    same number, though the two are computed one after the other. *)
Theorem correlation_matrix_symmetric_unit_diagonal data variables i j :
  i < length variables -> j < length variables ->
  exists m,
    calculateCorrelationMatrix data variables = Normal m /\
    cell (cm_matrix m) i i = Some num_one /\
    exists x, cell (cm_matrix m) i j = Some x /\ cell (cm_matrix m) j i = Some x.
Proof.
  intros Hi Hj.
  destruct (correlation_matrix_cell data variables i i Hi Hi) as (m & Hm & _ & Hii).
  destruct (correlation_matrix_cell data variables i j Hi Hj) as (m1 & Hm1 & _ & Hij).
  destruct (correlation_matrix_cell data variables j i Hj Hi) as (m2 & Hm2 & _ & Hji).
  assert (m1 = m) by congruence. assert (m2 = m) by congruence. subst m1 m2.
  exists m. split; [exact Hm|]. split.
  - rewrite Hii. unfold correlation_cell. now rewrite Nat.eqb_refl.
  - exists (correlation_cell data variables i j). split; [exact Hij|].
    rewrite Hji. f_equal. unfold correlation_cell.
    rewrite (Nat.eqb_sym j i). destruct (i =? j); [reflexivity|].
    apply correlation_sym.
Qed.

(** C10.  On the empty dataset [calculateCorrelationMatrix] returns
    normally, for any list of fields: a square matrix with 1 on the
    diagonal and NaN (0/0, the sums being empty) everywhere else. *)
Theorem correlation_matrix_empty_dataset variables i j :
  i < length variables -> j < length variables ->
  exists m,
    calculateCorrelationMatrix [] variables = Normal m /\
    square (length variables) (cm_matrix m) /\
    cell (cm_matrix m) i j = Some (if i =? j then num_one else NaN).
Proof.
  intros Hi Hj.
  destruct (correlation_matrix_cell [] variables i j Hi Hj) as (m & Hm & _ & Hij).
  destruct (correlation_matrix_square [] variables) as (m' & Hm' & Hsq).
  assert (m' = m) by congruence. subst m'.
  exists m. split; [exact Hm|]. split; [exact Hsq|].
  rewrite Hij. unfold correlation_cell. destruct (i =? j); reflexivity.
Qed.

(** C5, as the code has it.  [calculateCorrelationMatrix] returns
    normally on every input, and the entry (i, j) of two distinct
    positions is NaN whenever every value of field i, or every value of
    field j, equals as a number the mean computed for that field: the
    deviations are then zeros (or NaN), and nothing guards the division.
    Equal values whose computed mean is rounded away from them are not
    in this case. *)
Theorem correlation_zero_variance_nan data variables i j vi vj :
  variables !! i = Some vi -> variables !! j = Some vj -> i <> j ->
  exists m,
    calculateCorrelationMatrix data variables = Normal m /\
    (constant_at_mean data vi \/ constant_at_mean data vj ->
     cell (cm_matrix m) i j = Some NaN).
Proof.
  intros Hvi Hvj Hne.
  assert (Hi : i < length variables) by (eapply lookup_lt_Some; eauto).
  assert (Hj : j < length variables) by (eapply lookup_lt_Some; eauto).
  destruct (correlation_matrix_cell data variables i j Hi Hj) as (m & Hm & _ & Hij).
  exists m. split; [exact Hm|]. intros Hconst. rewrite Hij. f_equal.
  unfold correlation_cell. apply Nat.eqb_neq in Hne. rewrite Hne.
  rewrite (variable_at_lookup _ _ _ Hvi), (variable_at_lookup _ _ _ Hvj).
  destruct Hconst as [H|H].
  - now apply correlation_constant_at_mean.
  - rewrite correlation_sym. now apply correlation_constant_at_mean.
Qed.

(** *** Basic statistics *)

Lemma d3_numbers_none (values : list value) :
  Forall (fun v => d3_number v = None) values -> d3_numbers values = [].
Proof.
  unfold d3_numbers. induction 1 as [|v l Hv _ IH]; simpl; [reflexivity|].
  now rewrite Hv.
Qed.

Lemma d3_mean_none (values : list value) :
  Forall (fun v => d3_number v = None) values -> d3_mean values = None.
Proof.
  unfold d3_mean. intros H.
  assert (Hfold : forall acc,
             fold_left (fun '(count, sum) v =>
                          match d3_number v with
                          | Some x => (S count, num_add sum x)
                          | None => (count, sum)
                          end) values acc = acc).
  { induction H as [|v l Hv _ IH]; intros [c s]; simpl; [reflexivity|].
    rewrite Hv. apply IH. }
  now rewrite Hfold.
Qed.

Lemma d3_variance_none (values : list value) :
  Forall (fun v => d3_number v = None) values -> d3_variance values = None.
Proof.
  unfold d3_variance. intros H.
  assert (Hfold : forall acc,
             fold_left (fun '(count, mean, sum) v =>
                          match d3_number v with
                          | Some x =>
                              let delta := num_sub x mean in
                              let count' := S count in
                              let mean' :=
                                num_add mean (num_div delta (num_of_nat count')) in
                              (count', mean',
                               num_add sum (num_mul delta (num_sub x mean')))
                          | None => (count, mean, sum)
                          end) values acc = acc).
  { induction H as [|v l Hv _ IH]; intros [[c m] s]; simpl; [reflexivity|].
    rewrite Hv. apply IH. }
  now rewrite Hfold.
Qed.

(** *** Imputation *)

Lemma strict_equals_string v s :
  strict_equals v (VString s) = true <-> v = VString s.
Proof.
  destruct v; simpl; try (split; [discriminate|congruence]).
  rewrite String.eqb_eq. split; congruence.
Qed.

Lemma is_missing_undefined_lookup (r : record) k :
  is_missing (obj_get r k) = false -> obj_lookup r k <> None.
Proof. unfold obj_get. destruct (obj_lookup r k); [congruence|discriminate]. Qed.

Lemma truthy_not_missing v : to_boolean v = true -> is_missing v = false.
Proof.
  destruct v as [| |b|x|s]; simpl; try discriminate; try reflexivity.
  unfold is_missing. simpl. intros H. apply negb_true_iff in H.
  now rewrite H.
Qed.

(** The value filled in by one of the three methods is never itself
    missing. *)
Lemma valueToImpute_not_missing present variable method :
  method = VString "mean" \/ method = VString "median" \/ method = VString "mode" ->
  is_missing (valueToImpute present variable method) = false.
Proof.
  unfold valueToImpute. intros [-> | [-> | ->]]; simpl; try reflexivity.
  unfold value_or_zero.
  destruct (to_boolean _) eqn:E; [now apply truthy_not_missing|reflexivity].
Qed.

Lemma valueToImpute_unknown present variable method :
  method <> VString "mean" -> method <> VString "median" ->
  method <> VString "mode" ->
  valueToImpute present variable method = VUndefined.
Proof.
  intros H1 H2 H3. unfold valueToImpute.
  destruct (strict_equals method (VString "mean")) eqn:E1;
    [apply strict_equals_string in E1; contradiction|].
  destruct (strict_equals method (VString "median")) eqn:E2;
    [apply strict_equals_string in E2; contradiction|].
  destruct (strict_equals method (VString "mode")) eqn:E3;
    [apply strict_equals_string in E3; contradiction|].
  reflexivity.
Qed.

(** The loop over the copies updates each of them once and nothing
    else. *)
Lemma impute_fold variable v (copies h : list record) :
  fold_left (impute_record variable v) (seq (length h) (length copies))
    (h ++ copies) =
  h ++ map (impute_one variable v) copies.
Proof.
  revert h. induction copies as [|c copies IH]; intros h; simpl; [reflexivity|].
  assert (Hget : heap_get (h ++ c :: copies) (length h) = c).
  { unfold heap_get. rewrite lookup_app_r; [|lia].
    now rewrite Nat.sub_diag. }
  assert (Hstep : impute_record variable v (h ++ c :: copies) (length h)
                  = (h ++ [impute_one variable v c]) ++ copies).
  { unfold impute_record, impute_one. rewrite Hget.
    destruct (is_missing (obj_get c variable)).
    - rewrite insert_app_r_alt. 2: lia. rewrite Nat.sub_diag. simpl.
      now rewrite <- app_assoc.
    - now rewrite <- app_assoc. }
  rewrite Hstep.
  replace (S (length h)) with (length (h ++ [impute_one variable v c]))
    by (rewrite length_app; simpl; lia).
  rewrite IH, <- app_assoc. reflexivity.
Qed.

Lemma deref_new (h copies : list record) :
  deref (h ++ copies) (seq (length h) (length copies)) = copies.
Proof.
  unfold deref. revert h. induction copies as [|c copies IH]; intros h; simpl;
    [reflexivity|].
  f_equal.
  - unfold heap_get. rewrite lookup_app_r; [|lia]. now rewrite Nat.sub_diag.
  - replace (h ++ c :: copies) with ((h ++ [c]) ++ copies)
      by (now rewrite <- app_assoc).
    replace (S (length h)) with (length (h ++ [c]))
      by (rewrite length_app; simpl; lia).
    apply IH.
Qed.

(** What [imputeMissingValues] returns: the heap with the updated copies
    after the objects that were there, and the array of the copies. *)
Lemma imputeMissingValues_result h data variable method :
  exists v,
    v = valueToImpute
          (List.filter (fun d => is_present (obj_get d variable))
             (deref (h ++ map json_clone (deref h data)) data))
          variable
          (match method with VUndefined => VString "mean" | _ => method end) /\
    imputeMissingValues h data variable method =
    Normal (h ++ map (impute_one variable v) (map json_clone (deref h data)),
            seq (length h) (length data)).
Proof.
  eexists. split; [reflexivity|].
  unfold imputeMissingValues, json_clone_data.
  set (copies := map json_clone (deref h data)).
  replace (length data) with (length copies)
    by (unfold copies, deref; now rewrite !length_map).
  now rewrite impute_fold.
Qed.

(** The copies and what becomes of them, record by record. *)
Lemma imputeMissingValues_records h data variable method :
  exists v h' newData,
    imputeMissingValues h data variable method = Normal (h', newData) /\
    v = valueToImpute
          (List.filter (fun d => is_present (obj_get d variable))
             (deref (h ++ map json_clone (deref h data)) data))
          variable
          (match method with VUndefined => VString "mean" | _ => method end) /\
    (forall l, l < length h -> h' !! l = h !! l) /\
    length newData = length data /\
    Forall (fun l => length h <= l) newData /\
    deref h' newData = map (impute_one variable v) (map json_clone (deref h data)) /\
    (forall k l, data !! k = Some l ->
       exists l', newData !! k = Some l' /\
         heap_get h' l' = impute_one variable v (json_clone (heap_get h l))).
Proof.
  destruct (imputeMissingValues_result h data variable method) as (v & Hv & Hres).
  exists v. eexists. eexists. split; [exact Hres|]. split; [exact Hv|].
  set (copies := map json_clone (deref h data)).
  assert (Hlen : length copies = length data)
    by (unfold copies, deref; now rewrite !length_map).
  split; [|split; [|split; [|split]]].
  - intros l Hl. now apply lookup_app_l.
  - apply length_seq.
  - apply Forall_forall. intros l Hl. apply elem_of_seq in Hl. lia.
  - rewrite <- Hlen, <- (length_map (impute_one variable v) copies).
    apply deref_new.
  - intros k l Hk.
    assert (Hlt : k < length data) by (eapply lookup_lt_Some; eauto).
    exists (length h + k). split; [now apply lookup_seq_lt|].
    unfold heap_get at 1. rewrite lookup_app_r; [|lia].
    replace (length h + k - length h) with k by lia.
    unfold copies, deref. rewrite !lookup_map, Hk. reflexivity.
Qed.

(** C2, as the code has it.  A method other than 'mean', 'median' and
    'mode' is not rejected: [imputeMissingValues] returns normally, with
    as many records.  When the method is [undefined] the default 'mean'
    applies; for any other value every record of the result is the copy
    of the input record, its field set to [undefined] when it was
    missing. *)
Theorem imputeMissingValues_unknown_method h data variable method :
  method <> VString "mean" -> method <> VString "median" ->
  method <> VString "mode" ->
  exists h' newData,
    imputeMissingValues h data variable method = Normal (h', newData) /\
    length newData = length data /\
    (method = VUndefined ->
     imputeMissingValues h data variable method =
     imputeMissingValues h data variable (VString "mean")) /\
    (method <> VUndefined ->
     forall k l, data !! k = Some l ->
       exists l', newData !! k = Some l' /\
         heap_get h' l' =
         impute_one variable VUndefined (json_clone (heap_get h l))).
Proof.
  intros H1 H2 H3.
  destruct (imputeMissingValues_records h data variable method)
    as (v & h' & newData & Hres & Hv & _ & Hlen & _ & _ & Hrec).
  exists h', newData. split; [exact Hres|]. split; [exact Hlen|]. split.
  - intros ->. reflexivity.
  - intros Hdef.
    assert (Hu : v = VUndefined).
    { rewrite Hv. destruct method; try contradiction;
        now apply valueToImpute_unknown. }
    rewrite <- Hu. exact Hrec.
Qed.

(** *** Sorting *)

Lemma sort_insert_perm {A : Type} (cmp : A -> A -> Z) x l :
  Permutation (sort_insert cmp x l) (x :: l).
Proof.
  induction l as [|y l IH]; simpl; [reflexivity|].
  destruct (cmp x y <=? 0)%Z; [reflexivity|].
  rewrite IH. apply perm_swap.
Qed.

Lemma js_sort_perm {A : Type} (cmp : A -> A -> Z) l :
  Permutation (js_sort cmp l) l.
Proof.
  induction l as [|x l IH]; simpl; [reflexivity|].
  rewrite sort_insert_perm. now constructor.
Qed.

(** *** Statistics of a field without numbers *)

Lemma zero_or_nan_sub x y :
  zero_or_nan x = true -> zero_or_nan y = true ->
  zero_or_nan (num_sub x y) = true.
Proof.
  destruct x as [sx|sx| |sx mx ex], y as [sy|sy| |sy my ey];
    try discriminate; try reflexivity.
  destruct sx, sy; reflexivity.
Qed.

Lemma zero_or_nan_div_l x y :
  zero_or_nan x = true -> zero_or_nan (num_div x y) = true.
Proof.
  destruct x as [sx|sx| |sx mx ex], y as [sy|sy| |sy my ey];
    try discriminate; reflexivity.
Qed.

Lemma or_zero_zero_or_nan x :
  zero_or_nan x = true -> or_zero (Some x) = num_zero.
Proof.
  unfold or_zero, zero_or_nan. simpl. intros ->. reflexivity.
Qed.

Lemma zero_or_nan_nth (l : list number) i :
  Forall (fun x => zero_or_nan x = true) l -> zero_or_nan (nth i l NaN) = true.
Proof.
  intros Hl. revert i. induction Hl as [|x l Hx _ IH]; intros [|i]; simpl;
    try reflexivity; [exact Hx|apply IH].
Qed.

Lemma d3_numbers_cons v (values : list value) :
  d3_numbers (v :: values) =
  match d3_number v with
  | Some x => x :: d3_numbers values
  | None => d3_numbers values
  end.
Proof. reflexivity. Qed.

Lemma d3_numbers_zero (values : list value) :
  Forall (fun v => skipped_or_zero v = true) values ->
  Forall (fun x => zero_or_nan x = true) (d3_numbers values).
Proof.
  induction 1 as [|v values Hv _ IH]; [constructor|].
  rewrite d3_numbers_cons. unfold skipped_or_zero in Hv.
  destruct (d3_number v) as [x|]; [|exact IH].
  constructor; [|exact IH]. unfold zero_or_nan. rewrite Hv. reflexivity.
Qed.

Lemma d3_mean_zero (values : list value) :
  Forall (fun v => skipped_or_zero v = true) values ->
  or_zero (d3_mean values) = num_zero.
Proof.
  unfold d3_mean. intros H.
  match goal with |- context [fold_left ?f _ _] => set (step := f) end.
  assert (Hfold : forall acc,
             zero_or_nan (snd acc) = true ->
             zero_or_nan (snd (fold_left step values acc)) = true).
  { induction H as [|v l Hv _ IH]; intros [count sum] Hsum; [exact Hsum|].
    cbn [fold_left]. apply IH. unfold skipped_or_zero in Hv.
    unfold step at 1.
    destruct (d3_number v) as [x|]; [|exact Hsum]. simpl.
    apply zero_or_nan_add; [exact Hsum|].
    unfold zero_or_nan. rewrite Hv. reflexivity. }
  specialize (Hfold (0, num_zero) eq_refl).
  destruct (fold_left step values (0, num_zero)) as [count sum].
  simpl in Hfold. destruct count; [reflexivity|].
  apply or_zero_zero_or_nan, zero_or_nan_div_l. exact Hfold.
Qed.

Lemma d3_variance_zero (values : list value) :
  Forall (fun v => skipped_or_zero v = true) values ->
  match d3_variance values with
  | Some v => zero_or_nan v = true
  | None => True
  end.
Proof.
  unfold d3_variance. intros H.
  match goal with |- context [fold_left ?f _ _] => set (step := f) end.
  assert (Hfold : forall acc,
             zero_or_nan (snd (fst acc)) = true ->
             zero_or_nan (snd acc) = true ->
             zero_or_nan (snd (fold_left step values acc)) = true).
  { induction H as [|v l Hv _ IH]; intros [[count mean] sum] Hmean Hsum;
      [exact Hsum|].
    cbn [fold_left]. unfold skipped_or_zero in Hv. unfold step at 2.
    destruct (d3_number v) as [x|]; [|apply IH; assumption].
    assert (Hx : zero_or_nan x = true)
      by (unfold zero_or_nan; rewrite Hv; reflexivity).
    assert (Hdelta : zero_or_nan (num_sub x mean) = true)
      by (apply zero_or_nan_sub; assumption).
    apply IH; simpl.
    - apply zero_or_nan_add; [exact Hmean|].
      apply zero_or_nan_div_l. exact Hdelta.
    - apply zero_or_nan_add; [exact Hsum|].
      apply zero_or_nan_mul_l. exact Hdelta. }
  specialize (Hfold (0, num_zero, num_zero) eq_refl eq_refl).
  destruct (fold_left step values (0, num_zero, num_zero)) as [[count mean] sum].
  simpl in Hfold. destruct (1 <? count); [|exact I].
  apply zero_or_nan_div_l. exact Hfold.
Qed.

Lemma d3_median_zero (values : list value) :
  Forall (fun v => skipped_or_zero v = true) values ->
  or_zero (d3_median values) = num_zero.
Proof.
  intros H. apply d3_numbers_zero in H. unfold d3_median.
  set (numbers := d3_numbers values) in *.
  destruct (length numbers) as [|[|n]] eqn:Hlen; [reflexivity| |].
  - apply or_zero_zero_or_nan, zero_or_nan_nth. exact H.
  - assert (Hsorted : Forall (fun x => zero_or_nan x = true)
                        (js_sort num_ascending numbers)).
    { apply List.Forall_forall. intros x Hx.
      apply (Permutation_in _ (js_sort_perm num_ascending numbers)) in Hx.
      rewrite List.Forall_forall in H. apply H. exact Hx. }
    apply or_zero_zero_or_nan, zero_or_nan_add.
    + apply zero_or_nan_nth. exact Hsorted.
    + apply zero_or_nan_mul_l, zero_or_nan_sub; apply zero_or_nan_nth;
        exact Hsorted.
Qed.

(** C6, as the code has it.  [calculateMean], [calculateMedian] and
    [calculateStandardDeviation] return 0 on an empty dataset, and on a
    dataset where every value of the field is one that d3 skips ([null],
    [undefined], absent, and whatever converts to NaN) or one that it
    counts as a zero (such as [''] and [false]).  A value that is not a
    number but converts to one, such as ['5'] or [true], is counted with
    the numbers. *)
Theorem statistics_default_to_zero data variable :
  Forall (fun d => skipped_or_zero (obj_get d variable) = true) data ->
  calculateMean data variable = num_zero /\
  calculateMedian data variable = num_zero /\
  calculateStandardDeviation data variable = num_zero.
Proof.
  intros H.
  assert (Hcol : Forall (fun v => skipped_or_zero v = true)
                   (column data variable)).
  { unfold column. induction H; simpl; constructor; auto. }
  unfold calculateMean, calculateMedian, calculateStandardDeviation.
  split; [apply d3_mean_zero; exact Hcol|].
  split; [apply d3_median_zero; exact Hcol|].
  unfold d3_deviation.
  pose proof (d3_variance_zero _ Hcol) as Hvariance.
  destruct (d3_variance (column data variable)) as [v|]; [|reflexivity].
  assert (Hfalsy : to_boolean (VNumber v) = false).
  { simpl. unfold zero_or_nan in Hvariance. rewrite Hvariance. reflexivity. }
  rewrite Hfalsy. apply or_zero_zero_or_nan. exact Hvariance.
Qed.

(** *** Missing values *)

Lemma impute_one_not_missing variable v r :
  is_missing v = false ->
  is_missing (obj_get (impute_one variable v r) variable) = false.
Proof.
  intros Hv. unfold impute_one.
  destruct (is_missing (obj_get r variable)) eqn:E; [|exact E].
  now rewrite obj_get_set, String.eqb_refl.
Qed.

Lemma no_missing_after_impute variable v (rows : list record) :
  is_missing v = false ->
  List.filter (fun d => is_missing (obj_get d variable))
    (map (impute_one variable v) rows) = [].
Proof.
  intros Hv. induction rows as [|r rows IH]; simpl; [reflexivity|].
  now rewrite impute_one_not_missing.
Qed.

Lemma impute_one_has_key variable v r :
  is_missing v = false -> In variable (obj_keys (impute_one variable v r)).
Proof.
  intros Hv. apply obj_lookup_keys, is_missing_undefined_lookup.
  now apply impute_one_not_missing.
Qed.

Lemma countMissingValues_entries data e :
  In e (countMissingValues data) ->
  mr_count e =
  length (List.filter (fun d => is_missing (obj_get d (mr_variable e))) data).
Proof.
  unfold countMissingValues. destruct data as [|first rest]; [contradiction|].
  intros He. apply (Permutation_in _ (js_sort_perm _ _)) in He.
  apply in_map_iff in He as (k & <- & _). reflexivity.
Qed.

Lemma countMissingValues_keys first rest k :
  In k (obj_keys first) ->
  exists e, In e (countMissingValues (first :: rest)) /\ mr_variable e = k.
Proof.
  intros Hk. unfold countMissingValues.
  eexists. split.
  - apply (Permutation_in _ (Permutation_sym (js_sort_perm _ _))).
    apply in_map_iff. exists k. split; [reflexivity|exact Hk].
  - reflexivity.
Qed.

(** *** The copy made through JSON *)

Lemma num_eqb_refl x : num_is_nan x = false -> num_eqb x x = true.
Proof.
  unfold num_eqb, SFeqb.
  destruct x as [s|s| |s m e]; simpl; try discriminate; intros _.
  - reflexivity.
  - now destruct s.
  - destruct s; rewrite Z.compare_refl, Pos.compare_cont_refl; reflexivity.
Qed.

(** A value JSON represents comes back equal ([===]) to itself. *)
Lemma json_value_representable v :
  json_representable v = true ->
  exists v', json_value v = Some v' /\ strict_equals v' v = true /\
             is_missing v' = is_missing v.
Proof.
  destruct v as [| |b|x|s]; simpl; try discriminate; intros H.
  - exists VNull. auto.
  - exists (VBool b). repeat split. now destruct b.
  - rewrite H. eexists. split; [reflexivity|].
    destruct x as [sx|sx| |sx mx ex]; try discriminate; simpl.
    + split; reflexivity.
    + split; [|reflexivity].
      apply (num_eqb_refl (S754_finite sx mx ex)). reflexivity.
  - exists (VString s). repeat split. simpl. apply String.eqb_refl.
Qed.

Lemma json_clone_lookup (r : record) k :
  NoDup (obj_keys r) ->
  obj_lookup (json_clone r) k =
  match obj_lookup r k with
  | Some v => json_value v
  | None => None
  end.
Proof.
  unfold json_clone. intros Hnd.
  assert (Hgen : forall acc : record,
             obj_lookup
               (fold_left (fun o '(k, v) =>
                             match json_value v with
                             | Some v' => obj_set o k v'
                             | None => o
                             end) r acc) k =
             match obj_lookup r k with
             | Some v => match json_value v with
                         | Some v' => Some v'
                         | None => obj_lookup acc k
                         end
             | None => obj_lookup acc k
             end).
  { induction r as [|[k0 v0] r IH]; intros acc; simpl; [reflexivity|].
    inversion Hnd as [|? ? Hk0 Hnd']; subst.
    rewrite (IH Hnd').
    destruct (String.eqb_spec k k0) as [->|Hne].
    - assert (Hnone : obj_lookup r k0 = None).
      { destruct (obj_lookup r k0) eqn:E; [|reflexivity].
        exfalso. apply Hk0, list_elem_of_In, obj_lookup_keys. congruence. }
      rewrite Hnone. destruct (json_value v0); [|reflexivity].
      now rewrite obj_lookup_set, String.eqb_refl.
    - assert (Hacc : obj_lookup
                       (match json_value v0 with
                        | Some v' => obj_set acc k0 v'
                        | None => acc
                        end) k = obj_lookup acc k).
      { destruct (json_value v0); [|reflexivity].
        rewrite obj_lookup_set.
        destruct (String.eqb_spec k k0); [contradiction|reflexivity]. }
      now rewrite Hacc. }
  rewrite Hgen. destruct (obj_lookup r k) as [v|]; [|reflexivity].
  now destruct (json_value v).
Qed.

Lemma obj_lookup_in {A : Type} (o : object A) k v :
  obj_lookup o k = Some v -> In (k, v) o.
Proof.
  induction o as [|[k0 v0] o IH]; simpl; [discriminate|].
  destruct (String.eqb_spec k k0) as [->|Hne].
  - intros [= ->]. now left.
  - intros H. right. now apply IH.
Qed.

(** Reading a field of the copy of a record of JSON values. *)
Lemma json_clone_get (r : record) k :
  json_record r ->
  strict_equals (obj_get (json_clone r) k) (obj_get r k) = true /\
  is_missing (obj_get (json_clone r) k) = is_missing (obj_get r k).
Proof.
  intros [Hnd Hvals]. unfold obj_get. rewrite json_clone_lookup by exact Hnd.
  destruct (obj_lookup r k) as [v|] eqn:Hk; [|now split].
  rewrite Forall_forall in Hvals.
  apply obj_lookup_in, list_elem_of_In, Hvals in Hk. simpl in Hk.
  destruct (json_value_representable v Hk) as (v' & -> & Heq & Hmiss).
  now split.
Qed.

(** C9.  When the records hold JSON-representable values, the dataset
    returned by [imputeMissingValues] agrees with the input on every
    field other than the imputed one, and on the imputed field wherever
    it was not missing: the values are equal ([===]). *)
Theorem imputeMissingValues_frame h data variable method :
  Forall json_record (deref h data) ->
  exists h' newData,
    imputeMissingValues h data variable method = Normal (h', newData) /\
    forall k l, data !! k = Some l ->
      exists l', newData !! k = Some l' /\
        forall f,
          f <> variable \/ is_missing (obj_get (heap_get h l) f) = false ->
          strict_equals (obj_get (heap_get h' l') f) (obj_get (heap_get h l) f)
          = true.
Proof.
  intros Hjson.
  destruct (imputeMissingValues_records h data variable method)
    as (v & h' & newData & Hres & _ & _ & _ & _ & _ & Hrec).
  exists h', newData. split; [exact Hres|].
  intros k l Hk. destruct (Hrec k l Hk) as (l' & Hl' & Hget).
  exists l'. split; [exact Hl'|]. intros f Hf. rewrite Hget.
  assert (Hr : json_record (heap_get h l)).
  { rewrite Forall_forall in Hjson. apply Hjson.
    apply list_elem_of_In. unfold deref. apply in_map.
    apply list_elem_of_In, list_elem_of_lookup. eauto. }
  destruct (json_clone_get (heap_get h l) f Hr) as [Heq Hmiss].
  unfold impute_one.
  destruct (is_missing (obj_get (json_clone (heap_get h l)) variable)) eqn:E;
    [|exact Heq].
  rewrite obj_get_set.
  destruct (String.eqb_spec f variable) as [->|Hne]; [|exact Heq].
  destruct Hf as [Hf|Hf]; [contradiction|].
  destruct (json_clone_get (heap_get h l) variable Hr) as [_ Hm].
  congruence.
Qed.

(** C4.  With one of the methods 'mean', 'median' and 'mode',
    [imputeMissingValues] leaves every object that was in the heap as it
    was (it works on copies, which are new objects), returns as many
    records as it was given, and [countMissingValues] of the result
    reports no missing value for the field: every entry of the report
    for the field has count 0, and there is one as soon as the dataset
    is not empty and the field is not the name of a member of
    [Object.prototype] (such a name is never missing in a record that
    lacks it, and then nothing is written).  The copies are deep copies
    filled in: when the records hold JSON-representable values, a copy
    agrees ([===]) with its original on every field, but for the imputed
    field where the original has it missing; there it holds one and the
    same value in all the copies, which is not a missing value. *)
Theorem imputeMissingValues_fills h data variable method :
  method = VString "mean" \/ method = VString "median" \/ method = VString "mode" ->
  exists h' newData,
    imputeMissingValues h data variable method = Normal (h', newData) /\
    (forall l, l < length h -> h' !! l = h !! l) /\
    Forall (fun l => length h <= l) newData /\
    length newData = length data /\
    (forall e, In e (countMissingValues (deref h' newData)) ->
               mr_variable e = variable -> mr_count e = 0) /\
    (data <> [] -> inherited variable = false ->
     exists e, In e (countMissingValues (deref h' newData)) /\
               mr_variable e = variable) /\
    (Forall json_record (deref h data) ->
     exists v,
       is_missing v = false /\
       forall k l, data !! k = Some l ->
         exists l',
           newData !! k = Some l' /\
           (is_missing (obj_get (heap_get h l) variable) = true ->
            obj_get (heap_get h' l') variable = v) /\
           (forall f,
              f <> variable \/ is_missing (obj_get (heap_get h l) f) = false ->
              strict_equals (obj_get (heap_get h' l') f)
                (obj_get (heap_get h l) f) = true)).
Proof.
  intros Hmethod.
  destruct (imputeMissingValues_records h data variable method)
    as (v & h' & newData & Hres & Hv & Hold & Hlen & Hnew & Hderef & Hrec).
  assert (Hnm : is_missing v = false).
  { rewrite Hv. apply valueToImpute_not_missing.
    destruct Hmethod as [-> | [-> | ->]]; auto. }
  exists h', newData. split; [exact Hres|]. split; [exact Hold|].
  split; [exact Hnew|]. split; [exact Hlen|].
  rewrite Hderef. set (copies := map json_clone (deref h data)).
  split; [|split].
  - intros e He Hvar. rewrite (countMissingValues_entries _ _ He), Hvar.
    now rewrite no_missing_after_impute.
  - intros Hne _. destruct data as [|l data]; [contradiction|]. simpl.
    apply countMissingValues_keys. now apply impute_one_has_key.
  - intros Hjson. exists v. split; [exact Hnm|].
    intros k l Hk. destruct (Hrec k l Hk) as (l' & Hl' & Hget).
    exists l'. split; [exact Hl'|]. rewrite Hget.
    assert (Hr : json_record (heap_get h l)).
    { rewrite Forall_forall in Hjson. apply Hjson.
      apply list_elem_of_In. unfold deref. apply in_map.
      apply list_elem_of_In, list_elem_of_lookup. eauto. }
    destruct (json_clone_get (heap_get h l) variable Hr) as [_ Hm].
    split.
    + intros Hmissing. unfold impute_one. rewrite Hm, Hmissing.
      rewrite obj_get_set, String.eqb_refl. reflexivity.
    + intros f Hf.
      destruct (json_clone_get (heap_get h l) f Hr) as [Heq _].
      unfold impute_one.
      destruct (is_missing (obj_get (json_clone (heap_get h l)) variable))
        eqn:E; [|exact Heq].
      rewrite obj_get_set.
      destruct (String.eqb_spec f variable) as [->|Hne]; [|exact Heq].
      destruct Hf as [Hf|Hf]; [contradiction|]. congruence.
Qed.

Section SortByCount.
Context {A : Type} (count : A -> nat).

Let desc (a b : A) : Prop := count b <= count a.

Lemma before_cons (x a b : A) l :
  before (x :: l) a b <-> (a = x /\ In b l) \/ before l a b.
Proof.
  split.
  - inversion 1; subst; auto.
  - intros [[-> H]|H]; [now constructor|now apply before_later].
Qed.

Lemma sort_insert_sorted x l :
  StronglySorted desc l ->
  StronglySorted desc (sort_insert (by_count_desc count) x l).
Proof.
  induction 1 as [|y l Hl IH Hy]; simpl.
  - repeat constructor.
  - unfold by_count_desc at 1.
    destruct (Z.leb_spec (Z.of_nat (count y) - Z.of_nat (count x)) 0).
    + constructor; [now constructor|].
      constructor; [unfold desc; lia|].
      eapply Forall_impl; [exact Hy|]. unfold desc. simpl. intros; lia.
    + constructor; [exact IH|].
      apply Forall_forall. intros z Hz.
      apply list_elem_of_In in Hz.
      apply (Permutation_in _ (sort_insert_perm _ _ _)) in Hz.
      destruct Hz as [<-|Hz]; [unfold desc; lia|].
      rewrite Forall_forall in Hy. now apply Hy, list_elem_of_In.
Qed.

Lemma js_sort_sorted l :
  StronglySorted desc (js_sort (by_count_desc count) l).
Proof.
  induction l as [|x l IH]; simpl; [constructor|].
  now apply sort_insert_sorted.
Qed.

(** Where the pairs of the list come from once [x] is inserted. *)
Lemma sort_insert_before x l a b :
  StronglySorted desc l ->
  before (sort_insert (by_count_desc count) x l) a b ->
  before l a b \/
  (a = x /\ In b l /\ count b <= count x) \/
  (b = x /\ In a l /\ count x < count a).
Proof.
  induction 1 as [|y l Hl IH Hy]; simpl; intros Hb.
  - apply before_cons in Hb as [[_ []]|Hb]. inversion Hb.
  - unfold by_count_desc in Hb at 1.
    destruct (Z.leb_spec (Z.of_nat (count y) - Z.of_nat (count x)) 0).
    + apply before_cons in Hb as [[-> Hin]|Hb]; [|now left].
      right; left. split; [reflexivity|]. split; [exact Hin|].
      destruct Hin as [<-|Hin]; [lia|].
      rewrite Forall_forall in Hy.
      apply list_elem_of_In, Hy in Hin. unfold desc in Hin. lia.
    + apply before_cons in Hb as [[-> Hin]|Hb].
      * apply (Permutation_in _ (sort_insert_perm _ _ _)) in Hin.
        destruct Hin as [<-|Hin].
        -- right; right. split; [reflexivity|]. split; [now left|lia].
        -- left. now constructor.
      * destruct (IH Hb) as [H1|[(-> & Hin & Hc)|(-> & Hin & Hc)]].
        -- left. now apply before_later.
        -- right; left. split; [reflexivity|]. split; [now right|exact Hc].
        -- right; right. split; [reflexivity|]. split; [now right|exact Hc].
Qed.

(** The sort is by count, descending, and keeps the elements of equal
    count in the order they had. *)
Lemma js_sort_before l a b :
  before (js_sort (by_count_desc count) l) a b ->
  count b < count a \/ (count a = count b /\ before l a b).
Proof.
  revert a b. induction l as [|x l IH]; simpl; intros a b Hb.
  - inversion Hb.
  - apply sort_insert_before in Hb; [|apply js_sort_sorted].
    destruct Hb as [Hb|[(-> & Hin & Hc)|(-> & Hin & Hc)]].
    + destruct (IH _ _ Hb) as [?|[? ?]]; [now left|].
      right. split; [assumption|]. now apply before_later.
    + apply (Permutation_in _ (js_sort_perm _ _)) in Hin.
      destruct (Nat.eq_dec (count b) (count x)) as [E|E].
      * right. split; [now symmetry|]. now constructor.
      * left. lia.
    + now left.
Qed.

Lemma lookup_before (l : list A) p q a b :
  l !! p = Some a -> l !! q = Some b -> p < q -> before l a b.
Proof.
  revert p q. induction l as [|x l IH]; intros p q Hp Hq Hlt;
    [discriminate|].
  destruct q as [|q]; [lia|]. simpl in Hq.
  destruct p as [|p]; simpl in Hp.
  - injection Hp as ->. constructor.
    apply list_elem_of_In, list_elem_of_lookup. eauto.
  - apply before_later. apply (IH p q); auto. lia.
Qed.

Lemma before_lookup (l : list A) a b :
  before l a b ->
  exists p q, p < q /\ l !! p = Some a /\ l !! q = Some b.
Proof.
  induction 1 as [a b l H|x a b l _ (p & q & Hlt & Hp & Hq)].
  - apply list_elem_of_In, list_elem_of_lookup in H as [q Hq].
    exists 0, (S q). repeat split; [lia|exact Hq].
  - exists (S p), (S q). repeat split; [lia|exact Hp|exact Hq].
Qed.
End SortByCount.

(** *** Grouping *)

Lemma num_eqb_finite sx mx ex sy my ey :
  num_eqb (S754_finite sx mx ex) (S754_finite sy my ey) = true ->
  S754_finite sx mx ex = S754_finite sy my ey.
Proof.
  unfold num_eqb, SFeqb. simpl. intros H.
  destruct sx, sy; try discriminate;
    destruct (Z.compare ex ey) eqn:He; try discriminate;
    destruct (Pos.compare_cont Eq mx my) eqn:Hm; try discriminate;
    apply Z.compare_eq in He; apply Pos.compare_eq in Hm; congruence.
Qed.

Lemma map_key_number x :
  map_key (VNumber x) =
  VNumber (match x with S754_zero true => S754_zero false | _ => x end).
Proof. destruct x as [[]| | |]; reflexivity. Qed.

Lemma num_same_value_zero x y :
  (num_is_nan x && num_is_nan y) || num_eqb x y = true <->
  match x with S754_zero true => S754_zero false | _ => x end =
  match y with S754_zero true => S754_zero false | _ => y end.
Proof.
  destruct x as [sx|sx| |sx mx ex], y as [sy|sy| |sy my ey].
  16: { split; intros H.
        - apply (num_eqb_finite sx mx ex sy my ey) in H. exact H.
        - rewrite H. apply (num_eqb_refl (S754_finite sy my ey)). reflexivity. }
  all: try destruct sx; try destruct sy; unfold num_eqb, SFeqb; cbn;
    split; congruence.
Qed.

(** SameValueZero equates the values that are stored under the same key
    of a [Map]. *)
Lemma same_value_zero_spec a b :
  same_value_zero a b = true <-> map_key a = map_key b.
Proof.
  destruct a as [| |x|x|s], b as [| |y|y|t];
    rewrite ?map_key_number;
    try (cbn; split; congruence).
  - cbn. destruct x, y; cbn; split; congruence.
  - unfold same_value_zero. rewrite num_same_value_zero.
    split; intros H; [f_equal; exact H|injection H; auto].
  - cbn. rewrite String.eqb_eq. split; congruence.
Qed.

Lemma map_key_idempotent v : map_key (map_key v) = map_key v.
Proof. destruct v as [| |b|[[]| | |]|s]; reflexivity. Qed.

Lemma same_value_zero_map_key k v :
  map_key k = k -> same_value_zero k v = true <-> k = map_key v.
Proof. intros Hk. rewrite same_value_zero_spec, Hk. reflexivity. Qed.

Lemma same_value_zero_false k v :
  map_key k = k -> same_value_zero k v = false <-> k <> map_key v.
Proof.
  intros Hk. rewrite <- (same_value_zero_map_key k v Hk).
  destruct (same_value_zero k v); split; congruence.
Qed.

Lemma value_eq_dec (a b : value) : {a = b} + {a <> b}.
Proof.
  decide equality;
    [apply Bool.bool_dec| |apply string_dec].
  decide equality;
    solve [apply Bool.bool_dec | apply Z.eq_dec | apply Pos.eq_dec].
Qed.

Section Groups.
Context {A : Type} (keyof : A -> value).

Lemma group_push_new (groups : list (value * list A)) key x :
  groups_ok groups -> ~ In (map_key key) (map fst groups) ->
  group_push groups key x = groups ++ [(map_key key, [x])].
Proof.
  intros [Hnorm _] Hnew.
  induction groups as [|[k xs] groups IH]; simpl in *; [reflexivity|].
  inversion Hnorm as [|? ? Hk Hrest]; subst. simpl in Hk.
  destruct (same_value_zero k key) eqn:E.
  - apply (same_value_zero_map_key k key Hk) in E.
    exfalso. apply Hnew. now left.
  - rewrite IH; auto.
Qed.

Lemma group_items_absent (groups : list (value * list A)) key x :
  Forall (fun g => map_key (fst g) = fst g) groups ->
  ~ In (map_key key) (map fst groups) ->
  map (fun g => (fst g, if same_value_zero (fst g) key
                        then snd g ++ [x] else snd g)) groups = groups.
Proof.
  intros Hnorm Hnew.
  induction groups as [|[k xs] groups IH]; simpl in *; [reflexivity|].
  inversion Hnorm as [|? ? Hk Hrest]; subst. simpl in Hk.
  assert (Hne : same_value_zero k key = false).
  { apply same_value_zero_false; [exact Hk|]. intros ->.
    apply Hnew. now left. }
  rewrite Hne, IH; auto.
Qed.

Lemma group_push_old (groups : list (value * list A)) key x :
  groups_ok groups -> In (map_key key) (map fst groups) ->
  group_push groups key x =
  map (fun g => (fst g, if same_value_zero (fst g) key
                        then snd g ++ [x] else snd g)) groups.
Proof.
  intros [Hnorm Hnd] Hin.
  induction groups as [|[k xs] groups IH]; simpl in *; [contradiction|].
  inversion Hnorm as [|? ? Hk Hrest]; subst. simpl in Hk.
  inversion Hnd as [|? ? Hnotin Hnd']; subst.
  rewrite list_elem_of_In in Hnotin.
  destruct (same_value_zero k key) eqn:E.
  - f_equal. apply (same_value_zero_map_key k key Hk) in E. subst k.
    symmetry. now apply group_items_absent.
  - f_equal. apply IH; auto.
    destruct Hin as [Hin|Hin]; [|exact Hin].
    apply (same_value_zero_false k key Hk) in E. congruence.
Qed.

Lemma group_push_ok (groups : list (value * list A)) key x :
  groups_ok groups -> groups_ok (group_push groups key x).
Proof.
  intros Hok.
  destruct (in_dec value_eq_dec (map_key key) (map fst groups)) as [Hin|Hnew].
  - rewrite group_push_old by assumption.
    destruct Hok as [Hnorm Hnd]. split.
    + apply Forall_forall. intros g Hg.
      apply list_elem_of_In, in_map_iff in Hg as (g0 & <- & Hg0). simpl.
      rewrite Forall_forall in Hnorm. now apply Hnorm, list_elem_of_In.
    + now rewrite map_map.
  - rewrite group_push_new by assumption.
    destruct Hok as [Hnorm Hnd]. split.
    + apply Forall_app. split; [exact Hnorm|].
      constructor; [apply map_key_idempotent|constructor].
    + rewrite map_app. simpl. apply NoDup_app. split; [exact Hnd|].
      split; [|apply NoDup_singleton].
      intros k Hk Hk'. apply list_elem_of_singleton in Hk'. subst k.
      now apply list_elem_of_In in Hk.
Qed.

Lemma d3_group_snoc (values : list A) x :
  d3_group (values ++ [x]) keyof =
  group_push (d3_group values keyof) (keyof x) x.
Proof. unfold d3_group. now rewrite fold_left_app. Qed.

Lemma d3_group_ok (values : list A) : groups_ok (d3_group values keyof).
Proof.
  induction values as [|x values IH] using rev_ind.
  - split; constructor.
  - rewrite d3_group_snoc. now apply group_push_ok.
Qed.

Lemma first_seen_app v (l l' : list value) :
  first_seen v (l ++ l') =
  match first_seen v l with
  | Some i => Some i
  | None => option_map (fun i => length l + i) (first_seen v l')
  end.
Proof.
  induction l as [|x l IH]; simpl.
  - now destruct (first_seen v l').
  - destruct (same_value_zero x v); [reflexivity|].
    rewrite IH. destruct (first_seen v l); [reflexivity|].
    now destruct (first_seen v l').
Qed.

Lemma first_seen_lt v (l : list value) i :
  first_seen v l = Some i -> i < length l.
Proof.
  revert i. induction l as [|x l IH]; simpl; intros i; [discriminate|].
  destruct (same_value_zero x v).
  - intros [= <-]. lia.
  - destruct (first_seen v l) as [j|]; [|discriminate].
    intros [= <-]. specialize (IH j eq_refl). lia.
Qed.

Lemma first_seen_none v (l : list value) :
  (forall x, In x l -> same_value_zero x v = false) -> first_seen v l = None.
Proof.
  induction l as [|x l IH]; simpl; intros H; [reflexivity|].
  rewrite (H x) by now left. rewrite IH; auto.
Qed.

(** The sizes of the groups add up to one more with each element. *)
Lemma group_push_total (groups : list (value * list A)) key x :
  list_sum (map (fun g => length (snd g)) (group_push groups key x)) =
  S (list_sum (map (fun g => length (snd g)) groups)).
Proof.
  induction groups as [|[k xs] groups IH]; simpl; [reflexivity|].
  destruct (same_value_zero k key); simpl.
  - rewrite length_app. simpl. lia.
  - rewrite IH. lia.
Qed.

Lemma d3_group_total values :
  list_sum (map (fun g => length (snd g)) (d3_group values keyof)) =
  length values.
Proof.
  induction values as [|x values IH] using rev_ind; [reflexivity|].
  rewrite d3_group_snoc, group_push_total, IH, length_app. simpl. lia.
Qed.

(** The [Map] built by [d3.group]: a key for every element, under each
    key the elements that have it, the keys in the order they were
    first met. *)
Lemma d3_group_spec values :
  let groups := d3_group values keyof in
  let col := map keyof values in
  (forall y, In y values -> In (map_key (keyof y)) (map fst groups)) /\
  (forall g, In g groups ->
     snd g = List.filter (fun x => same_value_zero (fst g) (keyof x)) values) /\
  (forall k, In k (map fst groups) -> exists i, first_seen k col = Some i) /\
  (forall p q kp kq,
     map fst groups !! p = Some kp -> map fst groups !! q = Some kq -> p < q ->
     exists ip iq,
       first_seen kp col = Some ip /\ first_seen kq col = Some iq /\ ip < iq).
Proof.
  induction values as [|x values IH] using rev_ind.
  - simpl. repeat split; try contradiction. intros p q kp kq H. discriminate.
  - cbv zeta in *. destruct IH as (Hcover & Hitems & Hseen & Horder).
    pose proof (d3_group_ok values) as Hok.
    rewrite d3_group_snoc, map_app. simpl.
    set (groups := d3_group values keyof) in *.
    set (col := map keyof values) in *.
    set (key := keyof x). set (nk := map_key key).
    destruct (in_dec value_eq_dec nk (map fst groups)) as [Hin|Hnew].
    + (* the key is there: [x] joins its group *)
      rewrite group_push_old by assumption.
      assert (Hkeys : map fst (map (fun g => (fst g,
                         if same_value_zero (fst g) key
                         then snd g ++ [x] else snd g)) groups)
                      = map fst groups) by now rewrite map_map.
      rewrite Hkeys. repeat split.
      * intros y Hy. apply in_app_or in Hy as [Hy|[<-|[]]]; auto.
      * intros g Hg. apply in_map_iff in Hg as (g0 & <- & Hg0). simpl.
        rewrite List.filter_app. simpl. rewrite (Hitems g0 Hg0).
        change (keyof x) with key.
        destruct (same_value_zero (fst g0) key); [reflexivity|].
        now rewrite app_nil_r.
      * intros k Hk. destruct (Hseen k Hk) as [i Hi].
        exists i. now rewrite first_seen_app, Hi.
      * intros p q kp kq Hp Hq Hlt.
        destruct (Horder p q kp kq Hp Hq Hlt) as (ip & iq & Hip & Hiq & Hlt').
        exists ip, iq. now rewrite !first_seen_app, Hip, Hiq.
    + (* a new key: a new group at the end *)
      rewrite group_push_new by assumption. rewrite map_app. simpl.
      assert (Hfresh : forall y, In y values ->
                                 same_value_zero (keyof y) nk = false).
      { intros y Hy.
        destruct (same_value_zero (keyof y) nk) eqn:E; [|reflexivity].
        apply same_value_zero_spec in E.
        unfold nk in E. rewrite map_key_idempotent in E.
        exfalso. apply Hnew. fold nk. unfold nk. rewrite <- E. now apply Hcover. }
      assert (Hnone : first_seen nk col = None).
      { apply first_seen_none. intros v Hv.
        apply in_map_iff in Hv as (y & <- & Hy). now apply Hfresh. }
      assert (Hself : same_value_zero key nk = true).
      { apply same_value_zero_spec. unfold nk. now rewrite map_key_idempotent. }
      assert (Hnew_seen : first_seen nk (col ++ [key]) = Some (length col)).
      { rewrite first_seen_app, Hnone. simpl. rewrite Hself. simpl.
        f_equal. lia. }
      repeat split.
      * intros y Hy. apply in_or_app.
        apply in_app_or in Hy as [Hy|[<-|[]]]; [left; auto|right; now left].
      * intros g Hg. rewrite List.filter_app. simpl.
        change (keyof x) with key.
        apply in_app_or in Hg as [Hg|[<-|[]]].
        -- rewrite (Hitems g Hg).
           assert (Hne : same_value_zero (fst g) key = false).
           { destruct Hok as [Hnorm _]. rewrite Forall_forall in Hnorm.
             apply same_value_zero_false;
               [now apply Hnorm, list_elem_of_In|].
             intros E. apply Hnew. fold key in E. fold nk in E.
             rewrite <- E. now apply in_map. }
           rewrite Hne. now rewrite app_nil_r.
        -- simpl.
           assert (Hnk : same_value_zero nk key = true).
           { apply same_value_zero_spec. unfold nk. apply map_key_idempotent. }
           change (map_key key) with nk. rewrite Hnk.
           assert (Hempty : List.filter
                              (fun y => same_value_zero nk (keyof y)) values = []).
           { clear -Hfresh. induction values as [|y values IH]; simpl;
               [reflexivity|].
             assert (same_value_zero nk (keyof y) = false) as ->.
             { specialize (Hfresh y (or_introl eq_refl)).
               destruct (same_value_zero nk (keyof y)) eqn:E; [|reflexivity].
               apply same_value_zero_spec in E.
               assert (same_value_zero (keyof y) nk = true)
                 by (apply same_value_zero_spec; congruence).
               congruence. }
             apply IH. intros z Hz. apply Hfresh. now right. }
           now rewrite Hempty.
      * intros k Hk. apply in_app_or in Hk as [Hk|[<-|[]]].
        -- destruct (Hseen k Hk) as [i Hi].
           exists i. now rewrite first_seen_app, Hi.
        -- eauto.
      * intros p q kp kq Hp Hq Hlt.
        assert (Hq' : q < length (map fst groups ++ [nk]))
          by (eapply lookup_lt_Some; eauto).
        rewrite length_app in Hq'. simpl in Hq'.
        rewrite lookup_app_l in Hp by lia.
        destruct (Nat.eq_dec q (length (map fst groups))) as [->|Hneq].
        -- rewrite lookup_app_r in Hq by lia.
           rewrite Nat.sub_diag in Hq. injection Hq as <-.
           destruct (Hseen kp) as [ip Hip].
           { apply list_elem_of_In, list_elem_of_lookup. eauto. }
           exists ip, (length col).
           rewrite first_seen_app, Hip. split; [reflexivity|].
           split; [exact Hnew_seen|]. now apply first_seen_lt in Hip.
        -- rewrite lookup_app_l in Hq by lia.
           destruct (Horder p q kp kq Hp Hq Hlt)
             as (ip & iq & Hip & Hiq & Hlt').
           exists ip, iq. now rewrite !first_seen_app, Hip, Hiq.
Qed.
End Groups.

(** *** The rounding of a percentage

    [count / total * 100] rounds twice, once in the division and once
    in the multiplication.  Each rounding of a normal number moves the
    value by a factor between [1 - rounding_unit] and
    [1 + rounding_unit]: the mantissa is truncated to 53 bits and then
    kept or incremented, so it stays within one unit of the last place
    of the exact mantissa. *)

Section Rounding.

Local Open Scope Z_scope.

(** **** Digits *)

Lemma digits2_pos_bounds p :
  2 ^ (Z.pos (digits2_pos p) - 1) <= Z.pos p < 2 ^ Z.pos (digits2_pos p).
Proof.
  induction p as [p IH|p IH|]; cbn [digits2_pos].
  - rewrite Pos2Z.inj_succ.
    replace (Z.succ (Z.pos (digits2_pos p)) - 1)
      with (Z.succ (Z.pos (digits2_pos p) - 1)) by lia.
    rewrite !Z.pow_succ_r by lia. lia.
  - rewrite Pos2Z.inj_succ.
    replace (Z.succ (Z.pos (digits2_pos p)) - 1)
      with (Z.succ (Z.pos (digits2_pos p) - 1)) by lia.
    rewrite !Z.pow_succ_r by lia. lia.
  - simpl. lia.
Qed.

Lemma digits2_pos_unique p k :
  2 ^ (k - 1) <= Z.pos p < 2 ^ k -> Z.pos (digits2_pos p) = k.
Proof.
  intros [Hlo Hhi]. pose proof (digits2_pos_bounds p) as [Hlo' Hhi'].
  set (d := Z.pos (digits2_pos p)) in *.
  assert (Hk : 0 < k).
  { destruct (Z_lt_le_dec 0 k) as [H|H]; [exact H|].
    assert (2 ^ k <= 1).
    { destruct (Z.eq_dec k 0) as [->|Hne]; [simpl; lia|].
      rewrite Z.pow_neg_r by lia. lia. }
    lia. }
  destruct (Z_lt_le_dec d k) as [H|H].
  - assert (2 ^ d <= 2 ^ (k - 1)) by (apply Z.pow_le_mono_r; lia). lia.
  - destruct (Z_lt_le_dec k d) as [H'|H']; [|lia].
    assert (2 ^ k <= 2 ^ (d - 1)) by (apply Z.pow_le_mono_r; lia). lia.
Qed.

(** **** Shifting to the right *)

Lemma shr_1_m mrs : 0 <= shr_m mrs -> shr_m (shr_1 mrs) = shr_m mrs / 2.
Proof.
  destruct mrs as [m r s]. simpl. intros Hm.
  destruct m as [|[p|p|]|p]; simpl; try reflexivity; try lia.
  - rewrite Pos2Z.inj_xI. apply Z.div_unique with 1; lia.
  - rewrite Pos2Z.inj_xO. apply Z.div_unique with 0; lia.
Qed.

Lemma pow2_xO p : 2 ^ Z.pos p~0 = 2 ^ Z.pos p * 2 ^ Z.pos p.
Proof.
  replace (Z.pos p~0) with (Z.pos p + Z.pos p) by lia.
  apply Z.pow_add_r; lia.
Qed.

Lemma pow2_xI p : 2 ^ Z.pos p~1 = 2 * (2 ^ Z.pos p * 2 ^ Z.pos p).
Proof.
  replace (Z.pos p~1) with (1 + (Z.pos p + Z.pos p)) by lia.
  rewrite Z.pow_add_r, Z.pow_add_r by lia. reflexivity.
Qed.

Lemma iter_shr_m p mrs :
  0 <= shr_m mrs ->
  shr_m (SpecFloat.iter_pos shr_1 p mrs) = shr_m mrs / 2 ^ Z.pos p.
Proof.
  revert mrs. induction p as [p IH|p IH|]; intros mrs Hm;
    cbn [SpecFloat.iter_pos].
  - assert (Hp : 0 < 2 ^ Z.pos p) by (apply Z.pow_pos_nonneg; lia).
    assert (H1 : 0 <= shr_m (shr_1 mrs))
      by (rewrite shr_1_m by exact Hm; apply Z.div_pos; lia).
    assert (H2 : 0 <= shr_m (SpecFloat.iter_pos shr_1 p (shr_1 mrs)))
      by (rewrite IH by exact H1; apply Z.div_pos; lia).
    rewrite IH by exact H2. rewrite IH by exact H1. rewrite shr_1_m by exact Hm.
    rewrite pow2_xI, !Z.div_div by lia. reflexivity.
  - assert (Hp : 0 < 2 ^ Z.pos p) by (apply Z.pow_pos_nonneg; lia).
    assert (H1 : 0 <= shr_m (SpecFloat.iter_pos shr_1 p mrs))
      by (rewrite IH by exact Hm; apply Z.div_pos; lia).
    rewrite IH by exact H1. rewrite IH by exact Hm.
    rewrite pow2_xO, Z.div_div by lia. reflexivity.
  - rewrite shr_1_m by exact Hm. reflexivity.
Qed.

Lemma shr_record_of_loc_m m l : shr_m (shr_record_of_loc m l) = m.
Proof. destruct l as [|[]]; reflexivity. Qed.

Lemma round_nearest_even_cases m l :
  round_nearest_even m l = m \/ round_nearest_even m l = m + 1.
Proof.
  destruct l as [|[]]; simpl; auto. destruct (Z.even m); auto.
Qed.

(** **** Rounding to 53 bits *)

Lemma shr_fexp_m (m : positive) e l :
  let d := Z.pos (digits2_pos m) in
  53 <= d -> -1021 <= d + e ->
  exists mrs,
    shr_fexp prec emax (Z.pos m) e l = (mrs, e + (d - 53)) /\
    shr_m mrs = Z.pos m / 2 ^ (d - 53).
Proof.
  intros d Hd He. unfold shr_fexp. cbn [Zdigits2]. fold d.
  unfold fexp, emin, prec, emax. rewrite Z.max_l by lia.
  replace (d + e - 53 - e) with (d - 53) by lia.
  destruct (d - 53) as [|n|n] eqn:Hn; [| |lia].
  - eexists. split; [unfold shr; rewrite Z.add_0_r; reflexivity|].
    rewrite shr_record_of_loc_m, Z.div_1_r. reflexivity.
  - eexists. split; [reflexivity|].
    rewrite iter_shr_m; rewrite shr_record_of_loc_m; [reflexivity|lia].
Qed.

Lemma round_exact (m : positive) e :
  Z.pos (digits2_pos m) = 53 -> -1074 <= e <= 971 ->
  binary_round_aux prec emax false (Z.pos m) e loc_Exact = S754_finite false m e.
Proof.
  intros Hd He. unfold binary_round_aux, shr_fexp. cbn [Zdigits2]. rewrite Hd.
  unfold fexp, emin, prec, emax. rewrite Z.max_l by lia.
  replace (53 + e - 53 - e) with 0 by lia. cbn [shr shr_record_of_loc].
  cbn [shr_m loc_of_shr_record round_nearest_even Zdigits2]. rewrite Hd.
  rewrite Z.max_l by lia.
  replace (53 + e - 53 - e) with 0 by lia. cbn [shr shr_record_of_loc shr_m].
  replace (e <=? 1024 - 53) with true by (symmetry; apply Z.leb_le; lia).
  reflexivity.
Qed.

(** Rounding a mantissa of at least 53 bits gives a normal number whose
    mantissa, brought back to the exponent [e], is within [2 ^ (d - 53)]
    of [m]: below it by truncation, or above it by the increment. *)
Lemma round_bracket (m : positive) e l :
  let d := Z.pos (digits2_pos m) in
  53 <= d -> -1021 <= d + e <= 1023 ->
  exists m' e',
    binary_round_aux prec emax false (Z.pos m) e l = S754_finite false m' e' /\
    Z.pos (digits2_pos m') = 53 /\
    e + (d - 53) <= e' <= e + (d - 53) + 1 /\
    Z.pos m' * 2 ^ (e' - e) - 2 ^ (d - 53) <= Z.pos m /\
    Z.pos m + 1 <= Z.pos m' * 2 ^ (e' - e) + 2 ^ (d - 53).
Proof.
  intros d Hd [Hlo Hhi].
  destruct (shr_fexp_m m e l Hd Hlo) as (mrs & Hshr & Hm). fold d in Hshr, Hm.
  unfold binary_round_aux. rewrite Hshr.
  set (n := d - 53) in *. set (K := 2 ^ n) in *.
  assert (HK : 0 < K) by (apply Z.pow_pos_nonneg; lia).
  set (t := Z.pos m / K) in *.
  pose proof (digits2_pos_bounds m) as [Hdlo Hdhi]. fold d in Hdlo, Hdhi.
  assert (Hd1 : 2 ^ (d - 1) = 2 ^ 52 * K).
  { unfold K. rewrite <- Z.pow_add_r by lia. f_equal. lia. }
  assert (Hd2 : 2 ^ d = 2 ^ 53 * K).
  { unfold K. rewrite <- Z.pow_add_r by lia. f_equal. lia. }
  assert (Ht1 : K * t <= Z.pos m) by (apply Z.mul_div_le; exact HK).
  assert (Ht2 : Z.pos m < K * t + K).
  { pose proof (Z.mul_succ_div_gt (Z.pos m) K HK) as H. fold t in H. lia. }
  assert (Htlo : 2 ^ 52 <= t).
  { apply Z.div_le_lower_bound; [exact HK|]. lia. }
  assert (Hthi : t < 2 ^ 53).
  { apply Z.div_lt_upper_bound; [exact HK|]. lia. }
  set (r := round_nearest_even (shr_m mrs) (loc_of_shr_record mrs)).
  assert (Hr : r = t \/ r = t + 1).
  { unfold r. rewrite Hm. apply round_nearest_even_cases. }
  assert (Hrpos : 0 < r) by lia.
  destruct r as [|pr|pr] eqn:Er; try lia.
  destruct (Z_lt_le_dec (Z.pos pr) (2 ^ 53)) as [Hsmall|Hbig].
  - assert (Hdr : Z.pos (digits2_pos pr) = 53)
      by (apply digits2_pos_unique; change (53 - 1) with 52; lia).
    unfold shr_fexp. cbn [Zdigits2]. rewrite Hdr.
    unfold fexp, emin, prec, emax. rewrite Z.max_l by lia.
    replace (53 + (e + n) - 53 - (e + n)) with 0 by lia.
    cbn [shr shr_record_of_loc shr_m].
    replace (e + n <=? 1024 - 53) with true by (symmetry; apply Z.leb_le; lia).
    exists pr, (e + n). split; [reflexivity|]. split; [exact Hdr|].
    split; [lia|]. replace (e + n - e) with n by lia. fold K.
    destruct Hr as [Hr|Hr]; rewrite Hr; lia.
  - assert (Hr53 : Z.pos pr = 2 ^ 53) by lia.
    assert (Hdr : Z.pos (digits2_pos pr) = 54)
      by (apply digits2_pos_unique; rewrite Hr53; change (54 - 1) with 53;
          split; [lia|apply Z.pow_lt_mono_r; lia]).
    unfold shr_fexp. cbn [Zdigits2]. rewrite Hdr.
    unfold fexp, emin, prec, emax. rewrite Z.max_l by lia.
    replace (54 + (e + n) - 53 - (e + n)) with 1 by lia.
    cbn [shr shr_record_of_loc SpecFloat.iter_pos].
    assert (Hhalf : shr_m (shr_1 {| shr_m := Z.pos pr; shr_r := false;
                                    shr_s := false |}) = 2 ^ 52).
    { rewrite shr_1_m by (simpl; lia). cbn [shr_m]. rewrite Hr53.
      reflexivity. }
    rewrite Hhalf. change (2 ^ 52) with (Z.pos (2 ^ 52)%positive) at 1.
    cbv iota beta.
    replace (e + n + 1 <=? 1024 - 53) with true
      by (symmetry; apply Z.leb_le; lia).
    exists (2 ^ 52)%positive, (e + n + 1). split; [reflexivity|].
    split; [reflexivity|]. split; [lia|].
    replace (e + n + 1 - e) with (1 + n) by lia.
    rewrite Z.pow_add_r by lia. fold K.
    change (Z.pos (2 ^ 52)) with (2 ^ 52). change (2 ^ 1) with 2.
    assert (Ht53 : t + 1 = 2 ^ 53) by lia.
    assert (E : 2 ^ 52 * (2 * K) = K * t + K).
    { replace (K * t + K) with (K * (t + 1)) by ring. rewrite Ht53.
      change (2 ^ 53) with (2 ^ 52 * 2). ring. }
    rewrite E. lia.
Qed.

(** **** Integers as numbers *)

Lemma pos_iter_xO p k : Z.pos (Pos.iter xO p k) = Z.pos p * 2 ^ Z.pos k.
Proof.
  induction k as [|k IH] using Pos.peano_ind.
  - simpl. lia.
  - rewrite Pos.iter_succ, Pos2Z.inj_xO, IH, Pos2Z.inj_succ.
    rewrite Z.pow_succ_r by lia. ring.
Qed.

(** A positive integer below 2^53 is a number with a 53-bit mantissa,
    and no bit is lost. *)
Lemma num_of_Z_normal (p : positive) :
  Z.pos p < 2 ^ 53 ->
  exists m e,
    num_of_Z (Z.pos p) = S754_finite false m e /\
    Z.pos (digits2_pos m) = 53 /\ -52 <= e <= 0 /\
    Z.pos m = Z.pos p * 2 ^ (- e).
Proof.
  intros Hp. pose proof (digits2_pos_bounds p) as [Hlo Hhi].
  set (d := Z.pos (digits2_pos p)) in *.
  assert (Hd : 1 <= d <= 53).
  { split; [unfold d; lia|].
    destruct (Z_le_gt_dec d 53) as [H|H]; [exact H|].
    assert (2 ^ 53 <= 2 ^ (d - 1)) by (apply Z.pow_le_mono_r; lia). lia. }
  unfold num_of_Z, binary_normalize, binary_round. fold d.
  unfold fexp, emin, prec, emax. rewrite Z.max_l by lia.
  unfold shl_align.
  destruct (d + 0 - 53 - 0) as [|k|k] eqn:Hk; [| lia |].
  - exists p, 0. split.
    + apply round_exact; [fold d|]; lia.
    + split; [fold d; lia|]. split; [lia|]. simpl. lia.
  - assert (Hk' : Z.pos k = 53 - d) by lia.
    assert (Hm : Z.pos (Pos.iter xO p k) = Z.pos p * 2 ^ (53 - d))
      by (rewrite pos_iter_xO, Hk'; reflexivity).
    assert (Hdm : Z.pos (digits2_pos (Pos.iter xO p k)) = 53).
    { apply digits2_pos_unique. rewrite Hm. change (53 - 1) with 52.
      assert (E1 : 2 ^ 52 = 2 ^ (d - 1) * 2 ^ (53 - d))
        by (rewrite <- Z.pow_add_r by lia; f_equal; lia).
      assert (E2 : 2 ^ 53 = 2 ^ d * 2 ^ (53 - d))
        by (rewrite <- Z.pow_add_r by lia; f_equal; lia).
      assert (HK : 0 < 2 ^ (53 - d)) by (apply Z.pow_pos_nonneg; lia).
      rewrite E1, E2. split.
      - apply Z.mul_le_mono_nonneg_r; lia.
      - apply Z.mul_lt_mono_pos_r; lia. }
    exists (Pos.iter xO p k), (d + 0 - 53). split.
    + apply round_exact; [exact Hdm|lia].
    + split; [exact Hdm|]. split; [lia|].
      rewrite Hm. f_equal. f_equal. lia.
Qed.

(** **** The error of a rounding *)

Local Open Scope Q_scope.

Lemma pow2_pos (e : Z) : 0 < 2 ^ e.
Proof. apply Qpower_0_lt. reflexivity. Qed.

Lemma num_value_scaled m e e0 :
  (e0 <= e)%Z ->
  num_value (S754_finite false m e) ==
  inject_Z (Z.pos m * 2 ^ (e - e0)) * 2 ^ e0.
Proof.
  intros He. unfold num_value.
  rewrite inject_Z_mult, Zpower_Qpower by lia.
  change (inject_Z 2) with 2.
  rewrite <- Qmult_assoc, <- Qpower_plus by discriminate.
  replace (e - e0 + e0)%Z with e by lia. reflexivity.
Qed.

(** From one unit of the last place to a relative error: a mantissa [R]
    within [K] of the quotient [M / D], which is at least [2 ^ 52 * K]. *)
Lemma bracket_relative (R K M D : Z) :
  (0 < D)%Z -> ((R - K) * D <= M)%Z -> (M <= (R + K) * D)%Z ->
  (2 ^ 52 * K * D <= M)%Z ->
  (1 - rounding_unit) * (inject_Z M / inject_Z D) <= inject_Z R /\
  inject_Z R <= (1 + rounding_unit) * (inject_Z M / inject_Z D).
Proof.
  intros HD H1 H2 H3.
  assert (Hd : 0 < inject_Z D)
    by (change 0 with (inject_Z 0); rewrite <- Zlt_Qlt; exact HD).
  set (rho := inject_Z M / inject_Z D).
  assert (Q1 : inject_Z R - inject_Z K <= rho).
  { apply Qle_shift_div_l; [exact Hd|].
    unfold Qminus. rewrite <- inject_Z_opp, <- inject_Z_plus, <- inject_Z_mult.
    rewrite <- Zle_Qle. exact H1. }
  assert (Q2 : rho <= inject_Z R + inject_Z K).
  { apply Qle_shift_div_r; [exact Hd|].
    rewrite <- inject_Z_plus, <- inject_Z_mult.
    rewrite <- Zle_Qle. exact H2. }
  assert (Q3 : (4503599627370496 # 1) * inject_Z K <= rho).
  { apply Qle_shift_div_l; [exact Hd|].
    change (4503599627370496 # 1) with (inject_Z (2 ^ 52)).
    rewrite <- !inject_Z_mult. rewrite <- Zle_Qle. exact H3. }
  unfold rounding_unit. split; lra.
Qed.

(** The quotient of two normal numbers of moderate exponent is normal and
    within the rounding unit of the exact quotient. *)
Lemma num_div_bound m1 e1 m2 e2 :
  Z.pos (digits2_pos m1) = 53%Z -> Z.pos (digits2_pos m2) = 53%Z ->
  (-52 <= e1 <= 0)%Z -> (-52 <= e2 <= 0)%Z ->
  exists m e,
    num_div (S754_finite false m1 e1) (S754_finite false m2 e2) =
    S754_finite false m e /\
    Z.pos (digits2_pos m) = 53%Z /\ (-105 <= e <= 1)%Z /\
    (1 - rounding_unit)
    * (num_value (S754_finite false m1 e1) / num_value (S754_finite false m2 e2))
    <= num_value (S754_finite false m e) /\
    num_value (S754_finite false m e) <=
    (1 + rounding_unit)
    * (num_value (S754_finite false m1 e1) / num_value (S754_finite false m2 e2)).
Proof.
  intros Hd1 Hd2 He1 He2.
  pose proof (digits2_pos_bounds m1) as [Hm1lo Hm1hi].
  pose proof (digits2_pos_bounds m2) as [Hm2lo Hm2hi].
  rewrite Hd1 in Hm1lo, Hm1hi. rewrite Hd2 in Hm2lo, Hm2hi.
  change (53 - 1)%Z with 52%Z in *.
  set (e0 := (e1 - e2 - 53)%Z).
  set (M := (Z.pos m1 * 2 ^ 53)%Z).
  assert (HM : (2 ^ 105 <= M < 2 ^ 106)%Z).
  { unfold M. change (2 ^ 105)%Z with (2 ^ 52 * 2 ^ 53)%Z.
    change (2 ^ 106)%Z with (2 ^ 53 * 2 ^ 53)%Z. lia. }
  set (q := (M / Z.pos m2)%Z).
  assert (Hq1 : (Z.pos m2 * q <= M)%Z) by (apply Z.mul_div_le; lia).
  assert (Hq2 : (M < Z.pos m2 * q + Z.pos m2)%Z).
  { pose proof (Z.mul_succ_div_gt M (Z.pos m2)) as H. fold q in H. lia. }
  assert (Hqlo : (2 ^ 52 <= q)%Z).
  { apply Z.div_le_lower_bound; [lia|].
    change (2 ^ 105)%Z with (2 ^ 53 * 2 ^ 52)%Z in HM.
    assert (Z.pos m2 * 2 ^ 52 <= 2 ^ 53 * 2 ^ 52)%Z
      by (apply Z.mul_le_mono_nonneg_r; lia). lia. }
  assert (Hqhi : (q < 2 ^ 54)%Z).
  { apply Z.div_lt_upper_bound; [lia|].
    change (2 ^ 106)%Z with (2 ^ 52 * 2 ^ 54)%Z in HM.
    assert (2 ^ 52 * 2 ^ 54 <= Z.pos m2 * 2 ^ 54)%Z
      by (apply Z.mul_le_mono_nonneg_r; lia). lia. }
  assert (Hcore : SFdiv_core_binary prec emax (Z.pos m1) e1 (Z.pos m2) e2 =
                  (q, e0, snd (SFdiv_core_binary prec emax
                                 (Z.pos m1) e1 (Z.pos m2) e2))).
  { unfold SFdiv_core_binary. cbn [Zdigits2]. rewrite Hd1, Hd2.
    assert (He' : Z.min (fexp prec emax (53 + e1 - (53 + e2))) (e1 - e2) = e0).
    { unfold fexp, emin, prec, emax. rewrite Z.max_l by lia.
      rewrite Z.min_l by lia. unfold e0. lia. }
    rewrite He'. replace (e1 - e2 - e0)%Z with 53%Z by (unfold e0; lia).
    cbv iota. rewrite Z.shiftl_mul_pow2 by lia. fold M.
    assert (Hfst : fst (Z.div_eucl M (Z.pos m2)) = q) by reflexivity.
    destruct (Z.div_eucl M (Z.pos m2)) as [q' r]. simpl in Hfst. subst q'.
    reflexivity. }
  unfold num_div, SFdiv. rewrite Hcore. cbn [xorb].
  set (l := snd (SFdiv_core_binary prec emax (Z.pos m1) e1 (Z.pos m2) e2)).
  destruct q as [|pq|pq] eqn:Eq; try lia.
  set (d := Z.pos (digits2_pos pq)).
  pose proof (digits2_pos_bounds pq) as [Hdlo Hdhi]. fold d in Hdlo, Hdhi.
  assert (Hd : (53 <= d <= 54)%Z).
  { split.
    - destruct (Z_le_gt_dec 53 d) as [H|H]; [exact H|].
      assert (2 ^ d <= 2 ^ 52)%Z by (apply Z.pow_le_mono_r; lia). lia.
    - destruct (Z_le_gt_dec d 54) as [H|H]; [exact H|].
      assert (2 ^ 54 <= 2 ^ (d - 1))%Z by (apply Z.pow_le_mono_r; lia). lia. }
  destruct (round_bracket pq e0 l) as (m & e & Hround & Hdm & He & Hb1 & Hb2);
    [fold d; lia|fold d; unfold e0; lia|].
  fold d in He, Hb1, Hb2.
  exists m, e. split; [exact Hround|]. split; [exact Hdm|].
  split; [unfold e0 in He; lia|].
  set (K := (2 ^ (d - 53))%Z) in *.
  assert (HK : (0 < K)%Z) by (apply Z.pow_pos_nonneg; lia).
  assert (HdK : (2 ^ (d - 1) = 2 ^ 52 * K)%Z).
  { unfold K. rewrite <- Z.pow_add_r by lia. f_equal. lia. }
  set (R := (Z.pos m * 2 ^ (e - e0))%Z) in *.
  rewrite HdK in Hdlo.
  assert (Hlo' : ((R - K) * Z.pos m2 <= M)%Z).
  { apply Z.le_trans with (Z.pos pq * Z.pos m2)%Z; [|lia].
    apply Z.mul_le_mono_nonneg_r; lia. }
  assert (Hhi' : (M <= (R + K) * Z.pos m2)%Z).
  { apply Z.le_trans with ((Z.pos pq + 1) * Z.pos m2)%Z; [lia|].
    apply Z.mul_le_mono_nonneg_r; lia. }
  assert (Hnorm : (2 ^ 52 * K * Z.pos m2 <= M)%Z).
  { apply Z.le_trans with (Z.pos pq * Z.pos m2)%Z; [|lia].
    apply Z.mul_le_mono_nonneg_r; lia. }
  destruct (bracket_relative R K M (Z.pos m2)) as [Hlow Hhigh]; try assumption;
    [lia|].
  assert (Hvalue : num_value (S754_finite false m e) == inject_Z R * 2 ^ e0)
    by (apply num_value_scaled; lia).
  assert (Hratio : num_value (S754_finite false m1 e1)
                   / num_value (S754_finite false m2 e2)
                   == inject_Z M / inject_Z (Z.pos m2) * 2 ^ e0).
  { unfold num_value, M. rewrite inject_Z_mult.
    rewrite (Zpower_Qpower 2 53) by lia. change (inject_Z 2) with 2.
    replace e1 with (53 + e0 + e2)%Z at 1 by (unfold e0; lia).
    rewrite !Qpower_plus by discriminate.
    field. split.
    - change 0 with (inject_Z 0). rewrite inject_Z_injective. lia.
    - pose proof (pow2_pos e2). lra. }
  rewrite Hvalue, Hratio. pose proof (pow2_pos e0) as Hpow.
  split.
  - rewrite Qmult_assoc. apply Qmult_le_compat_r; [exact Hlow|lra].
  - rewrite Qmult_assoc. apply Qmult_le_compat_r; [exact Hhigh|lra].
Qed.

(** The same for a product. *)
Lemma num_mul_bound m1 e1 m2 e2 :
  Z.pos (digits2_pos m1) = 53%Z -> Z.pos (digits2_pos m2) = 53%Z ->
  (-1126 <= e1 + e2 <= 917)%Z ->
  exists m e,
    num_mul (S754_finite false m1 e1) (S754_finite false m2 e2) =
    S754_finite false m e /\
    Z.pos (digits2_pos m) = 53%Z /\
    (1 - rounding_unit)
    * (num_value (S754_finite false m1 e1) * num_value (S754_finite false m2 e2))
    <= num_value (S754_finite false m e) /\
    num_value (S754_finite false m e) <=
    (1 + rounding_unit)
    * (num_value (S754_finite false m1 e1) * num_value (S754_finite false m2 e2)).
Proof.
  intros Hd1 Hd2 He.
  pose proof (digits2_pos_bounds m1) as [Hm1lo Hm1hi].
  pose proof (digits2_pos_bounds m2) as [Hm2lo Hm2hi].
  rewrite Hd1 in Hm1lo, Hm1hi. rewrite Hd2 in Hm2lo, Hm2hi.
  change (53 - 1)%Z with 52%Z in *.
  set (e0 := (e1 + e2)%Z) in *.
  set (p := (m1 * m2)%positive).
  assert (Hp : Z.pos p = (Z.pos m1 * Z.pos m2)%Z) by reflexivity.
  assert (Hplo : (2 ^ 104 <= Z.pos p)%Z).
  { rewrite Hp. change (2 ^ 104)%Z with (2 ^ 52 * 2 ^ 52)%Z.
    apply Z.mul_le_mono_nonneg; lia. }
  assert (Hphi : (Z.pos p < 2 ^ 106)%Z).
  { rewrite Hp. change (2 ^ 106)%Z with (2 ^ 53 * 2 ^ 53)%Z.
    apply Z.mul_lt_mono_nonneg; lia. }
  set (d := Z.pos (digits2_pos p)).
  pose proof (digits2_pos_bounds p) as [Hdlo Hdhi]. fold d in Hdlo, Hdhi.
  assert (Hd : (105 <= d <= 106)%Z).
  { split.
    - destruct (Z_le_gt_dec 105 d) as [H|H]; [exact H|].
      assert (2 ^ d <= 2 ^ 104)%Z by (apply Z.pow_le_mono_r; lia). lia.
    - destruct (Z_le_gt_dec d 106) as [H|H]; [exact H|].
      assert (2 ^ 106 <= 2 ^ (d - 1))%Z by (apply Z.pow_le_mono_r; lia). lia. }
  destruct (round_bracket p e0 loc_Exact)
    as (m & e & Hround & Hdm & Hee & Hb1 & Hb2);
    [fold d; lia|fold d; lia|].
  fold d in Hee, Hb1, Hb2.
  exists m, e. split; [exact Hround|]. split; [exact Hdm|].
  set (K := (2 ^ (d - 53))%Z) in *.
  assert (HK : (0 < K)%Z) by (apply Z.pow_pos_nonneg; lia).
  assert (HdK : (2 ^ (d - 1) = 2 ^ 52 * K)%Z).
  { unfold K. rewrite <- Z.pow_add_r by lia. f_equal. lia. }
  set (R := (Z.pos m * 2 ^ (e - e0))%Z) in *.
  rewrite HdK in Hdlo.
  destruct (bracket_relative R K (Z.pos p) 1) as [Hlow Hhigh]; try lia.
  assert (Hvalue : num_value (S754_finite false m e) == inject_Z R * 2 ^ e0)
    by (apply num_value_scaled; lia).
  assert (Hprod : num_value (S754_finite false m1 e1)
                  * num_value (S754_finite false m2 e2)
                  == inject_Z (Z.pos p) / inject_Z 1 * 2 ^ e0).
  { unfold num_value, e0. rewrite Hp, inject_Z_mult.
    rewrite Qpower_plus by discriminate.
    change (inject_Z 1) with 1. field. }
  rewrite Hvalue, Hprod. pose proof (pow2_pos e0) as Hpow.
  split.
  - rewrite Qmult_assoc. apply Qmult_le_compat_r; [exact Hlow|lra].
  - rewrite Qmult_assoc. apply Qmult_le_compat_r; [exact Hhigh|lra].
Qed.

Lemma num_value_of_Z (p : positive) m e :
  (-52 <= e <= 0)%Z -> Z.pos m = (Z.pos p * 2 ^ (- e))%Z ->
  num_value (S754_finite false m e) == inject_Z (Z.pos p).
Proof.
  intros He Hm. unfold num_value. rewrite Hm, inject_Z_mult.
  rewrite Zpower_Qpower by lia. change (inject_Z 2) with 2.
  rewrite <- Qmult_assoc, <- Qpower_plus by discriminate.
  replace (- e + e)%Z with 0%Z by lia. change (2 ^ 0) with 1. ring.
Qed.

Lemma num_hundred_normal :
  num_hundred = S754_finite false 7036874417766400 (-46).
Proof. reflexivity. Qed.

(** A percentage is its exact quotient up to two roundings. *)
Lemma percentage_of_bound (count total : nat) :
  (0 < total)%nat -> (Z.of_nat total < 2 ^ 53)%Z -> (count <= total)%nat ->
  (1 - rounding_unit) * (1 - rounding_unit) * exact_percentage count total
  <= num_value (percentage_of count total) /\
  num_value (percentage_of count total) <=
  (1 + rounding_unit) * (1 + rounding_unit) * exact_percentage count total.
Proof.
  intros Hpos Hlt Hle. unfold percentage_of, num_of_nat, exact_percentage.
  destruct (Z.of_nat total) as [|n|n] eqn:En; try lia.
  destruct (num_of_Z_normal n Hlt) as (m2 & e2 & -> & Hd2 & He2 & Hm2).
  destruct (Z.of_nat count) as [|c|c] eqn:Ec; try lia.
  - change (num_of_Z 0) with (S754_zero false).
    change (num_value _) with 0. unfold Qdiv. split; ring_simplify; lra.
  - assert (Hc : (Z.pos c < 2 ^ 53)%Z) by lia.
    destruct (num_of_Z_normal c Hc) as (m1 & e1 & -> & Hd1 & He1 & Hm1).
    destruct (num_div_bound m1 e1 m2 e2 Hd1 Hd2 He1 He2)
      as (m & e & -> & Hd & He & Hlow & Hhigh).
    rewrite num_hundred_normal.
    destruct (num_mul_bound m e 7036874417766400 (-46) Hd eq_refl)
      as (m' & e' & -> & _ & Hlow' & Hhigh'); [lia|].
    rewrite (num_value_of_Z c m1 e1 He1 Hm1) in Hlow, Hhigh.
    rewrite (num_value_of_Z n m2 e2 He2 Hm2) in Hlow, Hhigh.
    assert (Hh : num_value (S754_finite false 7036874417766400 (-46)) == 100)
      by reflexivity.
    rewrite Hh in Hlow', Hhigh'.
    set (A := inject_Z (Z.pos c) / inject_Z (Z.pos n)) in *.
    set (V := num_value (S754_finite false m e)) in *.
    set (W := num_value (S754_finite false m' e')) in *.
    unfold rounding_unit in *. split; lra.
Qed.

Lemma Qsum_scaled_bounds {A : Type} (f g : A -> Q) (lo hi : Q) (l : list A) :
  (forall e, In e l -> lo * g e <= f e /\ f e <= hi * g e) ->
  lo * Qsum (map g l) <= Qsum (map f l) /\
  Qsum (map f l) <= hi * Qsum (map g l).
Proof.
  induction l as [|a l IH]; intros H; simpl.
  - split; ring_simplify; apply Qle_refl.
  - destruct IH as [IH1 IH2]; [intros e He; apply H; now right|].
    destruct (H a (or_introl eq_refl)) as [H1 H2].
    rewrite !Qmult_plus_distr_r. split; apply Qplus_le_compat; assumption.
Qed.

(** Percentages whose exact quotients sum to 100 sum to 100 within the
    tolerance. *)
Lemma percentages_within_tolerance {A : Type} (count : A -> nat)
    (percentage : A -> number) (total : nat) (l : list A) :
  (0 < total)%nat -> (Z.of_nat total < 2 ^ 53)%Z ->
  (forall e, In e l -> (count e <= total)%nat /\
                       percentage e = percentage_of (count e) total) ->
  Qsum (map (fun e => exact_percentage (count e) total) l) == 100 ->
  Qabs (Qsum (map (fun e => num_value (percentage e)) l) - 100)
  <= percentage_tolerance.
Proof.
  intros Hpos Hlt Hl Hsum.
  destruct (Qsum_scaled_bounds
              (fun e => num_value (percentage e))
              (fun e => exact_percentage (count e) total)
              ((1 - rounding_unit) * (1 - rounding_unit))
              ((1 + rounding_unit) * (1 + rounding_unit)) l) as [Hlow Hhigh].
  { intros e He. destruct (Hl e He) as [Hle ->].
    now apply percentage_of_bound. }
  rewrite Hsum in Hlow, Hhigh.
  apply Qabs_Qle_condition. unfold percentage_tolerance, rounding_unit in *.
  split; lra.
Qed.

End Rounding.

(** *** Frequencies *)

Lemma first_seen_some v (l : list value) i :
  first_seen v l = Some i ->
  exists x, In x l /\ same_value_zero x v = true.
Proof.
  revert i. induction l as [|x l IH]; simpl; intros i; [discriminate|].
  destruct (same_value_zero x v) eqn:E.
  - intros _. exists x. auto.
  - destruct (first_seen v l) as [j|]; [|discriminate]. intros _.
    destruct (IH j eq_refl) as (y & Hy & Hsame). exists y. auto.
Qed.

Lemma same_value_zero_sym a b : same_value_zero a b = same_value_zero b a.
Proof.
  destruct (same_value_zero a b) eqn:E1, (same_value_zero b a) eqn:E2;
    try reflexivity.
  - apply same_value_zero_spec in E1. symmetry in E1.
    apply same_value_zero_spec in E1. congruence.
  - apply same_value_zero_spec in E2. symmetry in E2.
    apply same_value_zero_spec in E2. congruence.
Qed.

Lemma filter_nonempty {A : Type} (f : A -> bool) (l : list A) x :
  In x l -> f x = true -> 0 < length (List.filter f l).
Proof.
  induction l as [|y l IH]; simpl; [contradiction|].
  intros [->|Hin] Hx.
  - rewrite Hx. simpl. lia.
  - destruct (f y); simpl; [lia|now apply IH].
Qed.

Lemma list_sum_perm (l l' : list nat) :
  Permutation l l' -> list_sum l = list_sum l'.
Proof. induction 1; simpl; lia. Qed.

Lemma Qsum_exact_percentage {A : Type} (count : A -> nat) (total : nat)
    (l : list A) :
  (Qsum (map (fun e => exact_percentage (count e) total) l) ==
   inject_Z (Z.of_nat (list_sum (map count l)))
   / inject_Z (Z.of_nat total) * 100)%Q.
Proof.
  induction l as [|e l IH]; simpl.
  - unfold Qdiv. ring.
  - rewrite IH. unfold exact_percentage.
    rewrite Nat2Z.inj_add, inject_Z_plus. unfold Qdiv. ring.
Qed.

Lemma calculateFrequencies_unfold data variable :
  calculateFrequencies data variable =
  js_sort (by_count_desc freq_count)
    (map (frequency_of_group (length data))
       (d3_group data (fun d => obj_get d variable))).
Proof.
  unfold calculateFrequencies, d3_rollup. rewrite map_map.
  f_equal. apply map_ext. now intros [k xs].
Qed.

(** C7, as the code has it.  [calculateFrequencies] returns one entry
    for each distinct value of the field (distinct as the keys of a
    [Map] are), with the number of records that hold it; the counts sum
    to the length of the dataset; each percentage is
    [count / total * 100] computed in binary64; when the dataset is not
    empty (the empty dataset has no entry) the exact quotients sum to
    100, and the percentages that the code computes, taken as the
    rational numbers they are, sum to 100 within [percentage_tolerance],
    for every dataset of fewer than 2^53 records; the entries are sorted
    by count, descending, and entries of equal count are in the order in
    which their values are first met in the dataset. *)
Theorem calculateFrequencies_table data variable :
  let entries := calculateFrequencies data variable in
  let col := column data variable in
  (forall d, In d data ->
     exists e, In e entries /\
               same_value_zero (freq_value e) (obj_get d variable) = true) /\
  (forall p q e1 e2,
     entries !! p = Some e1 -> entries !! q = Some e2 -> p <> q ->
     same_value_zero (freq_value e1) (freq_value e2) = false) /\
  (forall e, In e entries ->
     0 < freq_count e /\
     freq_count e =
     length (List.filter
               (fun d => same_value_zero (freq_value e) (obj_get d variable))
               data) /\
     freq_percentage e = percentage_of (freq_count e) (length data)) /\
  list_sum (map freq_count entries) = length data /\
  (data <> [] ->
   (Qsum (map (fun e => exact_percentage (freq_count e) (length data)) entries)
    == 100)%Q) /\
  (data <> [] -> (Z.of_nat (length data) < 2 ^ 53)%Z ->
   (Qabs (Qsum (map (fun e => num_value (freq_percentage e)) entries) - 100)
    <= percentage_tolerance)%Q) /\
  (forall p q e1 e2,
     entries !! p = Some e1 -> entries !! q = Some e2 -> p < q ->
     freq_count e2 <= freq_count e1 /\
     (freq_count e1 = freq_count e2 ->
      exists i1 i2,
        first_seen (freq_value e1) col = Some i1 /\
        first_seen (freq_value e2) col = Some i2 /\ i1 < i2)).
Proof.
  intros entries col.
  set (keyof := fun d : record => obj_get d variable).
  set (groups := d3_group data keyof).
  set (unsorted := map (frequency_of_group (length data)) groups).
  assert (Hentries : entries = js_sort (by_count_desc freq_count) unsorted)
    by apply calculateFrequencies_unfold.
  assert (Hperm : Permutation entries unsorted)
    by (rewrite Hentries; apply js_sort_perm).
  destruct (d3_group_ok keyof data) as [Hnorm Hnd]. fold groups in Hnorm, Hnd.
  destruct (d3_group_spec keyof data) as (Hcover & Hitems & Hseen & Horder).
  fold groups in Hcover, Hitems, Hseen, Horder.
  change (map keyof data) with col in Hseen, Horder.
  assert (Hvalues : map freq_value unsorted = map fst groups).
  { unfold unsorted. rewrite map_map. reflexivity. }
  assert (Hin : forall e, In e entries ->
                          exists g, In g groups /\
                                    e = frequency_of_group (length data) g).
  { intros e He. apply (Permutation_in _ Hperm) in He.
    apply in_map_iff in He as (g & <- & Hg). eauto. }
  assert (Hkey : forall e, In e entries -> map_key (freq_value e) = freq_value e).
  { intros e He. destruct (Hin e He) as (g & Hg & ->). simpl.
    rewrite Forall_forall in Hnorm. now apply Hnorm, list_elem_of_In. }
  assert (Hsum : list_sum (map freq_count entries) = length data).
  { rewrite (list_sum_perm _ _ (Permutation_map freq_count Hperm)).
    unfold unsorted. rewrite map_map. simpl. apply d3_group_total. }
  assert (Hexact : data <> [] ->
                   (Qsum (map (fun e => exact_percentage (freq_count e)
                                          (length data)) entries) == 100)%Q).
  { intros Hne. rewrite Qsum_exact_percentage, Hsum.
    assert (Hpos : ~ (inject_Z (Z.of_nat (length data)) == 0)%Q).
    { destruct data; [contradiction|]. simpl length.
      unfold Qeq, inject_Z. simpl. lia. }
    field. exact Hpos. }
  split; [|split; [|split; [|split; [|split; [|split]]]]].
  - intros d Hd. apply Hcover in Hd.
    apply in_map_iff in Hd as (g & Hg1 & Hg).
    exists (frequency_of_group (length data) g). split.
    + apply (Permutation_in _ (Permutation_sym Hperm)). now apply in_map.
    + simpl. apply same_value_zero_map_key; [|exact Hg1].
      rewrite Forall_forall in Hnorm. now apply Hnorm, list_elem_of_In.
  - intros p q e1 e2 Hp Hq Hne.
    assert (Hnd' : NoDup (map freq_value entries)).
    { rewrite (Permutation_map freq_value Hperm), Hvalues. exact Hnd. }
    apply same_value_zero_false.
    + apply Hkey, list_elem_of_In, list_elem_of_lookup. eauto.
    + rewrite (Hkey e2) by (apply list_elem_of_In, list_elem_of_lookup; eauto).
      intros E. apply Hne.
      apply (NoDup_lookup _ p q (freq_value e1) Hnd').
      * now rewrite lookup_map, Hp.
      * now rewrite lookup_map, Hq, E.
  - intros e He. destruct (Hin e He) as (g & Hg & ->). simpl.
    rewrite (Hitems g Hg). repeat split.
    destruct (Hseen (fst g)) as [i Hi]; [now apply in_map|].
    apply first_seen_some in Hi as (v & Hv & Hsame).
    apply in_map_iff in Hv as (d & <- & Hd).
    rewrite same_value_zero_sym in Hsame.
    apply (filter_nonempty (fun x => same_value_zero (fst g) (keyof x)) data d);
      assumption.
  - exact Hsum.
  - exact Hexact.
  - intros Hne Hlt.
    apply (percentages_within_tolerance freq_count freq_percentage
             (length data)).
    + destruct data; [contradiction|]. simpl. lia.
    + exact Hlt.
    + intros e He. destruct (Hin e He) as (g & Hg & ->). simpl.
      rewrite (Hitems g Hg). split; [apply List.filter_length_le|reflexivity].
    + now apply Hexact.
  - intros p q e1 e2 Hp Hq Hlt.
    pose proof (lookup_before entries p q e1 e2 Hp Hq Hlt) as Hb.
    rewrite Hentries in Hb.
    apply js_sort_before in Hb as [Hb|[Heq Hb]]; (split; [lia|]).
    + lia.
    + intros _. apply before_lookup in Hb as (p' & q' & Hlt' & Hp' & Hq').
      apply (Horder p' q').
      * now rewrite <- Hvalues, lookup_map, Hp'.
      * now rewrite <- Hvalues, lookup_map, Hq'.
      * exact Hlt'.
Qed.

(** *** The order of the numbers *)

Lemma num_leb_rank x y :
  num_is_nan x = false -> num_is_nan y = false ->
  num_leb x y = true <-> rank_le (num_rank x) (num_rank y).
Proof.
  unfold num_leb, SFleb.
  destruct x as [sx|sx| |sx mx ex], y as [sy|sy| |sy my ey];
    try discriminate; intros _ _;
    try destruct sx; try destruct sy; cbn;
    try (split; [intros _; lia|reflexivity]);
    try (split; [discriminate|lia]).
  all: change (Pos.compare_cont Eq mx my) with (Pos.compare mx my);
    destruct (Z.compare_spec ex ey); try destruct (Pos.compare_spec mx my);
    cbn; split; intros; try discriminate; try reflexivity; lia.
Qed.

Lemma num_ltb_rank x y :
  num_is_nan x = false -> num_is_nan y = false ->
  num_ltb x y = true <-> rank_lt (num_rank x) (num_rank y).
Proof.
  unfold num_ltb, SFltb.
  destruct x as [sx|sx| |sx mx ex], y as [sy|sy| |sy my ey];
    try discriminate; intros _ _;
    try destruct sx; try destruct sy; cbn;
    try (split; [intros _; lia|reflexivity]);
    try (split; [discriminate|lia]).
  all: change (Pos.compare_cont Eq mx my) with (Pos.compare mx my);
    destruct (Z.compare_spec ex ey); try destruct (Pos.compare_spec mx my);
    cbn; split; intros; try discriminate; try reflexivity; lia.
Qed.

Lemma num_leb_refl x : num_is_nan x = false -> num_leb x x = true.
Proof.
  intros H. apply num_leb_rank; auto.
  destruct (num_rank x) as [[a b] c]. simpl. lia.
Qed.

Lemma num_leb_trans x y z :
  num_is_nan x = false -> num_is_nan y = false -> num_is_nan z = false ->
  num_leb x y = true -> num_leb y z = true -> num_leb x z = true.
Proof.
  intros Hx Hy Hz. rewrite !num_leb_rank by assumption.
  destruct (num_rank x) as [[a b] c], (num_rank y) as [[a' b'] c'],
    (num_rank z) as [[a'' b''] c'']. simpl. lia.
Qed.

Lemma num_ltb_leb x y :
  num_is_nan x = false -> num_is_nan y = false ->
  num_ltb x y = true -> num_leb x y = true.
Proof.
  intros Hx Hy. rewrite num_ltb_rank, num_leb_rank by assumption.
  destruct (num_rank x) as [[a b] c], (num_rank y) as [[a' b'] c']. simpl. lia.
Qed.

Lemma num_ltb_false x y :
  num_is_nan x = false -> num_is_nan y = false ->
  num_ltb x y = false -> num_leb y x = true.
Proof.
  intros Hx Hy H. apply num_leb_rank; auto.
  assert (Hn : ~ rank_lt (num_rank x) (num_rank y)).
  { intros Hlt. apply num_ltb_rank in Hlt; auto. congruence. }
  destruct (num_rank x) as [[a b] c], (num_rank y) as [[a' b'] c'].
  simpl in *. lia.
Qed.

(** *** Binning *)

Lemma is_numeric_number v :
  is_numeric v = true -> exists x, v = VNumber x /\ num_is_nan x = false.
Proof.
  destruct v as [| |b|x|s]; simpl; try discriminate.
  intros H. exists x. split; [reflexivity|]. now apply negb_true_iff.
Qed.

(** On numbers the extent is the least and the greatest of them. *)
Lemma d3_extent_numeric (values : list value) :
  values <> [] ->
  Forall (fun v => is_numeric v = true) values ->
  exists lo hi,
    d3_extent values = (VNumber lo, VNumber hi) /\
    num_is_nan lo = false /\ num_is_nan hi = false /\
    In (VNumber lo) values /\ In (VNumber hi) values /\
    forall v, In v values ->
      js_le (VNumber lo) v = true /\ js_le v (VNumber hi) = true.
Proof.
  intros Hne Hnum. unfold d3_extent.
  set (step := fun (state : option (value * value)) value =>
                 if not_nullish value then
                   match state with
                   | None => if js_le value value then Some (value, value) else None
                   | Some (min, max) =>
                       let min := if js_lt value min then value else min in
                       let max := if js_lt max value then value else max in
                       Some (min, max)
                   end
                 else state).
  assert (Hinv : forall rest seen lo hi,
             Forall (fun v => is_numeric v = true) rest ->
             Forall (fun v => is_numeric v = true) seen ->
             num_is_nan lo = false -> num_is_nan hi = false ->
             In (VNumber lo) seen -> In (VNumber hi) seen ->
             (forall v, In v seen ->
                js_le (VNumber lo) v = true /\ js_le v (VNumber hi) = true) ->
             exists lo' hi',
               fold_left step rest (Some (VNumber lo, VNumber hi))
               = Some (VNumber lo', VNumber hi') /\
               num_is_nan lo' = false /\ num_is_nan hi' = false /\
               In (VNumber lo') (seen ++ rest) /\
               In (VNumber hi') (seen ++ rest) /\
               forall v, In v (seen ++ rest) ->
                 js_le (VNumber lo') v = true /\ js_le v (VNumber hi') = true).
  { induction rest as [|v rest IH]; intros seen lo hi Hrest Hseen Hlo Hhi Hinlo Hinhi Hall.
    - exists lo, hi. rewrite app_nil_r. simpl. auto 10.
    - inversion Hrest as [|? ? Hv Hrest']; subst.
      destruct (is_numeric_number v Hv) as (x & -> & Hx).
      simpl fold_left. unfold step at 2. simpl not_nullish. cbv iota.
      simpl js_lt.
      set (lo1 := if num_ltb x lo then x else lo).
      set (hi1 := if num_ltb hi x then x else hi).
      replace (if num_ltb x lo then VNumber x else VNumber lo)
        with (VNumber lo1) by (unfold lo1; now destruct (num_ltb x lo)).
      replace (if num_ltb hi x then VNumber x else VNumber hi)
        with (VNumber hi1) by (unfold hi1; now destruct (num_ltb hi x)).
      assert (Hlo1 : num_is_nan lo1 = false)
        by (unfold lo1; now destruct (num_ltb x lo)).
      assert (Hhi1 : num_is_nan hi1 = false)
        by (unfold hi1; now destruct (num_ltb hi x)).
      assert (Hlo_le : num_leb lo1 lo = true /\ num_leb lo1 x = true).
      { unfold lo1. destruct (num_ltb x lo) eqn:E.
        - split; [now apply num_ltb_leb|now apply num_leb_refl].
        - split; [now apply num_leb_refl|now apply num_ltb_false]. }
      assert (Hhi_le : num_leb hi hi1 = true /\ num_leb x hi1 = true).
      { unfold hi1. destruct (num_ltb hi x) eqn:E.
        - split; [now apply num_ltb_leb|now apply num_leb_refl].
        - split; [now apply num_leb_refl|now apply num_ltb_false]. }
      destruct (IH (seen ++ [VNumber x]) lo1 hi1 Hrest')
        as (lo' & hi' & Hfold & Hlo' & Hhi' & Hinlo' & Hinhi' & Hall');
        [|exact Hlo1|exact Hhi1| | | |].
      + apply Forall_app. split; [exact Hseen|]. now repeat constructor.
      + apply in_or_app. unfold lo1. destruct (num_ltb x lo);
          [right; now left|now left].
      + apply in_or_app. unfold hi1. destruct (num_ltb hi x);
          [right; now left|now left].
      + intros v Hv'. apply in_app_or in Hv' as [Hv'|[<-|[]]].
        * destruct (Hall v Hv') as [H1 H2].
          rewrite Forall_forall in Hseen.
          destruct (is_numeric_number v) as (y & -> & Hy);
            [now apply Hseen, list_elem_of_In|].
          simpl in *. split.
          -- eapply num_leb_trans; [| | |exact (proj1 Hlo_le)|exact H1]; assumption.
          -- eapply num_leb_trans; [| | |exact H2|exact (proj1 Hhi_le)]; assumption.
        * simpl. split; [exact (proj2 Hlo_le)|exact (proj2 Hhi_le)].
      + exists lo', hi'. rewrite <- app_assoc in *. simpl in *. auto 10. }
  destruct values as [|v values]; [contradiction|].
  inversion Hnum as [|? ? Hv Hrest]; subst.
  destruct (is_numeric_number v Hv) as (x & -> & Hx).
  simpl fold_left. unfold step at 2. simpl.
  change (num_leb x x) with (num_leb x x). rewrite (num_leb_refl x Hx).
  destruct (Hinv values [VNumber x] x x Hrest)
    as (lo & hi & Hfold & Hlo & Hhi & Hinlo & Hinhi & Hall);
    [|exact Hx|exact Hx| | | |].
  - now repeat constructor.
  - now left.
  - now left.
  - intros v [<-|[]]. simpl. rewrite (num_leb_refl x Hx). auto.
  - exists lo, hi. rewrite Hfold. auto 10.
Qed.

(** The binary search stays between its bounds. *)
Lemma bisect_right_bounds a x lo hi :
  lo <= hi -> lo <= bisect_right a x lo hi <= hi.
Proof.
  funelim (bisect_right a x lo hi); intros Hle.
  - lia.
  - pose proof (Nat.div_mod_eq (lo + hi) 2) as Hmid.
    pose proof (Nat.mod_upper_bound (lo + hi) 2) as Hrem.
    assert (lo <= (lo + hi) / 2 < hi) by lia.
    assert ((lo + hi) / 2 + 1 <= bisect_right a x ((lo + hi) / 2 + 1) hi <= hi)
      by (apply H; lia).
    lia.
  - pose proof (Nat.div_mod_eq (lo + hi) 2) as Hmid.
    pose proof (Nat.mod_upper_bound (lo + hi) 2) as Hrem.
    assert (lo <= (lo + hi) / 2 < hi) by lia.
    assert (lo <= bisect_right a x lo ((lo + hi) / 2) <= (lo + hi) / 2)
      by (apply H; lia).
    lia.
Qed.

Lemma map_insert_same {A B : Type} (f : A -> B) (l : list A) i b b' :
  l !! i = Some b -> f b' = f b -> map f (<[i := b']> l) = map f l.
Proof.
  revert i. induction l as [|y l IH]; intros [|i]; simpl; try discriminate.
  - intros [= ->] ->. reflexivity.
  - intros Hi Hf. f_equal. now apply IH.
Qed.

Lemma list_sum_insert {A : Type} (g : A -> nat) (l : list A) i b b' :
  l !! i = Some b ->
  list_sum (map g (<[i := b']> l)) + g b = list_sum (map g l) + g b'.
Proof.
  revert i. induction l as [|y l IH]; intros [|i]; simpl; try discriminate.
  - intros [= ->]. lia.
  - intros Hi. specialize (IH i Hi). lia.
Qed.

(** [bins[i].push(x)] adds one item and leaves the bounds alone. *)
Lemma bin_push_spec bins i x :
  i < length bins ->
  length (bin_push bins i x) = length bins /\
  map bin_x0 (bin_push bins i x) = map bin_x0 bins /\
  map bin_x1 (bin_push bins i x) = map bin_x1 bins /\
  list_sum (map (fun b => length (bin_items b)) (bin_push bins i x)) =
  S (list_sum (map (fun b => length (bin_items b)) bins)).
Proof.
  intros Hi. unfold bin_push.
  destruct (bins !! i) as [b|] eqn:Hb;
    [|apply lookup_ge_None in Hb; lia].
  split; [apply length_insert|].
  split; [now apply (map_insert_same bin_x0 bins i b)|].
  split; [now apply (map_insert_same bin_x1 bins i b)|].
  pose proof (list_sum_insert (fun b => length (bin_items b)) bins i b
                {| bin_x0 := bin_x0 b; bin_x1 := bin_x1 b;
                   bin_items := bin_items b ++ [x] |} Hb) as Hsum.
  simpl in Hsum. rewrite length_app in Hsum. simpl in Hsum. lia.
Qed.

(** The bins of [d3.bin] when every value is inside the domain: every
    value is in one bin, each bin ends where the next one starts, the
    first starts at the lower bound of the domain and the last ends at
    its upper bound. *)
Lemma d3_bin_spec values x0 x1 thresholds :
  Forall (fun x => not_nullish x && js_le x0 x && js_le x x1 = true) values ->
  let bins := d3_bin values (x0, x1) thresholds in
  list_sum (map (fun b => length (bin_items b)) bins) = length values /\
  (forall i b1 b2,
     bins !! i = Some b1 -> bins !! S i = Some b2 -> bin_x1 b1 = bin_x0 b2) /\
  exists first lst,
    head bins = Some first /\ last bins = Some lst /\
    bin_x0 first = x0 /\ bin_x1 lst = x1.
Proof.
  intros Hin. unfold d3_bin.
  set (tz := pop_while _ (shift_while _ (pop_if _ _))).
  set (m := length tz).
  set (lower := fun i => if 0 <? i then nth (i - 1) tz VUndefined else x0).
  set (upper := fun i => if i <? m then nth i tz VUndefined else x1).
  set (init := map (fun i => {| bin_x0 := lower i; bin_x1 := upper i;
                                bin_items := [] |}) (seq 0 (S m))).
  set (assign := fun bins x =>
                   if not_nullish x && js_le x0 x && js_le x x1
                   then bin_push bins (bisect_right tz x 0 m) x
                   else bins).
  cbv zeta.
  assert (Hfold : forall vals bins,
             Forall (fun x => not_nullish x && js_le x0 x && js_le x x1 = true) vals ->
             length bins = S m ->
             length (fold_left assign vals bins) = S m /\
             map bin_x0 (fold_left assign vals bins) = map bin_x0 bins /\
             map bin_x1 (fold_left assign vals bins) = map bin_x1 bins /\
             list_sum (map (fun b => length (bin_items b))
                         (fold_left assign vals bins)) =
             list_sum (map (fun b => length (bin_items b)) bins) + length vals).
  { induction vals as [|v vals IH]; intros bins Hvals Hlen; simpl.
    - repeat split; auto.
    - inversion Hvals as [|? ? Hv Hvals']; subst.
      unfold assign at 2 4 6 8. rewrite Hv.
      assert (Hidx : bisect_right tz v 0 m < length bins).
      { pose proof (bisect_right_bounds tz v 0 m). lia. }
      destruct (bin_push_spec bins _ v Hidx) as (Hl & H0 & H1 & Hs).
      destruct (IH (bin_push bins (bisect_right tz v 0 m) v) Hvals')
        as (Hl' & H0' & H1' & Hs'); [congruence|].
      rewrite Hl', H0', H1', Hs', H0, H1, Hs. repeat split. lia. }
  assert (Hinit_len : length init = S m)
    by (unfold init; now rewrite length_map, length_seq).
  destruct (Hfold values init Hin Hinit_len) as (Hlen & Hx0 & Hx1 & Hsum).
  set (bins := fold_left assign values init) in *.
  assert (Hlower : forall i b, bins !! i = Some b -> bin_x0 b = lower i).
  { intros i b Hb.
    assert (Hi : i < S m) by (rewrite <- Hlen; eapply lookup_lt_Some; eauto).
    assert (H : map bin_x0 bins !! i = Some (bin_x0 b))
      by now rewrite lookup_map, Hb.
    rewrite Hx0 in H. unfold init in H.
    rewrite map_map, lookup_map, lookup_seq_lt in H by exact Hi.
    simpl in H. congruence. }
  assert (Hupper : forall i b, bins !! i = Some b -> bin_x1 b = upper i).
  { intros i b Hb.
    assert (Hi : i < S m) by (rewrite <- Hlen; eapply lookup_lt_Some; eauto).
    assert (H : map bin_x1 bins !! i = Some (bin_x1 b))
      by now rewrite lookup_map, Hb.
    rewrite Hx1 in H. unfold init in H.
    rewrite map_map, lookup_map, lookup_seq_lt in H by exact Hi.
    simpl in H. congruence. }
  change (list_sum (map (fun b => length (bin_items b)) bins) = length values /\
          (forall i b1 b2,
             bins !! i = Some b1 -> bins !! S i = Some b2 ->
             bin_x1 b1 = bin_x0 b2) /\
          exists first lst,
            head bins = Some first /\ last bins = Some lst /\
            bin_x0 first = x0 /\ bin_x1 lst = x1).
  split; [|split].
  - rewrite Hsum. unfold init. rewrite map_map. simpl.
    assert (Hzero : forall l : list nat, list_sum (map (fun _ => 0) l) = 0)
      by (induction l; simpl; auto).
    now rewrite Hzero.
  - intros i b1 b2 Hb1 Hb2.
    rewrite (Hupper i b1 Hb1), (Hlower (S i) b2 Hb2).
    assert (Hi : S i < S m) by (rewrite <- Hlen; eapply lookup_lt_Some; eauto).
    unfold upper, lower.
    destruct (Nat.ltb_spec i m); [|lia]. simpl. now rewrite Nat.sub_0_r.
  - destruct (bins !! 0) as [first|] eqn:Hfirst;
      [|apply lookup_ge_None in Hfirst; lia].
    destruct (bins !! m) as [lst|] eqn:Hlast;
      [|apply lookup_ge_None in Hlast; lia].
    exists first, lst. split; [now rewrite head_lookup|].
    split; [rewrite last_lookup, Hlen; exact Hlast|].
    rewrite (Hlower 0 first Hfirst), (Hupper m lst Hlast).
    unfold lower, upper. simpl. now rewrite Nat.ltb_irrefl.
Qed.

Lemma value_or_zero_number x :
  num_is_nan x = false ->
  strict_equals (value_or_zero (VNumber x)) (VNumber x) = true.
Proof.
  intros Hx. unfold value_or_zero. simpl. rewrite Hx, orb_false_r.
  destruct x as [s|s| |s m e]; simpl; try discriminate; try reflexivity.
  - now destruct s.
  - apply (num_eqb_refl (S754_finite s m e)). reflexivity.
Qed.

(** C8.  For a non-empty dataset whose field values are all numbers,
    the counts of the bins of [createBins] sum to the length of the
    dataset, each bin ends where the next one starts, and the bins go
    from the least to the greatest value of the field. *)
Theorem createBins_partition data variable binCount :
  data <> [] ->
  Forall (fun d => is_numeric (obj_get d variable) = true) data ->
  let bins := createBins data variable binCount in
  list_sum (map bin_count bins) = length data /\
  (forall i b1 b2,
     bins !! i = Some b1 -> bins !! S i = Some b2 -> binEnd b1 = binStart b2) /\
  exists lo hi first lst,
    In (VNumber lo) (column data variable) /\
    In (VNumber hi) (column data variable) /\
    (forall v, In v (column data variable) ->
       js_le (VNumber lo) v = true /\ js_le v (VNumber hi) = true) /\
    head bins = Some first /\ last bins = Some lst /\
    strict_equals (binStart first) (VNumber lo) = true /\
    strict_equals (binEnd lst) (VNumber hi) = true.
Proof.
  intros Hne Hnum bins.
  set (values := column data variable).
  assert (Hvalues : Forall (fun v => is_numeric v = true) values).
  { apply Forall_forall. intros v Hv.
    apply list_elem_of_In, in_map_iff in Hv as (d & <- & Hd).
    rewrite Forall_forall in Hnum. now apply Hnum, list_elem_of_In. }
  assert (Hne' : values <> []) by (unfold values, column; now destruct data).
  destruct (d3_extent_numeric values Hne' Hvalues)
    as (lo & hi & Hext & Hlo & Hhi & Hinlo & Hinhi & Hall).
  assert (Hguard : Forall (fun x => not_nullish x && js_le (VNumber lo) x
                                    && js_le x (VNumber hi) = true) values).
  { apply Forall_forall. intros v Hv.
    rewrite Forall_forall in Hvalues.
    destruct (is_numeric_number v (Hvalues v Hv)) as (y & -> & _).
    apply list_elem_of_In in Hv. destruct (Hall _ Hv) as [H1 H2].
    now rewrite H1, H2. }
  destruct (d3_bin_spec values (VNumber lo) (VNumber hi) binCount Hguard)
    as (Hsum & Hcont & first & lst & Hfirst & Hlast & Hx0 & Hx1).
  set (d3bins := d3_bin values (VNumber lo, VNumber hi) binCount) in *.
  set (histogram := fun b =>
                      {| binStart := value_or_zero (bin_x0 b);
                         binEnd := value_or_zero (bin_x1 b);
                         bin_count := length (bin_items b);
                         bin_percentage :=
                           percentage_of (length (bin_items b)) (length data) |}).
  assert (Hbins : bins = map histogram d3bins).
  { unfold bins, createBins. fold values. rewrite Hext. reflexivity. }
  rewrite Hbins. split; [|split].
  - rewrite map_map. simpl. rewrite Hsum.
    unfold values, column. apply length_map.
  - intros i b1 b2 H1 H2. rewrite lookup_map in H1, H2.
    destruct (d3bins !! i) as [c1|] eqn:E1; [|discriminate].
    destruct (d3bins !! S i) as [c2|] eqn:E2; [|discriminate].
    injection H1 as <-. injection H2 as <-. simpl.
    now rewrite (Hcont i c1 c2 E1 E2).
  - exists lo, hi, (histogram first), (histogram lst).
    split; [exact Hinlo|]. split; [exact Hinhi|]. split; [exact Hall|].
    split; [destruct d3bins; [discriminate|]; simpl in *; congruence|].
    split.
    { rewrite last_lookup in Hlast.
      rewrite last_lookup, length_map, lookup_map, Hlast. reflexivity. }
    simpl. rewrite Hx0, Hx1.
    split; now apply value_or_zero_number.
Qed.

(** *** The rows of the long format *)

Lemma concat_uniform_length {A : Type} (ls : list (list A)) m :
  Forall (fun l => length l = m) ls -> length (concat ls) = length ls * m.
Proof.
  induction 1 as [|l ls Hl _ IH]; simpl; [reflexivity|].
  rewrite length_app, IH, Hl. reflexivity.
Qed.

Lemma concat_uniform_lookup {A : Type} (ls : list (list A)) m i j l x :
  Forall (fun l => length l = m) ls ->
  ls !! i = Some l -> l !! j = Some x -> concat ls !! (i * m + j) = Some x.
Proof.
  intros Hall. revert i. induction Hall as [|l0 ls Hl0 _ IH]; intros i Hi Hj.
  - destruct i; discriminate.
  - destruct i as [|i]; simpl in *.
    + injection Hi as ->. rewrite lookup_app_l; [exact Hj|].
      apply lookup_lt_Some in Hj. exact Hj.
    + rewrite lookup_app_r by lia.
      replace (m + i * m + j - length l0) with (i * m + j) by lia.
      apply IH; assumption.
Qed.

Lemma obj_set_new_name {A : Type} (o : object A) k v :
  obj_lookup o k = None -> array_index k = None ->
  obj_set o k v = o ++ [(k, v)].
Proof. unfold obj_set, obj_has. intros -> ->. reflexivity. Qed.

(** X1.  [wideToLong] emits one row for every record and every value
    column, record by record and, within a record, in the order of
    [valueColumns]: the result has [data.length * valueColumns.length]
    rows, and the row at index [i * valueColumns.length + j] is the object
    literal built from [data[i]] and [valueColumns[j]]. *)
Theorem wideToLong_rows data idColumn valueColumns :
  length (wideToLong data idColumn valueColumns) =
  length data * length valueColumns /\
  forall i j row column,
    data !! i = Some row -> valueColumns !! j = Some column ->
    wideToLong data idColumn valueColumns !! (i * length valueColumns + j) =
    Some (wideToLong_row idColumn row column).
Proof.
  rewrite wideToLong_concat.
  assert (Hall : Forall (fun l : list record => length l = length valueColumns)
            (map (fun row => map (wideToLong_row idColumn row) valueColumns) data)).
  { apply List.Forall_forall. intros l Hl. apply in_map_iff in Hl.
    destruct Hl as [row [<- _]]. apply length_map. }
  split.
  - rewrite (concat_uniform_length _ _ Hall), length_map. reflexivity.
  - intros i j row column Hi Hj.
    apply (concat_uniform_lookup _ _ i j
             (map (wideToLong_row idColumn row) valueColumns)); [exact Hall| |].
    + rewrite lookup_map, Hi. reflexivity.
    + rewrite lookup_map, Hj. reflexivity.
Qed.

(** X2.  Every row of [wideToLong] comes from a record and a value column;
    its [variable] is the column name and its [value] the cell of the
    record, whatever [idColumn] is.  The id is carried over under
    [idColumn] unless that name is ['variable'] or ['value']: then the later
    property of the literal overwrites it, and the row has two keys instead
    of three. *)
Theorem wideToLong_row_shape data idColumn valueColumns out :
  In out (wideToLong data idColumn valueColumns) ->
  exists row column,
    In row data /\ In column valueColumns /\
    obj_get out "variable" = VString column /\
    obj_get out "value" = obj_get row column /\
    obj_get out idColumn =
      (if String.eqb idColumn "variable" then VString column
       else if String.eqb idColumn "value" then obj_get row column
       else obj_get row idColumn) /\
    obj_keys out =
      (if String.eqb idColumn "variable" then ["variable"; "value"]
       else if String.eqb idColumn "value" then ["value"; "variable"]
       else [idColumn; "variable"; "value"]).
Proof.
  rewrite wideToLong_concat. intros Hin.
  apply in_concat in Hin. destruct Hin as [l [Hl Hout]].
  apply in_map_iff in Hl. destruct Hl as [row [<- Hrow]].
  apply in_map_iff in Hout. destruct Hout as [column [<- Hcolumn]].
  exists row, column. split; [exact Hrow|]. split; [exact Hcolumn|].
  unfold wideToLong_row. rewrite !obj_get_set. simpl.
  split; [reflexivity|]. split; [reflexivity|].
  split.
  - rewrite String.eqb_refl.
    destruct (String.eqb_spec idColumn "variable") as [->|_]; [reflexivity|].
    destruct (String.eqb idColumn "value"); reflexivity.
  - destruct (String.eqb_spec idColumn "variable") as [->|Hvar]; [reflexivity|].
    destruct (String.eqb_spec idColumn "value") as [->|Hval]; [reflexivity|].
    apply String.eqb_neq in Hvar, Hval.
    rewrite String.eqb_sym in Hvar. rewrite String.eqb_sym in Hval.
    assert (Hfirst : obj_set [] idColumn (obj_get row idColumn) =
                     [(idColumn, obj_get row idColumn)]).
    { unfold obj_set. cbn. destruct (array_index idColumn); reflexivity. }
    rewrite Hfirst.
    rewrite (obj_set_new_name _ "variable");
      [|cbn -[String.eqb]; rewrite Hvar; reflexivity|reflexivity].
    rewrite (obj_set_new_name _ "value");
      [|cbn -[String.eqb]; rewrite Hval; reflexivity|reflexivity].
    reflexivity.
Qed.

(** *** The records of the wide format *)

Lemma obj_keys_replace {A : Type} (o : object A) k v :
  obj_keys (obj_replace o k v) = obj_keys o.
Proof.
  unfold obj_keys. induction o as [|[k' v'] o IH]; simpl; [reflexivity|].
  destruct (String.eqb k k'); simpl; [reflexivity|].
  rewrite IH. reflexivity.
Qed.

Lemma obj_keys_insert_index {A : Type} (o : object A) n k v :
  Permutation (obj_keys (obj_insert_index o n k v)) (k :: obj_keys o).
Proof.
  unfold obj_keys. induction o as [|[k' v'] o IH]; simpl; [reflexivity|].
  destruct (array_index k') as [n'|]; [|reflexivity].
  destruct (n' <? n)%N; [|reflexivity].
  simpl. rewrite IH. apply perm_swap.
Qed.

Lemma obj_keys_set {A : Type} (o : object A) k v :
  Permutation (obj_keys (obj_set o k v))
    (if obj_has o k then obj_keys o else k :: obj_keys o).
Proof.
  unfold obj_set. destruct (obj_has o k).
  - rewrite obj_keys_replace. reflexivity.
  - destruct (array_index k) as [n|].
    + apply obj_keys_insert_index.
    + unfold obj_keys. rewrite map_app. simpl.
      symmetry. apply Permutation_cons_append.
Qed.

Lemma obj_has_keys {A : Type} (o : object A) k :
  obj_has o k = true <-> In k (obj_keys o).
Proof.
  rewrite <- obj_lookup_keys. unfold obj_has.
  destruct (obj_lookup o k); split; congruence.
Qed.

Lemma obj_set_NoDup {A : Type} (o : object A) k v :
  NoDup (obj_keys o) -> NoDup (obj_keys (obj_set o k v)).
Proof.
  intros Hnd. rewrite (obj_keys_set o k v).
  destruct (obj_has o k) eqn:Hhas; [exact Hnd|].
  apply NoDup_cons_2; [|exact Hnd].
  rewrite list_elem_of_In, <- obj_has_keys, Hhas. discriminate.
Qed.

Lemma obj_lookup_NoDup {A : Type} (o : object A) k v :
  NoDup (obj_keys o) -> In (k, v) o -> obj_lookup o k = Some v.
Proof.
  induction o as [|[k' v'] o IH]; simpl; [contradiction|].
  intros Hnd [Heq | Hin].
  - injection Heq as -> ->. rewrite String.eqb_refl. reflexivity.
  - apply NoDup_cons in Hnd. destruct Hnd as [Hk' Hnd].
    destruct (String.eqb_spec k k') as [->|_]; [|apply IH; assumption].
    exfalso. apply Hk'. rewrite list_elem_of_In.
    apply (in_map fst) in Hin. exact Hin.
Qed.

Lemma obj_cell_step id variable val (result : object record) row k c :
  obj_cell (longToWide_write id variable val result row) k c =
  if String.eqb (to_property_key (obj_get row id)) k
     && String.eqb (to_property_key (obj_get row variable)) c
  then Some (obj_get row val) else obj_cell result k c.
Proof.
  unfold longToWide_write, obj_cell. rewrite obj_lookup_set.
  rewrite (String.eqb_sym (to_property_key (obj_get row id)) k).
  rewrite (String.eqb_sym (to_property_key (obj_get row variable)) c).
  destruct (String.eqb_spec k (to_property_key (obj_get row id))) as [->|_];
    simpl; [|reflexivity].
  rewrite obj_lookup_set.
  destruct (String.eqb c (to_property_key (obj_get row variable)));
    [reflexivity|].
  destruct (obj_lookup result (to_property_key (obj_get row id)));
    reflexivity.
Qed.

Lemma longToWide_object data id variable val :
  let result := fold_left (longToWide_write id variable val) data [] in
  NoDup (obj_keys result) /\
  (forall k, In k (obj_keys result) <->
             exists row, In row data /\ id_key id row = k) /\
  (forall k c, obj_cell result k c = last_written data id variable val k c).
Proof.
  induction data as [|row data IH] using rev_ind; simpl.
  - split; [apply NoDup_nil_2|]. split; [|reflexivity].
    intros k. split; [contradiction|]. intros [row [[] _]].
  - rewrite fold_left_app. simpl.
    destruct IH as [Hnd [Hkeys Hcells]].
    set (result := fold_left (longToWide_write id variable val) data []) in *.
    split; [apply obj_set_NoDup; exact Hnd|]. split.
    + intros k. unfold longToWide_write.
      rewrite <- obj_lookup_keys, obj_lookup_set.
      fold (id_key id row).
      destruct (String.eqb_spec k (id_key id row)) as [->|Hne].
      * split; [|discriminate]. intros _. exists row.
        split; [apply in_or_app; right; left|]; reflexivity.
      * rewrite obj_lookup_keys, Hkeys. split.
        -- intros [r [Hr Hk]]. exists r.
           split; [apply in_or_app; left; exact Hr|exact Hk].
        -- intros [r [Hr Hk]]. apply in_app_or in Hr.
           destruct Hr as [Hr | [<- | []]]; [|congruence].
           exists r. split; assumption.
    + intros k c. rewrite obj_cell_step, Hcells.
      unfold last_written. rewrite fold_left_app. reflexivity.
Qed.

(** X3.  When no row has an id that names a member of
    [Object.prototype] or the variable ['__proto__'], [longToWide] returns
    one record for each distinct id (as a property key) of the long rows,
    and the record of an id maps the name of a variable to the value of
    the last row with that id and that variable: a later row overwrites an
    earlier one, and a name that no row of the id has as its variable is
    not a key of the record.  There are at most as many records as
    rows. *)
Theorem longToWide_last_write_wins data id variable val :
  Forall (fun row => inherited (id_key id row) = false /\
                     to_property_key (obj_get row variable) <> "__proto__")
    data ->
  exists (wide : list record) (ids : list string),
    longToWide data id variable val = Some wide /\
    NoDup ids /\
    (forall k, In k ids <-> exists row, In row data /\ id_key id row = k) /\
    length wide = length ids /\
    length wide <= length data /\
    forall i k, ids !! i = Some k ->
      exists out,
        wide !! i = Some out /\
        forall c, obj_lookup out c = last_written data id variable val k c.
Proof.
  intros Hrows.
  destruct (longToWide_object data id variable val) as [Hnd [Hkeys Hcells]].
  rewrite (longToWide_within data id variable val Hrows).
  set (result := fold_left (longToWide_write id variable val) data []) in *.
  exists (obj_values result), (obj_keys result).
  split; [reflexivity|].
  split; [exact Hnd|]. split; [exact Hkeys|].
  split; [unfold obj_values, obj_keys; rewrite !length_map; reflexivity|].
  split.
  { unfold obj_values. rewrite length_map.
    rewrite <- (length_map fst result), <- (length_map (id_key id) data).
    apply List.NoDup_incl_length; [apply NoDup_ListNoDup; exact Hnd|].
    intros k Hk. apply Hkeys in Hk. destruct Hk as (row & Hrow & <-).
    apply in_map. exact Hrow. }
  intros i k Hi. unfold obj_keys in Hi. rewrite lookup_map in Hi.
  destruct (result !! i) as [[k' out]|] eqn:Hri; [|discriminate].
  simpl in Hi. injection Hi as ->.
  exists out. split.
  - unfold obj_values. rewrite lookup_map, Hri. reflexivity.
  - intros c. rewrite <- Hcells. unfold obj_cell.
    rewrite (obj_lookup_NoDup result k out Hnd); [reflexivity|].
    apply list_elem_of_In. apply (list_elem_of_lookup_2 _ i). exact Hri.
Qed.

Lemma obj_has_existsb {A : Type} (o : object A) k :
  obj_has o k = existsb (String.eqb k) (obj_keys o).
Proof.
  unfold obj_has, obj_keys. induction o as [|[k' v'] o IH]; simpl; [reflexivity|].
  destruct (String.eqb k k'); [reflexivity|exact IH].
Qed.

Lemma obj_keys_set_name {A : Type} (o : object A) k v :
  array_index k = None ->
  obj_keys (obj_set o k v) =
  if existsb (String.eqb k) (obj_keys o) then obj_keys o else obj_keys o ++ [k].
Proof.
  intros Hname. unfold obj_set. rewrite obj_has_existsb, Hname.
  destruct (existsb (String.eqb k) (obj_keys o)).
  - apply obj_keys_replace.
  - unfold obj_keys. rewrite map_app. reflexivity.
Qed.

Lemma longToWide_keys_order data id variable val :
  (forall row, In row data -> array_index (id_key id row) = None) ->
  obj_keys (fold_left (longToWide_write id variable val) data []) =
  first_occurrences (map (id_key id) data).
Proof.
  induction data as [|row data IH] using rev_ind; intros Hnames;
    [reflexivity|].
  rewrite fold_left_app, map_app. unfold first_occurrences.
  rewrite fold_left_app. simpl.
  fold (first_occurrences (map (id_key id) data)).
  rewrite <- IH by (intros r Hr; apply Hnames, in_or_app; left; exact Hr).
  unfold longToWide_write at 1. fold (id_key id row).
  apply obj_keys_set_name. apply Hnames, in_or_app. right. left. reflexivity.
Qed.

(** X20.  When no id of the long rows is an integer-like property key
    or the name of a member of [Object.prototype], and no variable is
    ['__proto__'], the records of [longToWide] come in the order in which
    their ids first occur in the rows: the record at position [i] is the
    one of the [i]-th distinct id, with the last value written for each
    variable. *)
Theorem longToWide_order data id variable val :
  Forall (fun row => inherited (id_key id row) = false /\
                     to_property_key (obj_get row variable) <> "__proto__")
    data ->
  (forall row, In row data -> array_index (id_key id row) = None) ->
  let ids := first_occurrences (map (id_key id) data) in
  exists wide : list record,
    longToWide data id variable val = Some wide /\
    length wide = length ids /\
    forall i k, ids !! i = Some k ->
      exists out,
        wide !! i = Some out /\
        forall c, obj_lookup out c = last_written data id variable val k c.
Proof.
  intros Hrows Hnames ids.
  destruct (longToWide_object data id variable val) as [Hnd [_ Hcells]].
  pose proof (longToWide_keys_order data id variable val Hnames) as Horder.
  fold ids in Horder.
  rewrite (longToWide_within data id variable val Hrows).
  set (result := fold_left (longToWide_write id variable val) data []) in *.
  exists (obj_values result). split; [reflexivity|].
  rewrite <- Horder.
  split; [unfold obj_values, obj_keys; rewrite !length_map; reflexivity|].
  intros i k Hi. unfold obj_keys in Hi. rewrite lookup_map in Hi.
  destruct (result !! i) as [[k' out]|] eqn:Hri; [|discriminate].
  simpl in Hi. injection Hi as ->.
  exists out. split.
  - unfold obj_values. rewrite lookup_map, Hri. reflexivity.
  - intros c. rewrite <- Hcells. unfold obj_cell.
    rewrite (obj_lookup_NoDup result k out Hnd); [reflexivity|].
    apply list_elem_of_In. apply (list_elem_of_lookup_2 _ i). exact Hri.
Qed.

(** *** The report of the missing values *)

Lemma filter_length_le {A : Type} (f : A -> bool) (l : list A) :
  length (List.filter f l) <= length l.
Proof.
  induction l as [|x l IH]; simpl; [lia|]. destruct (f x); simpl; lia.
Qed.

(** X4.  [countMissingValues] reports the fields of the first record and
    no other: one entry for each of them (none for the empty dataset), so
    a field that only later records have is never reported.  The count of
    an entry is the number of records of the whole dataset in which the
    field is missing, at most the number of records; the entries are in
    descending order of count, and entries with equal counts keep the
    order of the fields in the first record. *)
Theorem countMissingValues_report data :
  let report := countMissingValues data in
  let variables := obj_keys (hd [] data) in
  Permutation (map mr_variable report) variables /\
  (forall e, In e report ->
     mr_count e =
       length (List.filter (fun d => is_missing (obj_get d (mr_variable e)))
                 data) /\
     mr_count e <= length data /\
     mr_percentage e = percentage_of (mr_count e) (length data)) /\
  (forall p q e1 e2,
     report !! p = Some e1 -> report !! q = Some e2 -> p < q ->
     mr_count e2 <= mr_count e1 /\
     (mr_count e1 = mr_count e2 ->
      exists i1 i2,
        i1 < i2 /\ variables !! i1 = Some (mr_variable e1) /\
        variables !! i2 = Some (mr_variable e2))).
Proof.
  destruct data as [|first rest].
  { simpl. split; [reflexivity|]. split; [intros e []|].
    intros p q e1 e2 Hp. destruct p; discriminate. }
  set (data := first :: rest).
  intros report variables.
  set (entry := fun variable =>
         {| mr_variable := variable;
            mr_count :=
              length (List.filter (fun d => is_missing (obj_get d variable))
                        data);
            mr_percentage :=
              percentage_of
                (length (List.filter (fun d => is_missing (obj_get d variable))
                           data))
                (length data) |}).
  assert (Hreport : report =
            js_sort (by_count_desc mr_count) (map entry variables))
    by reflexivity.
  assert (Hperm : Permutation report (map entry variables))
    by (rewrite Hreport; apply js_sort_perm).
  split; [|split].
  - rewrite (Permutation_map mr_variable Hperm), map_map. simpl.
    rewrite map_id. reflexivity.
  - intros e He. apply (Permutation_in _ Hperm) in He.
    apply in_map_iff in He. destruct He as [variable [<- _]].
    split; [reflexivity|]. split; [|reflexivity].
    apply (filter_length_le _ data).
  - intros p q e1 e2 Hp Hq Hlt.
    pose proof (lookup_before report p q e1 e2 Hp Hq Hlt) as Hb.
    rewrite Hreport in Hb.
    apply js_sort_before in Hb. destruct Hb as [Hb | [Heq Hb]].
    + split; lia.
    + split; [lia|]. intros _.
      apply before_lookup in Hb. destruct Hb as (i1 & i2 & Hi & H1 & H2).
      exists i1, i2. split; [exact Hi|].
      rewrite lookup_map in H1, H2.
      destruct (variables !! i1) as [v1|]; [|discriminate].
      destruct (variables !! i2) as [v2|]; [|discriminate].
      simpl in H1, H2. injection H1 as <-. injection H2 as <-.
      split; reflexivity.
Qed.

(** *** Groups and their summaries *)

Lemma group_push_concat {A : Type} (groups : list (value * list A)) key x :
  Permutation (concat (map snd (group_push groups key x)))
    (x :: concat (map snd groups)).
Proof.
  induction groups as [|[k xs] t IH]; simpl; [reflexivity|].
  destruct (same_value_zero k key); simpl.
  - rewrite <- app_assoc. simpl. symmetry. apply Permutation_middle.
  - rewrite IH. symmetry. apply Permutation_middle.
Qed.

Lemma d3_group_concat {A : Type} (keyof : A -> value) (values : list A) :
  Permutation (concat (map snd (d3_group values keyof))) values.
Proof.
  induction values as [|x values IH] using rev_ind; [reflexivity|].
  rewrite d3_group_snoc, group_push_concat, IH.
  apply Permutation_cons_append.
Qed.

Lemma d3_group_partition {A : Type} (keyof : A -> value) (values : list A) :
  let groups := d3_group values keyof in
  (forall y, In y values ->
     exists g, In g groups /\ same_value_zero (fst g) (keyof y) = true) /\
  (forall p q g1 g2,
     groups !! p = Some g1 -> groups !! q = Some g2 -> p <> q ->
     same_value_zero (fst g1) (fst g2) = false) /\
  (forall g, In g groups ->
     snd g = List.filter (fun x => same_value_zero (fst g) (keyof x)) values /\
     snd g <> []).
Proof.
  intros groups.
  destruct (d3_group_ok keyof values) as [Hnorm Hnd]. fold groups in Hnorm, Hnd.
  destruct (d3_group_spec keyof values) as (Hcover & Hitems & Hseen & _).
  fold groups in Hcover, Hitems, Hseen.
  assert (Hkey : forall g, In g groups -> map_key (fst g) = fst g).
  { intros g Hg. rewrite Forall_forall in Hnorm.
    apply Hnorm, list_elem_of_In. exact Hg. }
  split; [|split].
  - intros y Hy. apply Hcover in Hy. apply in_map_iff in Hy.
    destruct Hy as (g & Hg1 & Hg). exists g. split; [exact Hg|].
    apply same_value_zero_map_key; [apply Hkey; exact Hg|exact Hg1].
  - intros p q g1 g2 Hp Hq Hne.
    assert (H1 : In g1 groups)
      by (apply list_elem_of_In, list_elem_of_lookup; eauto).
    assert (H2 : In g2 groups)
      by (apply list_elem_of_In, list_elem_of_lookup; eauto).
    apply same_value_zero_false; [apply Hkey; exact H1|].
    rewrite (Hkey g2 H2). intros E. apply Hne.
    apply (NoDup_lookup _ p q (fst g1) Hnd).
    + rewrite lookup_map, Hp. reflexivity.
    + rewrite lookup_map, Hq, E. reflexivity.
  - intros g Hg. split; [apply Hitems; exact Hg|].
    rewrite (Hitems g Hg).
    destruct (Hseen (fst g)) as [i Hi]; [apply in_map; exact Hg|].
    apply first_seen_some in Hi. destruct Hi as (v & Hv & Hsame).
    apply in_map_iff in Hv. destruct Hv as (d & <- & Hd).
    rewrite same_value_zero_sym in Hsame.
    pose proof (filter_nonempty
                  (fun x => same_value_zero (fst g) (keyof x)) values d Hd Hsame)
      as Hpos.
    intros E. rewrite E in Hpos. simpl in Hpos. lia.
Qed.

(** X5.  [groupByCategory] partitions the dataset: the groups taken
    together hold every record exactly once, the records of a group are
    those whose category is the key of the group (SameValueZero, the
    equality of a Map), in the order of the dataset, no group is empty, no
    two groups have the same key, and the groups come in the order in which
    their keys first occur in the dataset. *)
Theorem groupByCategory_partition data category :
  let groups := groupByCategory data category in
  let col := column data category in
  Permutation (concat (map cg_values groups)) data /\
  (forall g, In g groups ->
     cg_values g =
       List.filter (fun d => same_value_zero (cg_key g) (obj_get d category))
         data /\
     cg_values g <> []) /\
  (forall p q g1 g2,
     groups !! p = Some g1 -> groups !! q = Some g2 -> p <> q ->
     same_value_zero (cg_key g1) (cg_key g2) = false) /\
  (forall p q g1 g2,
     groups !! p = Some g1 -> groups !! q = Some g2 -> p < q ->
     exists i1 i2,
       first_seen (cg_key g1) col = Some i1 /\
       first_seen (cg_key g2) col = Some i2 /\ i1 < i2).
Proof.
  intros groups col.
  set (keyof := fun d : record => obj_get d category).
  set (pairs := d3_group data keyof).
  set (entry := fun g : value * list record =>
                  {| cg_key := fst g; cg_values := snd g |}).
  assert (Hgroups : groups = map entry pairs).
  { unfold groups, groupByCategory. apply map_ext. intros [k xs]. reflexivity. }
  destruct (d3_group_partition keyof data) as (_ & Hdistinct & Hitems).
  destruct (d3_group_spec keyof data) as (_ & _ & _ & Horder).
  fold pairs in Hdistinct, Hitems, Horder.
  assert (Hlookup : forall p g, groups !! p = Some g ->
            exists pair, pairs !! p = Some pair /\ g = entry pair).
  { intros p g Hp. rewrite Hgroups, lookup_map in Hp.
    destruct (pairs !! p) as [pair|]; [|discriminate].
    injection Hp as <-. eauto. }
  split; [|split; [|split]].
  - rewrite Hgroups, map_map. simpl. apply d3_group_concat.
  - intros g Hg. rewrite Hgroups in Hg. apply in_map_iff in Hg.
    destruct Hg as (pair & <- & Hpair). simpl. apply Hitems. exact Hpair.
  - intros p q g1 g2 Hp Hq Hne.
    destruct (Hlookup p g1 Hp) as (pair1 & Hp1 & ->).
    destruct (Hlookup q g2 Hq) as (pair2 & Hp2 & ->). simpl.
    apply (Hdistinct p q); assumption.
  - intros p q g1 g2 Hp Hq Hlt.
    destruct (Hlookup p g1 Hp) as (pair1 & Hp1 & ->).
    destruct (Hlookup q g2 Hq) as (pair2 & Hp2 & ->). simpl.
    destruct (Horder p q (fst pair1) (fst pair2)) as (i1 & i2 & H1 & H2 & Hi).
    + rewrite lookup_map, Hp1. reflexivity.
    + rewrite lookup_map, Hp2. reflexivity.
    + exact Hlt.
    + exists i1, i2. split; [exact H1|]. split; [exact H2|exact Hi].
Qed.

(** X6.  [summarizeByGroup] summarises the groups of [groupByCategory],
    one summary for each group and in the same order: the summary carries
    the key of the group, its number of records, and the mean, median and
    standard deviation that [calculateMean], [calculateMedian] and
    [calculateStandardDeviation] give on the records of the group.  The
    counts of the summaries add up to the number of records. *)
Theorem summarizeByGroup_groups data groupVar valueVar :
  let summaries := summarizeByGroup data groupVar valueVar in
  let groups := groupByCategory data groupVar in
  length summaries = length groups /\
  list_sum (map gs_count summaries) = length data /\
  forall i g, groups !! i = Some g ->
    exists s,
      summaries !! i = Some s /\
      gs_group s = cg_key g /\
      gs_count s = length (cg_values g) /\
      gs_mean s = calculateMean (cg_values g) valueVar /\
      gs_median s = calculateMedian (cg_values g) valueVar /\
      gs_stdDev s = calculateStandardDeviation (cg_values g) valueVar.
Proof.
  intros summaries groups.
  unfold summaries, groups, summarizeByGroup, groupByCategory.
  set (pairs := d3_group data (fun d => obj_get d groupVar)).
  split; [rewrite !length_map; reflexivity|]. split.
  - rewrite map_map.
    rewrite <- (d3_group_total (fun d => obj_get d groupVar) data).
    fold pairs. f_equal. apply map_ext. intros [k xs]. reflexivity.
  - intros i g Hi. rewrite lookup_map in Hi. rewrite lookup_map.
    destruct (pairs !! i) as [[k xs]|]; [|discriminate].
    simpl in Hi. injection Hi as <-. simpl.
    eexists. split; [reflexivity|]. simpl. repeat split.
Qed.

(** X8.  The entries of [calculateFrequencies] are the groups of
    [groupByCategory] for the same field, each with the number of its
    records, in another order (the one of descending counts). *)
Theorem calculateFrequencies_group_sizes data variable :
  Permutation
    (map (fun e => (freq_value e, freq_count e))
       (calculateFrequencies data variable))
    (map (fun g => (cg_key g, length (cg_values g)))
       (groupByCategory data variable)).
Proof.
  rewrite calculateFrequencies_unfold.
  rewrite (Permutation_map _ (js_sort_perm _ _)).
  unfold groupByCategory. rewrite !map_map.
  apply Permutation_refl'. apply map_ext. intros [k xs]. reflexivity.
Qed.

(** *** The least and the greatest value *)

Lemma js_lt_undefined_r v : js_lt v VUndefined = false.
Proof.
  destruct v as [| |b|x|s]; simpl; try reflexivity.
  - destruct b; reflexivity.
  - destruct x; reflexivity.
  - destruct (StringToNumber s); reflexivity.
Qed.

Lemma js_lt_undefined_l v : js_lt VUndefined v = false.
Proof. destruct v; reflexivity. Qed.

Lemma not_nullish_defined v :
  not_nullish v = true -> strict_equals v VUndefined = false.
Proof. destruct v; simpl; congruence. Qed.

Lemma d3_extent_fold (values : list value) state min max :
  (state = None /\ min = VUndefined /\ max = VUndefined) \/
  (state = Some (min, max) /\ not_nullish min = true /\
   not_nullish max = true) ->
  match
    fold_left (fun (state : option (value * value)) value =>
                 if not_nullish value then
                   match state with
                   | None => if js_le value value then Some (value, value) else None
                   | Some (min, max) =>
                       let min := if js_lt value min then value else min in
                       let max := if js_lt max value then value else max in
                       Some (min, max)
                   end
                 else state) values state
  with
  | Some (min, max) => (min, max)
  | None => (VUndefined, VUndefined)
  end =
  (fold_left (fun min value =>
                if not_nullish value
                   && (js_lt value min
                       || (strict_equals min VUndefined && js_le value value))
                then value else min) values min,
   fold_left (fun max value =>
                if not_nullish value
                   && (js_lt max value
                       || (strict_equals max VUndefined && js_le value value))
                then value else max) values max).
Proof.
  revert state min max.
  induction values as [|v values IH]; intros state min max Hstate.
  - destruct Hstate as [(-> & -> & ->) | (-> & _ & _)]; reflexivity.
  - cbn [fold_left]. apply IH.
    destruct (not_nullish v) eqn:Hv; [|exact Hstate].
    destruct Hstate as [(-> & -> & ->) | (-> & Hmin & Hmax)].
    + rewrite js_lt_undefined_r, js_lt_undefined_l. simpl.
      destruct (js_le v v); [right|left]; repeat split; assumption.
    + right. rewrite (not_nullish_defined min Hmin).
      rewrite (not_nullish_defined max Hmax). simpl. rewrite !orb_false_r.
      split; [reflexivity|].
      split; [destruct (js_lt v min)|destruct (js_lt max v)]; assumption.
Qed.

Lemma d3_extent_min_max (values : list value) :
  d3_extent values = (d3_min values, d3_max values).
Proof.
  unfold d3_extent, d3_min, d3_max.
  apply (d3_extent_fold values None VUndefined VUndefined).
  left. repeat split.
Qed.

Lemma d3_min_max_numeric (values : list value) :
  values <> [] ->
  Forall (fun v => is_numeric v = true) values ->
  exists lo hi,
    d3_min values = VNumber lo /\ d3_max values = VNumber hi /\
    num_is_nan lo = false /\ num_is_nan hi = false /\
    In (VNumber lo) values /\ In (VNumber hi) values /\
    forall v, In v values ->
      js_le (VNumber lo) v = true /\ js_le v (VNumber hi) = true.
Proof.
  intros Hne Hnum.
  destruct (d3_extent_numeric values Hne Hnum)
    as (lo & hi & Hextent & Hlo & Hhi & Hinlo & Hinhi & Hbounds).
  rewrite d3_extent_min_max in Hextent. injection Hextent as Hmin Hmax.
  exists lo, hi. repeat split; try assumption; apply Hbounds; assumption.
Qed.

(** X7.  On a dataset whose value field is a number (not NaN) in every
    record, the [min] and [max] of a group summary are the least and the
    greatest value of the records of the group: both occur in the group,
    every value of the group lies between them, and [min <= max]. *)
Theorem summarizeByGroup_min_max data groupVar valueVar s :
  Forall (fun d => is_numeric (obj_get d valueVar) = true) data ->
  In s (summarizeByGroup data groupVar valueVar) ->
  exists lo hi,
    strict_equals (gs_min s) (VNumber lo) = true /\
    strict_equals (gs_max s) (VNumber hi) = true /\
    num_leb lo hi = true /\
    (exists d, In d data /\
       same_value_zero (gs_group s) (obj_get d groupVar) = true /\
       obj_get d valueVar = VNumber lo) /\
    (exists d, In d data /\
       same_value_zero (gs_group s) (obj_get d groupVar) = true /\
       obj_get d valueVar = VNumber hi) /\
    forall d, In d data ->
      same_value_zero (gs_group s) (obj_get d groupVar) = true ->
      js_le (VNumber lo) (obj_get d valueVar) = true /\
      js_le (obj_get d valueVar) (VNumber hi) = true.
Proof.
  intros Hnum Hs. unfold summarizeByGroup in Hs.
  apply in_map_iff in Hs. destruct Hs as ([k xs] & <- & Hg).
  destruct (d3_group_partition (fun d => obj_get d groupVar) data)
    as (_ & _ & Hitems).
  destruct (Hitems _ Hg) as [Hxs Hne]. simpl in Hxs, Hne.
  assert (Hmember : forall d, In d xs <->
            In d data /\ same_value_zero k (obj_get d groupVar) = true).
  { intros d. rewrite Hxs. apply List.filter_In. }
  destruct (d3_min_max_numeric (column xs valueVar))
    as (lo & hi & Hmin & Hmax & Hlo & Hhi & Hinlo & Hinhi & Hbounds).
  { unfold column. destruct xs; [congruence|discriminate]. }
  { unfold column. apply List.Forall_forall. intros v Hv.
    apply in_map_iff in Hv. destruct Hv as (d & <- & Hd).
    rewrite List.Forall_forall in Hnum. apply Hnum.
    apply Hmember in Hd. exact (proj1 Hd). }
  exists lo, hi. simpl. rewrite Hmin, Hmax.
  split; [apply value_or_zero_number; exact Hlo|].
  split; [apply value_or_zero_number; exact Hhi|].
  split; [exact (proj2 (Hbounds _ Hinlo))|].
  unfold column in Hinlo, Hinhi.
  apply in_map_iff in Hinlo. destruct Hinlo as (dlo & Hdlo & Hinlo).
  apply in_map_iff in Hinhi. destruct Hinhi as (dhi & Hdhi & Hinhi).
  apply Hmember in Hinlo, Hinhi.
  split; [exists dlo; split; [exact (proj1 Hinlo)|]; split;
          [exact (proj2 Hinlo)|exact Hdlo]|].
  split; [exists dhi; split; [exact (proj1 Hinhi)|]; split;
          [exact (proj2 Hinhi)|exact Hdhi]|].
  intros d Hd Hsame. apply Hbounds. unfold column.
  apply (in_map (fun d => obj_get d valueVar)).
  apply Hmember. split; assumption.
Qed.

(** *** The range of the basic statistics *)

Lemma or_zero_not_nan (o : option number) : num_is_nan (or_zero o) = false.
Proof.
  destruct o as [x|]; [|reflexivity]. simpl.
  destruct x; reflexivity.
Qed.

Lemma num_sqrt_sign x :
  num_is_zero x = false ->
  num_sqrt x = NaN \/ num_leb num_zero (num_sqrt x) = true.
Proof.
  destruct x as [s|s| |s m e]; simpl; intros Hzero.
  - discriminate.
  - destruct s; [left|right]; reflexivity.
  - left. reflexivity.
  - destruct s; [left; reflexivity|].
    unfold num_sqrt, SFsqrt.
    destruct (SFsqrt_core_binary prec emax (Z.pos m) e) as [[mz ez] lz].
    unfold binary_round_aux.
    destruct (shr_fexp prec emax mz ez lz) as [mrs' e'].
    destruct (shr_fexp prec emax
                (round_nearest_even (shr_m mrs') (loc_of_shr_record mrs'))
                e' loc_Exact) as [mrs'' e''].
    destruct (shr_m mrs'') as [|m'|m'].
    + right. reflexivity.
    + destruct (e'' <=? emax - prec)%Z; right; reflexivity.
    + left. reflexivity.
Qed.

Lemma d3_variance_count (values : list value) :
  length (d3_numbers values) < 2 -> d3_variance values = None.
Proof.
  unfold d3_variance. intros H.
  match goal with |- context [fold_left ?f _ _] => set (step := f) end.
  assert (Hfold : forall l acc,
             fst (fst (fold_left step l acc)) =
             fst (fst acc) + length (d3_numbers l)).
  { induction l as [|v l IH]; intros [[c m] s]; cbn [fold_left].
    - simpl. lia.
    - rewrite IH. unfold d3_numbers. simpl omap.
      destruct (d3_number v) eqn:Hv; unfold step at 1; rewrite Hv; simpl;
      change (list_omap value number d3_number l) with (omap d3_number l);
      lia. }
  specialize (Hfold values (0, num_zero, num_zero)).
  destruct (fold_left step values (0, num_zero, num_zero)) as [[c m] s].
  simpl in Hfold. subst c.
  destruct (1 <? length (d3_numbers values)) eqn:E; [|reflexivity].
  apply Nat.ltb_lt in E. lia.
Qed.

(** X9.  None of the three basic statistics is ever NaN: [|| 0] turns a
    NaN into 0.  The standard deviation is moreover never negative: it is
    0, a positive number or [Infinity]. *)
Theorem statistics_range data variable :
  num_is_nan (calculateMean data variable) = false /\
  num_is_nan (calculateMedian data variable) = false /\
  num_leb num_zero (calculateStandardDeviation data variable) = true.
Proof.
  split; [apply or_zero_not_nan|]. split; [apply or_zero_not_nan|].
  unfold calculateStandardDeviation, d3_deviation.
  destruct (d3_variance (column data variable)) as [v|]; [|reflexivity].
  destruct (to_boolean (VNumber v)) eqn:Hv.
  - assert (Hzero : num_is_zero v = false).
    { simpl in Hv. destruct (num_is_zero v); [discriminate|reflexivity]. }
    destruct (num_sqrt_sign v Hzero) as [-> | Hle]; [reflexivity|].
    unfold or_zero.
    destruct (to_boolean (VNumber (num_sqrt v))); [exact Hle|reflexivity].
  - unfold or_zero. rewrite Hv. reflexivity.
Qed.

(** X10.  The standard deviation of a field with fewer than two numeric
    values (an empty dataset, a single record, a single number among
    values that are not numbers) is 0: d3 has no variance for them. *)
Theorem calculateStandardDeviation_few_values data variable :
  length (d3_numbers (column data variable)) < 2 ->
  calculateStandardDeviation data variable = num_zero.
Proof.
  intros H. unfold calculateStandardDeviation, d3_deviation.
  rewrite (d3_variance_count _ H). reflexivity.
Qed.

(** *** Values that are not numbers in a correlation *)

Lemma num_add_nan_r x : num_add x NaN = NaN.
Proof. destruct x; reflexivity. Qed.

Lemma correlation_nan data vx vy d :
  In d data -> num_is_nan (to_number (obj_get d vx)) = true ->
  correlation data vx vy = NaN.
Proof.
  unfold correlation.
  set (xMean := or_zero (d3_mean (column data vx))).
  set (yMean := or_zero (d3_mean (column data vy))).
  match goal with |- context [fold_left ?f _ _] => set (step := f) end.
  intros Hd Hnan.
  assert (Hkeep : forall rows dx dy,
             fst (fst (fold_left step
                         (combine (column rows vx) (column rows vy))
                         (NaN, dx, dy))) = NaN).
  { induction rows as [|r rows IH]; intros dx dy; [reflexivity|].
    simpl. apply IH. }
  assert (Hinv : forall rows n dx dy,
             In d rows ->
             fst (fst (fold_left step
                         (combine (column rows vx) (column rows vy))
                         (n, dx, dy))) = NaN).
  { induction rows as [|r rows IH]; intros n dx dy Hin; [contradiction|].
    destruct Hin as [-> | Hin]; [|apply IH; exact Hin].
    simpl. destruct (to_number (obj_get d vx)); try discriminate.
    simpl. rewrite num_add_nan_r. apply Hkeep. }
  specialize (Hinv data num_zero num_zero num_zero Hd).
  destruct (fold_left step (combine (column data vx) (column data vy))
              (num_zero, num_zero, num_zero)) as [[n dx] dy].
  simpl in Hinv. subst n. reflexivity.
Qed.

(** X11.  One value that does not convert to a number spoils a
    coefficient: when the field [variables[i]] of some record is absent,
    [undefined], NaN or a string that is not a numeric literal, the
    entries (i, j) and (j, i) of the matrix are NaN for every other
    position [j], although the mean of the field skips such a value. *)
Theorem correlation_non_number_nan data variables i j vi vj d :
  variables !! i = Some vi -> variables !! j = Some vj -> i <> j ->
  In d data -> num_is_nan (to_number (obj_get d vi)) = true ->
  exists m,
    calculateCorrelationMatrix data variables = Normal m /\
    cell (cm_matrix m) i j = Some NaN /\
    cell (cm_matrix m) j i = Some NaN.
Proof.
  intros Hvi Hvj Hne Hd Hnan.
  assert (Hi : i < length variables) by (apply lookup_lt_Some in Hvi; exact Hvi).
  assert (Hj : j < length variables) by (apply lookup_lt_Some in Hvj; exact Hvj).
  destruct (correlation_matrix_cell data variables i j Hi Hj)
    as (m & Hm & _ & Hij).
  destruct (correlation_matrix_cell data variables j i Hj Hi)
    as (m' & Hm' & _ & Hji).
  assert (m' = m) by congruence. subst m'.
  exists m. split; [exact Hm|].
  unfold correlation_cell in Hij, Hji.
  rewrite (proj2 (Nat.eqb_neq i j) Hne) in Hij.
  rewrite (Nat.eqb_sym j i), (proj2 (Nat.eqb_neq i j) Hne) in Hji.
  rewrite (variable_at_lookup _ _ _ Hvi), (variable_at_lookup _ _ _ Hvj)
    in Hij, Hji.
  rewrite (correlation_sym data vj vi) in Hji.
  rewrite (correlation_nan data vi vj d Hd Hnan) in Hij, Hji.
  split; assumption.
Qed.

(** X12.  Whatever the dataset, [calculateCorrelationMatrix] returns the
    list of fields it was given and a matrix with one row and one column
    for each of them, and the loops fill in every entry: the entry (i, j)
    is 1 when [i = j], and otherwise the quotient
    [numerator / sqrt(denominatorX * denominatorY)] accumulated over the
    records from the fields [variables[i]] and [variables[j]] alone. *)
Theorem correlation_matrix_entries data variables :
  exists m,
    calculateCorrelationMatrix data variables = Normal m /\
    cm_variables m = variables /\
    square (length variables) (cm_matrix m) /\
    forall i j vi vj,
      variables !! i = Some vi -> variables !! j = Some vj ->
      cell (cm_matrix m) i j =
      Some (if i =? j then num_one else correlation data vi vj).
Proof.
  destruct (correlation_matrix_square data variables) as (m & Hm & Hsquare).
  exists m. split; [exact Hm|]. split.
  - unfold calculateCorrelationMatrix in Hm. injection Hm as <-. reflexivity.
  - split; [exact Hsquare|]. intros i j vi vj Hvi Hvj.
    assert (Hi : i < length variables)
      by (apply lookup_lt_Some in Hvi; exact Hvi).
    assert (Hj : j < length variables)
      by (apply lookup_lt_Some in Hvj; exact Hvj).
    destruct (correlation_matrix_cell data variables i j Hi Hj)
      as (m' & Hm' & _ & Hij).
    assert (m' = m) by congruence. subst m'.
    rewrite Hij. unfold correlation_cell.
    rewrite (variable_at_lookup _ _ _ Hvi), (variable_at_lookup _ _ _ Hvj).
    reflexivity.
Qed.

(** *** The value that is filled in *)


Lemma deref_valid (h copies : list record) (data : list nat) :
  Forall (fun l => l < length h) data ->
  deref (h ++ copies) data = deref h data.
Proof.
  intros Hvalid. unfold deref. apply map_ext_in. intros l Hl.
  rewrite List.Forall_forall in Hvalid. specialize (Hvalid l Hl).
  unfold heap_get. rewrite lookup_app_l by exact Hvalid. reflexivity.
Qed.

Lemma imputeMissingValues_valid h data variable method :
  Forall (fun l => l < length h) data ->
  exists h' newData,
    imputeMissingValues h data variable method = Normal (h', newData) /\
    length newData = length data /\
    forall k l, data !! k = Some l ->
      exists l',
        newData !! k = Some l' /\
        heap_get h' l' =
        impute_one variable
          (valueToImpute
             (List.filter (fun d => is_present (obj_get d variable))
                (deref h data))
             variable
             (match method with VUndefined => VString "mean" | _ => method end))
          (json_clone (heap_get h l)).
Proof.
  intros Hvalid.
  destruct (imputeMissingValues_records h data variable method)
    as (v & h' & newData & Hrun & Hv & _ & Hlen & _ & _ & Hrecords).
  rewrite (deref_valid _ _ _ Hvalid) in Hv. subst v.
  exists h', newData. split; [exact Hrun|]. split; [exact Hlen|exact Hrecords].
Qed.

Lemma json_clone_get_missing (r : record) k :
  NoDup (obj_keys r) ->
  is_missing (obj_get (json_clone r) k) =
  is_missing (obj_get r k)
  || match obj_get r k with
     | VNumber x => negb (num_is_finite x)
     | _ => false
     end.
Proof.
  intros Hnd. unfold obj_get. rewrite (json_clone_lookup r k Hnd).
  destruct (obj_lookup r k) as [[| |b|x|s]|]; simpl; try reflexivity.
  - destruct (num_is_finite x); simpl; [|reflexivity].
    destruct (num_is_zero x); reflexivity.
  - rewrite orb_false_r. reflexivity.
Qed.


Lemma impute_one_missing variable v (r : record) :
  is_missing (obj_get r variable) = true ->
  obj_get (impute_one variable v r) variable = v.
Proof.
  intros H. unfold impute_one. rewrite H, obj_get_set, String.eqb_refl.
  reflexivity.
Qed.

(** X13.  [imputeMissingValues] computes one fill value from the records
    of the original dataset in which the field is present: their
    [calculateMean] for ['mean'] (and when the method is left out), their
    [calculateMedian] for ['median'], and for ['mode'] the value of the
    first entry of their [calculateFrequencies], or 0 when that value is
    falsy or there is no entry.  The record at each position of the result
    is the copy of the original one, with the fill value stored in the
    field when the copy has it missing. *)
Theorem imputeMissingValues_fill_value h data variable method :
  Forall (fun l => l < length h) data ->
  let present :=
    List.filter (fun d => is_present (obj_get d variable)) (deref h data) in
  exists v h' newData,
    imputeMissingValues h data variable method = Normal (h', newData) /\
    (method = VString "mean" \/ method = VUndefined ->
     v = VNumber (calculateMean present variable)) /\
    (method = VString "median" ->
     v = VNumber (calculateMedian present variable)) /\
    (method = VString "mode" ->
     v = value_or_zero
           match calculateFrequencies present variable with
           | f :: _ => freq_value f
           | [] => VUndefined
           end) /\
    forall k l, data !! k = Some l ->
      exists l',
        newData !! k = Some l' /\
        heap_get h' l' = impute_one variable v (json_clone (heap_get h l)).
Proof.
  intros Hvalid present.
  destruct (imputeMissingValues_valid h data variable method Hvalid)
    as (h' & newData & Hrun & _ & Hrecords).
  fold present in Hrecords.
  eexists. exists h', newData. split; [exact Hrun|].
  split; [|split; [|split; [|exact Hrecords]]].
  - intros [-> | ->]; reflexivity.
  - intros ->. reflexivity.
  - intros ->. reflexivity.
Qed.


(** X15.  A field that holds NaN, [Infinity] or [-Infinity] is filled like
    a missing one, although the record counts among the present ones when
    the fill value is computed: the copy made through JSON reads such a
    number as [null].  The field of the result holds the fill value, which
    is not a missing value and, for ['mean'] and ['median'], not NaN. *)
Theorem imputeMissingValues_non_finite h data variable method k l x :
  method = VString "mean" \/ method = VString "median" \/ method = VString "mode" ->
  Forall (fun l => l < length h) data ->
  data !! k = Some l ->
  NoDup (obj_keys (heap_get h l)) ->
  obj_get (heap_get h l) variable = VNumber x -> num_is_finite x = false ->
  let present :=
    List.filter (fun d => is_present (obj_get d variable)) (deref h data) in
  exists h' newData l',
    imputeMissingValues h data variable method = Normal (h', newData) /\
    newData !! k = Some l' /\
    In (heap_get h l) present /\
    obj_get (heap_get h' l') variable = valueToImpute present variable method /\
    is_missing (obj_get (heap_get h' l') variable) = false /\
    (method <> VString "mode" ->
     exists y, obj_get (heap_get h' l') variable = VNumber y /\
               num_is_nan y = false).
Proof.
  intros Hmethod Hvalid Hl Hnd Hx Hfinite present.
  destruct (imputeMissingValues_valid h data variable method Hvalid)
    as (h' & newData & Hrun & _ & Hrecords).
  fold present in Hrecords.
  destruct (Hrecords k l Hl) as (l' & Hl' & Hget).
  assert (Hsame : match method with VUndefined => VString "mean" | _ => method end
                  = method)
    by (destruct Hmethod as [-> | [-> | ->]]; reflexivity).
  rewrite Hsame in Hget.
  exists h', newData, l'. split; [exact Hrun|]. split; [exact Hl'|].
  assert (Hfill : obj_get (heap_get h' l') variable =
                  valueToImpute present variable method).
  { rewrite Hget. apply impute_one_missing.
    rewrite (json_clone_get_missing _ _ Hnd), Hx, Hfinite.
    apply orb_true_r. }
  split.
  { unfold present. apply List.filter_In. split.
    - unfold deref. apply in_map. apply list_elem_of_In.
      apply (list_elem_of_lookup_2 _ k). exact Hl.
    - rewrite Hx. reflexivity. }
  split; [exact Hfill|]. rewrite Hfill. split.
  - apply valueToImpute_not_missing. exact Hmethod.
  - intros Hmode.
    destruct Hmethod as [-> | [-> | ->]]; [| |congruence].
    + eexists. split; [reflexivity|]. apply or_zero_not_nan.
    + eexists. split; [reflexivity|]. apply or_zero_not_nan.
Qed.

Lemma same_value_zero_congr a b z :
  same_value_zero a b = true -> same_value_zero a z = same_value_zero b z.
Proof.
  intros Hab. apply eq_true_iff_eq.
  rewrite !same_value_zero_spec. apply same_value_zero_spec in Hab.
  rewrite Hab. reflexivity.
Qed.

Lemma filter_map_length {A B : Type} (p : B -> bool) (f : A -> B) (l : list A) :
  length (List.filter p (map f l)) = length (List.filter (fun x => p (f x)) l).
Proof.
  induction l as [|x l IH]; simpl; [reflexivity|].
  destruct (p (f x)); simpl; rewrite IH; reflexivity.
Qed.

Lemma js_sort_head_max {A : Type} (count : A -> nat) (l : list A) f rest :
  js_sort (by_count_desc count) l = f :: rest ->
  forall e, In e l -> count e <= count f.
Proof.
  intros Hsort e He.
  pose proof (js_sort_sorted count l) as Hsorted.
  pose proof (js_sort_perm (by_count_desc count) l) as Hperm.
  rewrite Hsort in Hsorted, Hperm.
  apply (Permutation_in _ (Permutation_sym Hperm)) in He.
  destruct He as [<- | He]; [lia|].
  apply StronglySorted_inv in Hsorted. destruct Hsorted as [_ Hall].
  rewrite List.Forall_forall in Hall. apply Hall. exact He.
Qed.

Lemma calculateFrequencies_mode data variable :
  data <> [] ->
  exists f rest,
    calculateFrequencies data variable = f :: rest /\
    (exists d, In d data /\
       same_value_zero (freq_value f) (obj_get d variable) = true) /\
    forall v, In v (column data variable) ->
      occurrences v (column data variable) <=
      occurrences (freq_value f) (column data variable).
Proof.
  intros Hne.
  set (keyof := fun d : record => obj_get d variable).
  set (groups := d3_group data keyof).
  set (unsorted := map (frequency_of_group (length data)) groups).
  pose proof (calculateFrequencies_unfold data variable) as Hentries.
  fold keyof in Hentries. fold groups in Hentries. fold unsorted in Hentries.
  destruct (d3_group_partition keyof data) as (Hcover & _ & Hitems).
  fold groups in Hcover, Hitems.
  assert (Hcount : forall g, In g groups ->
            length (snd g) = occurrences (fst g) (column data variable)).
  { intros g Hg. rewrite (proj1 (Hitems g Hg)).
    unfold occurrences, column. rewrite filter_map_length. reflexivity. }
  pose proof (js_sort_perm (by_count_desc freq_count) unsorted) as Hperm.
  rewrite <- Hentries in Hperm.
  destruct (calculateFrequencies data variable) as [|f rest] eqn:Hsorted.
  { exfalso. apply Permutation_nil in Hperm.
    destruct data as [|d data]; [congruence|].
    destruct (Hcover d (or_introl eq_refl)) as (g & Hg & _).
    unfold unsorted in Hperm. destruct groups; [contradiction|discriminate]. }
  exists f, rest. split; [reflexivity|].
  assert (Hf : In f unsorted)
    by (apply (Permutation_in _ Hperm); left; reflexivity).
  apply in_map_iff in Hf. destruct Hf as (g & <- & Hg). simpl.
  split.
  - destruct (Hitems g Hg) as [Hxs Hnonempty].
    destruct (snd g) as [|d xs] eqn:Hsnd; [congruence|].
    assert (Hd : In d (List.filter (fun x => same_value_zero (fst g) (keyof x))
                         data))
      by (rewrite <- Hxs; left; reflexivity).
    apply List.filter_In in Hd. exists d. exact Hd.
  - intros v Hv. unfold column in Hv. apply in_map_iff in Hv.
    destruct Hv as (d & <- & Hd).
    destruct (Hcover d Hd) as (g' & Hg' & Hsame).
    pose proof (js_sort_head_max freq_count unsorted
                  (frequency_of_group (length data) g) rest
                  (eq_trans (eq_sym Hentries) eq_refl)
                  (frequency_of_group (length data) g')
                  (in_map _ _ _ Hg')) as Hmax.
    simpl in Hmax. rewrite (Hcount g Hg), (Hcount g' Hg') in Hmax.
    unfold occurrences in *.
    rewrite (List.filter_ext _ _
               (fun z => same_value_zero_congr _ _ z Hsame)) in Hmax.
    exact Hmax.
Qed.

(** X16.  With the method ['mode'] and at least one record in which the
    field is present, the fill value is [m || 0] for a value [m] of the
    field that occurs in the most present records (counted with the
    equality of a Map): no other present value occurs more often. *)
Theorem imputeMissingValues_mode h data variable :
  Forall (fun l => l < length h) data ->
  let present :=
    List.filter (fun d => is_present (obj_get d variable)) (deref h data) in
  present <> [] ->
  exists m h' newData,
    imputeMissingValues h data variable (VString "mode") = Normal (h', newData) /\
    (exists d, In d present /\
       same_value_zero m (obj_get d variable) = true) /\
    (forall v, In v (column present variable) ->
       occurrences v (column present variable) <=
       occurrences m (column present variable)) /\
    forall k l, data !! k = Some l ->
      exists l',
        newData !! k = Some l' /\
        heap_get h' l' =
        impute_one variable (value_or_zero m) (json_clone (heap_get h l)).
Proof.
  intros Hvalid present Hne.
  destruct (imputeMissingValues_valid h data variable (VString "mode") Hvalid)
    as (h' & newData & Hrun & _ & Hrecords).
  fold present in Hrecords.
  destruct (calculateFrequencies_mode present variable Hne)
    as (f & rest & Hsorted & Hoccurs & Hmax).
  exists (freq_value f), h', newData.
  split; [exact Hrun|]. split; [exact Hoccurs|]. split; [exact Hmax|].
  intros k l Hl. destruct (Hrecords k l Hl) as (l' & Hl' & Hget).
  exists l'. split; [exact Hl'|]. rewrite Hget.
  unfold valueToImpute. simpl. rewrite Hsorted. reflexivity.
Qed.

(** *** The values that reach a bin *)

Lemma fold_left_filter {A S : Type} (p : A -> bool) (f : S -> A -> S)
    (l : list A) (s : S) :
  fold_left (fun s x => if p x then f s x else s) (List.filter p l) s =
  fold_left (fun s x => if p x then f s x else s) l s.
Proof.
  revert s. induction l as [|x l IH]; intros s; simpl; [reflexivity|].
  destruct (p x) eqn:Hx; simpl; [rewrite Hx|]; apply IH.
Qed.

Lemma d3_bin_filter values x0 x1 thresholds :
  d3_bin
    (List.filter (fun x => not_nullish x && js_le x0 x && js_le x x1) values)
    (x0, x1) thresholds =
  d3_bin values (x0, x1) thresholds.
Proof.
  unfold d3_bin.
  apply (fold_left_filter (fun x => not_nullish x && js_le x0 x && js_le x x1)).
Qed.

(** The bins as [d3_bin] makes them: only the values within the extent
    reach a bin. *)
Lemma createBins_inside_extent data variable binCount :
  let values := column data variable in
  let x0 := fst (d3_extent values) in
  let x1 := snd (d3_extent values) in
  let bins := createBins data variable binCount in
  bins <> [] /\
  list_sum (map bin_count bins) =
    length (List.filter (fun x => not_nullish x && js_le x0 x && js_le x x1)
              values) /\
  list_sum (map bin_count bins) <= length data /\
  (forall b, In b bins ->
     bin_percentage b = percentage_of (bin_count b) (length data)) /\
  (forall i b1 b2,
     bins !! i = Some b1 -> bins !! S i = Some b2 -> binEnd b1 = binStart b2).
Proof.
  intros values x0 x1 bins.
  set (inside := fun x => not_nullish x && js_le x0 x && js_le x x1).
  assert (Hguard : Forall (fun x => inside x = true) (List.filter inside values)).
  { apply List.Forall_forall. intros x Hx. apply List.filter_In in Hx.
    exact (proj2 Hx). }
  destruct (d3_bin_spec (List.filter inside values) x0 x1 binCount Hguard)
    as (Hsum & Hcont & first & lst & Hfirst & _).
  unfold inside in Hsum, Hcont, Hfirst. rewrite d3_bin_filter in Hsum, Hcont, Hfirst.
  fold inside in Hsum.
  set (d3bins := d3_bin values (x0, x1) binCount) in *.
  set (histogram := fun b =>
                      {| binStart := value_or_zero (bin_x0 b);
                         binEnd := value_or_zero (bin_x1 b);
                         bin_count := length (bin_items b);
                         bin_percentage :=
                           percentage_of (length (bin_items b)) (length data) |}).
  assert (Hbins : bins = map histogram d3bins).
  { unfold bins, createBins, d3bins, x0, x1. fold values.
    destruct (d3_extent values). reflexivity. }
  assert (Htotal : list_sum (map bin_count bins) =
                   length (List.filter inside values)).
  { rewrite Hbins, map_map. simpl. exact Hsum. }
  split; [|split; [exact Htotal|split; [|split]]].
  - rewrite Hbins. destruct d3bins; discriminate.
  - rewrite Htotal.
    replace (length data) with (length values)
      by (unfold values, column; apply length_map).
    apply filter_length_le.
  - intros b Hb. rewrite Hbins in Hb. apply in_map_iff in Hb.
    destruct Hb as (c & <- & _). reflexivity.
  - intros i b1 b2 H1 H2. rewrite Hbins, lookup_map in H1, H2.
    destruct (d3bins !! i) as [c1|] eqn:E1; [|discriminate].
    destruct (d3bins !! S i) as [c2|] eqn:E2; [|discriminate].
    injection H1 as <-. injection H2 as <-. simpl.
    rewrite (Hcont i c1 c2 E1 E2). reflexivity.
Qed.

Lemma fold_left_skip_in {A S : Type} (p : A -> bool) (f : S -> A -> S)
    (l : list A) (s : S) :
  (forall s x, In x l -> p x = false -> f s x = s) ->
  fold_left f (List.filter p l) s = fold_left f l s.
Proof.
  revert s. induction l as [|x l IH]; intros s Hskip; simpl; [reflexivity|].
  assert (Hrest : forall s y, In y l -> p y = false -> f s y = s)
    by (intros s' y Hy; apply Hskip; right; exact Hy).
  destruct (p x) eqn:Hx; simpl; [apply IH; exact Hrest|].
  rewrite (Hskip s x (or_introl eq_refl) Hx). apply IH. exact Hrest.
Qed.

Lemma d3_extent_numbers (values : list value) :
  Forall (fun v => number_or_nullish v = true) values ->
  d3_extent values = d3_extent (List.filter is_numeric values).
Proof.
  intros Hvalues. unfold d3_extent.
  rewrite (fold_left_skip_in is_numeric _ values); [reflexivity|].
  intros state x Hx Hnumeric.
  rewrite List.Forall_forall in Hvalues. specialize (Hvalues x Hx).
  destruct x as [| |b|y|t]; try discriminate; try reflexivity.
  simpl in Hnumeric. destruct y; try discriminate.
  destruct state as [[min max]|]; [|reflexivity].
  cbn [not_nullish]. replace (js_lt (VNumber S754_nan) min) with false
    by (destruct min; reflexivity).
  replace (js_lt max (VNumber S754_nan)) with false; [reflexivity|].
  destruct max as [| |b|y|t]; simpl; try reflexivity.
  - destruct b; reflexivity.
  - destruct y; reflexivity.
  - destruct (StringToNumber t); reflexivity.
Qed.

Lemma js_le_undefined_l v : js_le VUndefined v = false.
Proof. destruct v; reflexivity. Qed.

Lemma js_le_nan_r x : js_le (VNumber x) (VNumber NaN) = false.
Proof. destruct x; reflexivity. Qed.

(** X17.  On a dataset in which the field is a number, [null] or
    [undefined] (or absent) in every record, [createBins] returns at least
    one bin, each bin begins where the one before it ends, and the counts
    of the bins add up to the number of records in which the field is a
    number other than NaN: a record in which it is [null], [undefined] or
    NaN is in no bin, so the counts may add up to less than the number of
    records. *)
Theorem createBins_counts data variable binCount :
  Forall (fun d => number_or_nullish (obj_get d variable) = true) data ->
  let bins := createBins data variable binCount in
  bins <> [] /\
  list_sum (map bin_count bins) =
    length (List.filter (fun d => is_numeric (obj_get d variable)) data) /\
  (forall i b1 b2,
     bins !! i = Some b1 -> bins !! S i = Some b2 -> binEnd b1 = binStart b2).
Proof.
  intros Hdata bins.
  destruct (createBins_inside_extent data variable binCount)
    as (Hne & Hsum & _ & _ & Hcont).
  fold bins in Hne, Hsum, Hcont.
  split; [exact Hne|]. split; [|exact Hcont].
  rewrite Hsum. clear Hne Hsum Hcont.
  set (values := column data variable).
  assert (Hvalues : Forall (fun v => number_or_nullish v = true) values).
  { unfold values, column. apply List.Forall_forall. intros v Hv.
    apply in_map_iff in Hv. destruct Hv as (d & <- & Hd).
    rewrite List.Forall_forall in Hdata. apply Hdata. exact Hd. }
  replace (length (List.filter (fun d => is_numeric (obj_get d variable)) data))
    with (length (List.filter is_numeric values))
    by (unfold values, column; apply filter_map_length).
  f_equal. rewrite (d3_extent_numbers values Hvalues).
  apply List.filter_ext_in. intros x Hx.
  rewrite List.Forall_forall in Hvalues. specialize (Hvalues x Hx).
  destruct (List.filter is_numeric values) as [|y numbers] eqn:Hnumbers.
  - assert (Hx' : is_numeric x = false).
    { destruct (is_numeric x) eqn:E; [|reflexivity].
      assert (Hin : In x (List.filter is_numeric values))
        by (apply List.filter_In; split; assumption).
      rewrite Hnumbers in Hin. contradiction. }
    rewrite Hx'. change (d3_extent []) with (VUndefined, VUndefined).
    cbn [fst snd]. rewrite js_le_undefined_l, andb_false_r. reflexivity.
  - destruct (d3_extent_numeric (y :: numbers))
      as (lo & hi & -> & _ & _ & _ & _ & Hbounds); [discriminate| |].
    { rewrite <- Hnumbers. apply List.Forall_forall. intros v Hv.
      apply List.filter_In in Hv. exact (proj2 Hv). }
    cbn [fst snd]. destruct (is_numeric x) eqn:Hnumeric.
    + assert (Hin : In x (y :: numbers))
        by (rewrite <- Hnumbers; apply List.filter_In; split; assumption).
      destruct (Hbounds x Hin) as [Hlo Hhi]. rewrite Hlo, Hhi.
      destruct x; try discriminate. reflexivity.
    + destruct x as [| |b|z|t]; try discriminate; try reflexivity.
      simpl in Hnumeric. destruct z; try discriminate.
      cbn [not_nullish]. rewrite js_le_nan_r. reflexivity.
Qed.

(** *** Quantiles *)

Lemma d3_numbers_not_nan (values : list value) x :
  In x (d3_numbers values) -> num_is_nan x = false.
Proof.
  unfold d3_numbers. rewrite <- list_elem_of_In, list_elem_of_omap.
  intros (v & _ & Hv). unfold d3_number in Hv.
  destruct (not_nullish v); [|discriminate].
  destruct (num_leb (to_number v) (to_number v)) eqn:Hle; [|discriminate].
  injection Hv as <-. destruct (to_number v); try reflexivity; discriminate.
Qed.

Lemma or_zero_eqb x :
  num_is_nan x = false -> num_eqb (or_zero (Some x)) x = true.
Proof.
  intros Hx. unfold or_zero. simpl. rewrite Hx, orb_false_r.
  destruct (num_is_zero x) eqn:Hzero; simpl.
  - destruct x; try discriminate. reflexivity.
  - apply num_eqb_refl. exact Hx.
Qed.

Lemma num_leb_not_nan_l x y : num_leb x y = true -> num_is_nan x = false.
Proof. destruct x; try reflexivity. discriminate. Qed.

Lemma num_leb_not_nan_r x y : num_leb x y = true -> num_is_nan y = false.
Proof. destruct y; try reflexivity. destruct x; discriminate. Qed.

(** X18.  [calculateQuantiles] returns one number for each requested
    quantile, three when the list is left out, and none of them is NaN.
    When the field holds no value that counts as a number (in particular
    on the empty dataset) every one of them is 0. *)
Theorem calculateQuantiles_default_to_zero data variable q :
  let requested :=
    match q with
    | Some q => q
    | None => [num_quarter; num_half; num_three_quarters]
    end in
  length (calculateQuantiles data variable q) = length requested /\
  Forall (fun x => num_is_nan x = false) (calculateQuantiles data variable q) /\
  (Forall (fun d => d3_number (obj_get d variable) = None) data ->
   calculateQuantiles data variable q = map (fun _ => num_zero) requested).
Proof.
  intros requested. unfold calculateQuantiles. fold requested.
  split; [apply length_map|]. split.
  - apply List.Forall_forall. intros x Hx. apply in_map_iff in Hx.
    destruct Hx as (p & <- & _). apply or_zero_not_nan.
  - intros Hnone. apply map_ext. intros p.
    assert (Hcol : Forall (fun v => d3_number v = None) (column data variable)).
    { unfold column. induction Hnone; simpl; constructor; auto. }
    unfold d3_quantile. rewrite (d3_numbers_none _ Hcol). reflexivity.
Qed.

(** X19.  When the field has a numeric value, a requested quantile that is
    0 or less gives the least of the numeric values and one that is 1 or
    more gives the greatest (as numbers: a zero is returned as +0), so
    [calculateQuantiles(data, f, [0, 1])] is the range of the field. *)
Theorem calculateQuantiles_extremes data variable :
  let numbers := d3_numbers (column data variable) in
  numbers <> [] ->
  exists lo hi,
    In lo numbers /\ In hi numbers /\
    (forall x, In x numbers -> num_leb lo x = true /\ num_leb x hi = true) /\
    forall q k p, q !! k = Some p ->
      (num_leb p num_zero = true ->
       exists x, calculateQuantiles data variable (Some q) !! k = Some x /\
                 num_eqb x lo = true) /\
      (num_leb num_one p = true ->
       exists x, calculateQuantiles data variable (Some q) !! k = Some x /\
                 num_eqb x hi = true).
Proof.
  intros numbers Hne.
  assert (Hnan : forall x, In x numbers -> num_is_nan x = false)
    by (intros x; apply d3_numbers_not_nan).
  destruct (d3_min_max_numeric (map VNumber numbers))
    as (lo & hi & Hmin & Hmax & Hlo & Hhi & Hinlo & Hinhi & Hbounds).
  { destruct numbers; [congruence|discriminate]. }
  { apply List.Forall_forall. intros v Hv. apply in_map_iff in Hv.
    destruct Hv as (x & <- & Hx). simpl. rewrite (Hnan x Hx). reflexivity. }
  assert (Hmember : forall x, In (VNumber x) (map VNumber numbers) -> In x numbers).
  { intros x Hx. apply in_map_iff in Hx. destruct Hx as (y & Hy & Hin).
    injection Hy as <-. exact Hin. }
  exists lo, hi. split; [apply Hmember; exact Hinlo|].
  split; [apply Hmember; exact Hinhi|]. split.
  { intros x Hx. apply (Hbounds (VNumber x)). apply in_map. exact Hx. }
  intros q k p Hp.
  assert (Hk : calculateQuantiles data variable (Some q) !! k =
               Some (or_zero (d3_quantile (column data variable) p))).
  { unfold calculateQuantiles. rewrite lookup_map, Hp. reflexivity. }
  rewrite Hk. unfold d3_quantile. fold numbers.
  assert (Hlen : (length numbers =? 0) = false).
  { apply Nat.eqb_neq. destruct numbers; [congruence|discriminate]. }
  rewrite Hlen. simpl orb. split.
  - intros Hle. rewrite (num_leb_not_nan_l _ _ Hle), Hle. simpl.
    rewrite Hmin. simpl number_of. eexists. split; [reflexivity|].
    apply or_zero_eqb. exact Hlo.
  - intros Hge. rewrite (num_leb_not_nan_r _ _ Hge).
    assert (Hpos : num_leb p num_zero = false).
    { destruct (num_leb p num_zero) eqn:Hle; [|reflexivity].
      assert (Habsurd : num_leb num_one num_zero = true).
      { apply (num_leb_trans num_one p num_zero); try reflexivity;
          try assumption. apply (num_leb_not_nan_r _ _ Hge). }
      vm_compute in Habsurd. discriminate. }
    rewrite Hpos. simpl orb.
    destruct (length numbers <? 2) eqn:Hfew.
    + rewrite Hmin. simpl number_of. eexists. split; [reflexivity|].
      assert (Heq : lo = hi).
      { apply Nat.ltb_lt in Hfew.
        destruct numbers as [|a [|b rest]]; [congruence| |simpl in Hfew; lia].
        simpl in Hinlo, Hinhi.
        destruct Hinlo as [Ha | []]. destruct Hinhi as [Hb | []]. congruence. }
      rewrite <- Heq. apply or_zero_eqb. exact Hlo.
    + rewrite Hge, Hmax. simpl number_of. eexists. split; [reflexivity|].
      apply or_zero_eqb. exact Hhi.
Qed.

(** X21.  On the empty dataset [createBins] still returns bins, at least
    one: every bin has the count 0 and the percentage NaN (0 / 0 * 100),
    the first one starts at 0 and the last one ends at 0. *)
Theorem createBins_empty_dataset variable binCount :
  let bins := createBins [] variable binCount in
  bins <> [] /\
  Forall (fun b => bin_count b = 0 /\ bin_percentage b = NaN) bins /\
  exists first lst,
    head bins = Some first /\ last bins = Some lst /\
    binStart first = VNumber num_zero /\ binEnd lst = VNumber num_zero.
Proof.
  intros bins.
  destruct (d3_bin_spec [] VUndefined VUndefined binCount (List.Forall_nil _))
    as (_ & _ & first & lst & Hfirst & Hlast & Hx0 & Hx1).
  set (histogram := fun b =>
                      {| binStart := value_or_zero (bin_x0 b);
                         binEnd := value_or_zero (bin_x1 b);
                         bin_count := length (bin_items b);
                         bin_percentage :=
                           percentage_of (length (bin_items b)) 0 |}).
  assert (Hbins : bins =
                  map histogram (d3_bin [] (VUndefined, VUndefined) binCount))
    by reflexivity.
  assert (Hitems : Forall (fun b => bin_items b = [])
                     (d3_bin [] (VUndefined, VUndefined) binCount)).
  { unfold d3_bin. cbn [fold_left]. apply List.Forall_forall. intros b Hb.
    apply in_map_iff in Hb. destruct Hb as (i & <- & _). reflexivity. }
  set (d3bins := d3_bin [] (VUndefined, VUndefined) binCount) in *.
  rewrite Hbins. split; [destruct d3bins; discriminate|]. split.
  - apply List.Forall_forall. intros b Hb. apply in_map_iff in Hb.
    destruct Hb as (c & <- & Hc). rewrite List.Forall_forall in Hitems.
    simpl. rewrite (Hitems c Hc). split; reflexivity.
  - exists (histogram first), (histogram lst).
    split; [destruct d3bins; [discriminate|]; simpl in *; congruence|].
    split.
    { rewrite last_lookup in Hlast.
      rewrite last_lookup, length_map, lookup_map, Hlast. reflexivity. }
    simpl. rewrite Hx0, Hx1. split; reflexivity.
Qed.

(** *** The values that the statistics skip *)

Lemma fold_left_skip {A S : Type} (p : A -> bool) (f : S -> A -> S)
    (l : list A) (s : S) :
  (forall s x, p x = false -> f s x = s) ->
  fold_left f (List.filter p l) s = fold_left f l s.
Proof.
  intros Hskip. revert s.
  induction l as [|x l IH]; intros s; simpl; [reflexivity|].
  destruct (p x) eqn:Hx; simpl; [apply IH|].
  rewrite (Hskip s x Hx). apply IH.
Qed.

Lemma column_filter (p : value -> bool) data variable :
  column (List.filter (fun d => p (obj_get d variable)) data) variable =
  List.filter p (column data variable).
Proof.
  unfold column. induction data as [|d data IH]; simpl; [reflexivity|].
  destruct (p (obj_get d variable)); simpl; rewrite IH; reflexivity.
Qed.

Lemma d3_numbers_filter (values : list value) :
  d3_numbers
    (List.filter (fun v => match d3_number v with Some _ => true | None => false end)
       values) =
  d3_numbers values.
Proof.
  induction values as [|v values IH]; [reflexivity|].
  cbn [List.filter]. rewrite (d3_numbers_cons v values).
  destruct (d3_number v) eqn:Hv; [|exact IH].
  rewrite d3_numbers_cons, Hv, IH. reflexivity.
Qed.

(** X22.  The statistics of a field skip the records in which the field
    does not count as a number ([null], [undefined], absent, NaN, a string
    that is not a numeric literal): leaving those records out of the
    dataset changes none of [calculateMean], [calculateMedian],
    [calculateStandardDeviation] and [calculateQuantiles]. *)
Theorem statistics_skip_non_numbers data variable :
  let kept :=
    List.filter (fun d => match d3_number (obj_get d variable) with
                          | Some _ => true
                          | None => false
                          end) data in
  calculateMean kept variable = calculateMean data variable /\
  calculateMedian kept variable = calculateMedian data variable /\
  calculateStandardDeviation kept variable =
    calculateStandardDeviation data variable /\
  forall q, calculateQuantiles kept variable q = calculateQuantiles data variable q.
Proof.
  intros kept.
  set (numeric := fun v => match d3_number v with Some _ => true | None => false end).
  assert (Hcolumn : column kept variable = List.filter numeric (column data variable))
    by apply (column_filter numeric).
  assert (Hnumbers : d3_numbers (column kept variable) =
                     d3_numbers (column data variable))
    by (rewrite Hcolumn; apply d3_numbers_filter).
  assert (Hmean : d3_mean (column kept variable) = d3_mean (column data variable)).
  { rewrite Hcolumn. unfold d3_mean.
    rewrite (fold_left_skip numeric); [reflexivity|].
    intros [count sum] v Hv. unfold numeric in Hv.
    destruct (d3_number v); [discriminate|reflexivity]. }
  assert (Hvariance : d3_variance (column kept variable) =
                      d3_variance (column data variable)).
  { rewrite Hcolumn. unfold d3_variance.
    rewrite (fold_left_skip numeric); [reflexivity|].
    intros [[count mean] sum] v Hv. unfold numeric in Hv.
    destruct (d3_number v); [discriminate|reflexivity]. }
  unfold calculateMean, calculateMedian, calculateStandardDeviation,
    calculateQuantiles, d3_deviation, d3_median, d3_quantile.
  rewrite Hmean, Hvariance, Hnumbers.
  repeat split.
Qed.

End Runtime.

(** ** The properties on the examples *)

(** Closed lists of strings without duplicates. *)
Ltac distinct_strings :=
  repeat (apply NoDup_cons_2;
          [rewrite list_elem_of_In; simpl; intuition discriminate|]);
  apply NoDup_nil_2.

Example one_half : num_div num_one (num_of_Z 2) = num_half.
Proof. vm_compute. reflexivity. Qed.

Example one_tenth : num_div num_one (num_of_Z 10) = num_tenth.
Proof. vm_compute. reflexivity. Qed.

(** The examples of the specification. *)
Example correlation_of_a_line :
  calculateCorrelationMatrix example_StringToNumber example_xy ["x"; "y"] =
  Normal {| cm_variables := ["x"; "y"];
            cm_matrix := [[num_one; num_one]; [num_one; num_one]] |}.
Proof. vm_compute. reflexivity. Qed.

Example frequencies_of_three :
  map (fun e => (freq_value e, freq_count e))
    (calculateFrequencies example_categories "c") =
  [(VString "x", 2); (VString "y", 1)].
Proof. vm_compute. reflexivity. Qed.

(** Integer-like ids are enumerated in ascending order, whatever the order
    of the records. *)
Example longToWide_orders_integer_ids :
  longToWide example_NumberToString
    (wideToLong [[("id", num 2); ("x", VString "second")];
                 [("id", num 1); ("x", VString "first")]] "id" ["x"])
    "id" "variable" "value" =
  Some [[("x", VString "first")]; [("x", VString "second")]].
Proof. vm_compute. reflexivity. Qed.

(** An id that names a member of [Object.prototype] takes [longToWide]
    out of what is embedded. *)
Example longToWide_inherited_id :
  longToWide example_NumberToString
    [ [("id", VString "constructor"); ("variable", VString "x");
       ("value", num 1)] ]
    "id" "variable" "value" = None.
Proof. vm_compute. reflexivity. Qed.

(** C1 fails as stated: the ids are unique and so are the value fields,
    yet the records that come back have lost their id field. *)
Lemma wideToLong_longToWide_loses_id :
  NoDup (map (id_key example_NumberToString "id") example_wide) /\
  longToWide example_NumberToString
    (wideToLong example_wide "id" ["x"; "y"]) "id" "variable" "value" =
  Some [ [("x", num 1); ("y", num 2)]; [("x", num 3); ("y", num 4)] ] /\
  longToWide example_NumberToString
    (wideToLong example_wide "id" ["x"; "y"]) "id" "variable" "value" <>
  Some example_wide.
Proof.
  split; [|split].
  - vm_compute. distinct_strings.
  - vm_compute. reflexivity.
  - vm_compute. discriminate.
Qed.

Lemma wideToLong_longToWide_value_fields_witness :
  "id" <> "variable" /\ "id" <> "value" /\ ["x"; "y"] <> [] /\
  created_in_order [] (map (id_key example_NumberToString "id") example_wide)
  = true /\
  Forall (fun row => inherited (id_key example_NumberToString "id" row) = false)
    example_wide /\
  ~ In "__proto__" ["x"; "y"] /\
  exists wide : list record,
    longToWide example_NumberToString
      (wideToLong example_wide "id" ["x"; "y"]) "id" "variable" "value"
    = Some wide /\
    length wide = length example_wide /\
    forall (k : nat) (row : record),
      example_wide !! k = Some row ->
      exists out : record,
        wide !! k = Some out /\
        (forall c, In c ["x"; "y"] -> obj_get out c = obj_get row c) /\
        (forall c, ~ In c ["x"; "y"] -> obj_lookup out c = None).
Proof.
  assert (H1 : "id" <> "variable") by discriminate.
  assert (H2 : "id" <> "value") by discriminate.
  assert (H3 : ["x"; "y"] <> []) by discriminate.
  assert (H4 : Forall (fun row =>
                         inherited (id_key example_NumberToString "id" row)
                         = false) example_wide)
    by (repeat constructor).
  assert (H5 : ~ In "__proto__" ["x"; "y"])
    by (intros [E | [E | []]]; discriminate E).
  exact (conj H1 (conj H2 (conj H3 (conj eq_refl (conj H4 (conj H5
           (wideToLong_longToWide_value_fields example_NumberToString
              example_wide "id" ["x"; "y"] H1 H2 H3 eq_refl H4 H5))))))).
Defined.

(** C2 fails as stated: a method that is none of the three is not
    rejected; the call returns normally and the missing values of the
    field read [undefined] in the copies. *)
Lemma imputeMissingValues_accepts_unknown_method :
  imputeMissingValues example_StringToNumber example_heap example_data
    "a" (VString "nearest") =
  Normal (example_heap ++
          [ [("a", VUndefined); ("b", num 1)];
            [("a", num 3); ("b", VString "")];
            [("a", num 1); ("b", VNull)] ],
          [3; 4; 5]).
Proof. vm_compute. reflexivity. Qed.

Lemma imputeMissingValues_unknown_method_witness :
  VString "nearest" <> VString "mean" /\
  VString "nearest" <> VString "median" /\
  VString "nearest" <> VString "mode" /\
  exists h' newData,
    imputeMissingValues example_StringToNumber example_heap example_data
      "a" (VString "nearest") = Normal (h', newData) /\
    length newData = length example_data /\
    (VString "nearest" = VUndefined ->
     imputeMissingValues example_StringToNumber example_heap example_data
       "a" (VString "nearest") =
     imputeMissingValues example_StringToNumber example_heap example_data
       "a" (VString "mean")) /\
    (VString "nearest" <> VUndefined ->
     forall k l, example_data !! k = Some l ->
       exists l', newData !! k = Some l' /\
         heap_get h' l' =
         impute_one "a" VUndefined (json_clone (heap_get example_heap l))).
Proof.
  split; [discriminate|]. split; [discriminate|]. split; [discriminate|].
  apply (imputeMissingValues_unknown_method example_StringToNumber);
    discriminate.
Defined.

Lemma correlation_matrix_symmetric_unit_diagonal_witness :
  0 < length ["x"; "y"] /\ 1 < length ["x"; "y"] /\
  exists m,
    calculateCorrelationMatrix example_StringToNumber example_xy ["x"; "y"]
    = Normal m /\
    cell (cm_matrix m) 0 0 = Some num_one /\
    exists x, cell (cm_matrix m) 0 1 = Some x /\ cell (cm_matrix m) 1 0 = Some x.
Proof.
  split; [simpl; lia|]. split; [simpl; lia|].
  apply (correlation_matrix_symmetric_unit_diagonal example_StringToNumber);
    simpl; lia.
Defined.

Lemma imputeMissingValues_fills_witness :
  (VString "mode" = VString "mean" \/ VString "mode" = VString "median"
   \/ VString "mode" = VString "mode") /\
  exists h' newData,
    imputeMissingValues example_StringToNumber example_heap example_data
      "b" (VString "mode") = Normal (h', newData) /\
    (forall l, l < length example_heap -> h' !! l = example_heap !! l) /\
    Forall (fun l => length example_heap <= l) newData /\
    length newData = length example_data /\
    (forall e, In e (countMissingValues (deref h' newData)) ->
               mr_variable e = "b" -> mr_count e = 0) /\
    (example_data <> [] -> inherited "b" = false ->
     exists e, In e (countMissingValues (deref h' newData)) /\
               mr_variable e = "b") /\
    (Forall json_record (deref example_heap example_data) ->
     exists v,
       is_missing v = false /\
       forall k l, example_data !! k = Some l ->
         exists l',
           newData !! k = Some l' /\
           (is_missing (obj_get (heap_get example_heap l) "b") = true ->
            obj_get (heap_get h' l') "b" = v) /\
           (forall f,
              f <> "b" \/ is_missing (obj_get (heap_get example_heap l) f) = false ->
              strict_equals (obj_get (heap_get h' l') f)
                (obj_get (heap_get example_heap l) f) = true)).
Proof.
  split; [right; right; reflexivity|].
  apply (imputeMissingValues_fills example_StringToNumber).
  right; right; reflexivity.
Defined.

(** C5 fails as stated: the three values of [x] coincide, yet their
    computed mean is 0.10000000000000002, the deviations are not zero, and
    the entry is 0, not NaN. *)
Lemma correlation_of_equal_tenths_is_zero :
  calculateCorrelationMatrix example_StringToNumber example_tenths ["x"; "y"] =
  Normal {| cm_variables := ["x"; "y"];
            cm_matrix := [[num_one; num_zero]; [num_zero; num_one]] |}.
Proof. vm_compute. reflexivity. Qed.

Lemma correlation_zero_variance_nan_witness :
  ["x"; "y"] !! 0 = Some "x" /\ ["x"; "y"] !! 1 = Some "y" /\ 0 <> 1 /\
  constant_at_mean example_StringToNumber example_constant "x" /\
  exists m,
    calculateCorrelationMatrix example_StringToNumber example_constant ["x"; "y"]
    = Normal m /\
    (constant_at_mean example_StringToNumber example_constant "x" \/
     constant_at_mean example_StringToNumber example_constant "y" ->
     cell (cm_matrix m) 0 1 = Some NaN).
Proof.
  split; [reflexivity|]. split; [reflexivity|]. split; [lia|].
  split; [repeat constructor|].
  apply (correlation_zero_variance_nan example_StringToNumber _ _ 0 1 "x" "y");
    [reflexivity|reflexivity|lia].
Defined.

(** The entry of the example, evaluated: NaN off the diagonal. *)
Example correlation_of_a_constant :
  calculateCorrelationMatrix example_StringToNumber example_constant ["x"; "y"] =
  Normal {| cm_variables := ["x"; "y"];
            cm_matrix := [[num_one; NaN]; [NaN; num_one]] |}.
Proof. vm_compute. reflexivity. Qed.

(** A string that holds a number counts as a number. *)
Example mean_of_a_numeric_string :
  calculateMean example_StringToNumber [[("x", VString "5")]] "x" = num_of_Z 5.
Proof. vm_compute. reflexivity. Qed.

(** C6 fails as stated: no value of the field is a number, one is the
    string ['5'] and the other the boolean [true], yet they are counted
    as 5 and 1 and none of the three statistics is 0. *)
Lemma statistics_of_non_numbers_not_zero :
  let data := [ [("x", VString "5")]; [("x", VBool true)] ] in
  Forall (fun d => is_numeric (obj_get d "x") = false) data /\
  calculateMean example_StringToNumber data "x" = num_of_Z 3 /\
  calculateMedian example_StringToNumber data "x" = num_of_Z 3 /\
  calculateStandardDeviation example_StringToNumber data "x"
  = num_sqrt (num_of_Z 8) /\
  num_of_Z 3 <> num_zero /\ num_sqrt (num_of_Z 8) <> num_zero.
Proof.
  split; [repeat constructor|]. split; [vm_compute; reflexivity|].
  split; [vm_compute; reflexivity|]. split; [vm_compute; reflexivity|].
  split; vm_compute; discriminate.
Qed.

Lemma statistics_default_to_zero_witness :
  let data :=
    [ [("c", VString "")]; [("c", VNull)]; [("c", VString "x")];
      [("c", VBool false)]; [("d", num 1)] ] in
  Forall (fun d => skipped_or_zero example_StringToNumber (obj_get d "c") = true)
    data /\
  calculateMean example_StringToNumber data "c" = num_zero /\
  calculateMedian example_StringToNumber data "c" = num_zero /\
  calculateStandardDeviation example_StringToNumber data "c" = num_zero.
Proof.
  assert (H : Forall (fun d => skipped_or_zero example_StringToNumber
                                 (obj_get d "c") = true)
                [ [("c", VString "")]; [("c", VNull)]; [("c", VString "x")];
                  [("c", VBool false)]; [("d", num 1)] ])
    by (repeat constructor).
  exact (conj H (statistics_default_to_zero example_StringToNumber _ "c" H)).
Defined.

(** C7 fails as stated: the empty dataset has no entry, and its
    percentages sum to 0. *)
Lemma frequencies_of_empty_dataset :
  calculateFrequencies [] "c" = [] /\
  num_sum (map freq_percentage (calculateFrequencies [] "c")) = num_zero /\
  ~ (Qabs (Qsum (map (fun e => num_value (freq_percentage e))
                   (calculateFrequencies [] "c")) - 100)
     <= percentage_tolerance)%Q.
Proof.
  split; [reflexivity|]. split; [reflexivity|].
  intros H. vm_compute in H. now apply H.
Qed.

(** Three values, each a third of the records: the percentages are
    33.33333333333333 each, and their sum is below 100, by less than
    the tolerance. *)
Example frequencies_of_thirds :
  let data := [ [("c", VString "a")]; [("c", VString "b")];
                [("c", VString "c")] ] in
  let sum := Qsum (map (fun e => num_value (freq_percentage e))
                     (calculateFrequencies data "c")) in
  map freq_count (calculateFrequencies data "c") = [1; 1; 1] /\
  (sum < 100)%Q /\ (Qabs (sum - 100) <= percentage_tolerance)%Q.
Proof.
  cbv zeta. split; [reflexivity|]. split.
  - vm_compute. reflexivity.
  - intros H. vm_compute in H. discriminate H.
Qed.

Lemma createBins_partition_witness :
  example_xy <> [] /\
  Forall (fun d => is_numeric (obj_get d "x") = true) example_xy /\
  let bins :=
    createBins example_StringToNumber example_ticks example_xy "x" (num_of_Z 2) in
  list_sum (map bin_count bins) = length example_xy /\
  (forall i b1 b2,
     bins !! i = Some b1 -> bins !! S i = Some b2 -> binEnd b1 = binStart b2) /\
  exists lo hi first lst,
    In (VNumber lo) (column example_xy "x") /\
    In (VNumber hi) (column example_xy "x") /\
    (forall v, In v (column example_xy "x") ->
       js_le example_StringToNumber (VNumber lo) v = true /\
       js_le example_StringToNumber v (VNumber hi) = true) /\
    head bins = Some first /\ last bins = Some lst /\
    strict_equals (binStart first) (VNumber lo) = true /\
    strict_equals (binEnd lst) (VNumber hi) = true.
Proof.
  assert (H : Forall (fun d => is_numeric (obj_get d "x") = true) example_xy)
    by (repeat constructor).
  split; [discriminate|]. split; [exact H|].
  apply (createBins_partition example_StringToNumber example_ticks);
    [discriminate|exact H].
Defined.

(** The bins of the example: [1, 2) with one value and [2, 3] with two. *)
Example bins_of_three :
  map (fun b => (binStart b, binEnd b, bin_count b))
    (createBins example_StringToNumber example_ticks example_xy "x" (num_of_Z 2))
  = [(num 1, num 2, 1); (num 2, num 3, 2)].
Proof. vm_compute. reflexivity. Qed.

Lemma imputeMissingValues_frame_witness :
  Forall json_record (deref example_heap example_data) /\
  exists h' newData,
    imputeMissingValues example_StringToNumber example_heap example_data
      "a" (VString "mean") = Normal (h', newData) /\
    forall k l, example_data !! k = Some l ->
      exists l', newData !! k = Some l' /\
        forall f,
          f <> "a" \/ is_missing (obj_get (heap_get example_heap l) f) = false ->
          strict_equals (obj_get (heap_get h' l') f)
            (obj_get (heap_get example_heap l) f) = true.
Proof.
  assert (H : Forall json_record (deref example_heap example_data)).
  { unfold example_data, example_heap. simpl.
    repeat (apply List.Forall_cons;
            [split; [vm_compute; distinct_strings|repeat constructor]|]).
    apply List.Forall_nil. }
  split; [exact H|].
  apply (imputeMissingValues_frame example_StringToNumber). exact H.
Defined.

Lemma correlation_matrix_empty_dataset_witness :
  0 < length ["x"; "y"] /\ 1 < length ["x"; "y"] /\
  exists m,
    calculateCorrelationMatrix example_StringToNumber [] ["x"; "y"] = Normal m /\
    square (length ["x"; "y"]) (cm_matrix m) /\
    cell (cm_matrix m) 0 1 = Some (if 0 =? 1 then num_one else NaN).
Proof.
  split; [simpl; lia|]. split; [simpl; lia|].
  apply (correlation_matrix_empty_dataset example_StringToNumber); simpl; lia.
Defined.

(** ** The further properties on the examples *)

Example quarters :
  num_div num_one (num_of_Z 4) = num_quarter /\
  num_div (num_of_Z 3) (num_of_Z 4) = num_three_quarters.
Proof. split; reflexivity. Qed.

(** The quartiles of 1, 2, 3, 4 are 1.75, 2.5 and 3.25. *)
Example quartiles_of_four :
  calculateQuantiles example_StringToNumber
    [[("x", num 1)]; [("x", num 2)]; [("x", num 3)]; [("x", num 4)]] "x" None =
  [ num_div (num_of_Z 7) (num_of_Z 4); num_div (num_of_Z 5) (num_of_Z 2);
    num_div (num_of_Z 13) (num_of_Z 4) ].
Proof. vm_compute. reflexivity. Qed.

(** The example of the specification: the groups [a] and [b], with 2
    records of mean 15 and 1 record of mean 5. *)
Example summaries_of_two_groups :
  map (fun s => (gs_group s, gs_count s, gs_mean s, gs_min s, gs_max s))
    (summarizeByGroup example_StringToNumber example_groups "g" "v") =
  [ (VString "a", 2, num_of_Z 15, num 10, num 20);
    (VString "b", 1, num_of_Z 5, num 5, num 5) ].
Proof. vm_compute. reflexivity. Qed.

Lemma wideToLong_row_shape_witness :
  let out := [("id", VString "a"); ("variable", VString "y"); ("value", num 2)] in
  In out (wideToLong example_wide "id" ["x"; "y"]) /\
  exists row column,
    In row example_wide /\ In column ["x"; "y"] /\
    obj_get out "variable" = VString column /\
    obj_get out "value" = obj_get row column /\
    obj_get out "id" =
      (if String.eqb "id" "variable" then VString column
       else if String.eqb "id" "value" then obj_get row column
       else obj_get row "id") /\
    obj_keys out =
      (if String.eqb "id" "variable" then ["variable"; "value"]
       else if String.eqb "id" "value" then ["value"; "variable"]
       else ["id"; "variable"; "value"]).
Proof.
  assert (H : In [("id", VString "a"); ("variable", VString "y"); ("value", num 2)]
                (wideToLong example_wide "id" ["x"; "y"]))
    by (right; left; reflexivity).
  exact (conj H (wideToLong_row_shape example_wide "id" ["x"; "y"] _ H)).
Defined.

Lemma summarizeByGroup_min_max_witness :
  Forall (fun d => is_numeric (obj_get d "v") = true) example_groups /\
  exists s,
    In s (summarizeByGroup example_StringToNumber example_groups "g" "v") /\
    exists lo hi,
      strict_equals (gs_min s) (VNumber lo) = true /\
      strict_equals (gs_max s) (VNumber hi) = true /\
      num_leb lo hi = true /\
      (exists d, In d example_groups /\
         same_value_zero (gs_group s) (obj_get d "g") = true /\
         obj_get d "v" = VNumber lo) /\
      (exists d, In d example_groups /\
         same_value_zero (gs_group s) (obj_get d "g") = true /\
         obj_get d "v" = VNumber hi) /\
      forall d, In d example_groups ->
        same_value_zero (gs_group s) (obj_get d "g") = true ->
        js_le example_StringToNumber (VNumber lo) (obj_get d "v") = true /\
        js_le example_StringToNumber (obj_get d "v") (VNumber hi) = true.
Proof.
  assert (H1 : Forall (fun d => is_numeric (obj_get d "v") = true) example_groups)
    by (repeat constructor).
  split; [exact H1|].
  exists (hd {| gs_group := VUndefined; gs_count := 0; gs_mean := num_zero;
                gs_median := num_zero; gs_stdDev := num_zero;
                gs_min := VUndefined; gs_max := VUndefined |}
            (summarizeByGroup example_StringToNumber example_groups "g" "v")).
  assert (H2 : In (hd {| gs_group := VUndefined; gs_count := 0; gs_mean := num_zero;
                         gs_median := num_zero; gs_stdDev := num_zero;
                         gs_min := VUndefined; gs_max := VUndefined |}
                     (summarizeByGroup example_StringToNumber example_groups "g" "v"))
                (summarizeByGroup example_StringToNumber example_groups "g" "v"))
    by (left; reflexivity).
  exact (conj H2 (summarizeByGroup_min_max example_StringToNumber example_groups
                    "g" "v" _ H1 H2)).
Defined.

Lemma calculateStandardDeviation_few_values_witness :
  length (d3_numbers example_StringToNumber (column [[("x", num 5)]] "x")) < 2 /\
  calculateStandardDeviation example_StringToNumber [[("x", num 5)]] "x" = num_zero.
Proof.
  assert (H : length (d3_numbers example_StringToNumber
                        (column [[("x", num 5)]] "x")) < 2)
    by (vm_compute; lia).
  exact (conj H (calculateStandardDeviation_few_values example_StringToNumber
                   [[("x", num 5)]] "x" H)).
Defined.

Lemma correlation_non_number_nan_witness :
  ["x"; "y"] !! 0 = Some "x" /\ ["x"; "y"] !! 1 = Some "y" /\ 0 <> 1 /\
  In [("y", num 4)] example_gap /\
  num_is_nan (to_number example_StringToNumber (obj_get [("y", num 4)] "x")) = true /\
  exists m,
    calculateCorrelationMatrix example_StringToNumber example_gap ["x"; "y"]
    = Normal m /\
    cell (cm_matrix m) 0 1 = Some NaN /\
    cell (cm_matrix m) 1 0 = Some NaN.
Proof.
  assert (H : In [("y", num 4)] example_gap) by (right; left; reflexivity).
  repeat (split; [try reflexivity; try lia; exact H|]).
  exact (correlation_non_number_nan example_StringToNumber example_gap ["x"; "y"]
           0 1 "x" "y" [("y", num 4)] eq_refl eq_refl (fun E => O_S 0 E) H eq_refl).
Defined.

Lemma imputeMissingValues_fill_value_witness :
  Forall (fun l => l < length example_heap) example_data /\
  let present :=
    List.filter (fun d => is_present (obj_get d "a"))
      (deref example_heap example_data) in
  exists v h' newData,
    imputeMissingValues example_StringToNumber example_heap example_data
      "a" (VString "mean") = Normal (h', newData) /\
    (VString "mean" = VString "mean" \/ VString "mean" = VUndefined ->
     v = VNumber (calculateMean example_StringToNumber present "a")) /\
    (VString "mean" = VString "median" ->
     v = VNumber (calculateMedian example_StringToNumber present "a")) /\
    (VString "mean" = VString "mode" ->
     v = value_or_zero
           match calculateFrequencies present "a" with
           | f :: _ => freq_value f
           | [] => VUndefined
           end) /\
    forall k l, example_data !! k = Some l ->
      exists l',
        newData !! k = Some l' /\
        heap_get h' l' = impute_one "a" v (json_clone (heap_get example_heap l)).
Proof.
  assert (H : Forall (fun l => l < length example_heap) example_data)
    by (repeat constructor).
  exact (conj H (imputeMissingValues_fill_value example_StringToNumber
                   example_heap example_data "a" (VString "mean") H)).
Defined.


Lemma imputeMissingValues_non_finite_witness :
  (VString "mean" = VString "mean" \/ VString "mean" = VString "median"
   \/ VString "mean" = VString "mode") /\
  Forall (fun l => l < length example_nan_heap) [0; 1] /\
  [0; 1] !! 0 = Some 0 /\
  NoDup (obj_keys (heap_get example_nan_heap 0)) /\
  obj_get (heap_get example_nan_heap 0) "a" = VNumber NaN /\
  num_is_finite NaN = false /\
  let present :=
    List.filter (fun d => is_present (obj_get d "a"))
      (deref example_nan_heap [0; 1]) in
  exists h' newData l',
    imputeMissingValues example_StringToNumber example_nan_heap [0; 1]
      "a" (VString "mean") = Normal (h', newData) /\
    newData !! 0 = Some l' /\
    In (heap_get example_nan_heap 0) present /\
    obj_get (heap_get h' l') "a" =
      valueToImpute example_StringToNumber present "a" (VString "mean") /\
    is_missing (obj_get (heap_get h' l') "a") = false /\
    (VString "mean" <> VString "mode" ->
     exists y, obj_get (heap_get h' l') "a" = VNumber y /\
               num_is_nan y = false).
Proof.
  assert (H1 : VString "mean" = VString "mean" \/ VString "mean" = VString "median"
               \/ VString "mean" = VString "mode")
    by (left; reflexivity).
  assert (H2 : Forall (fun l => l < length example_nan_heap) [0; 1])
    by (repeat constructor).
  assert (H3 : NoDup (obj_keys (heap_get example_nan_heap 0)))
    by (vm_compute; distinct_strings).
  exact (conj H1 (conj H2 (conj eq_refl (conj H3 (conj eq_refl (conj eq_refl
           (imputeMissingValues_non_finite example_StringToNumber
              example_nan_heap [0; 1] "a" (VString "mean") 0 0 NaN
              H1 H2 eq_refl H3 eq_refl eq_refl))))))).
Defined.

(** The NaN of the first record is replaced by 3, the mean of NaN and 3
    as d3 computes it. *)
Example mean_imputation_replaces_nan :
  imputeMissingValues example_StringToNumber example_nan_heap [0; 1]
    "a" (VString "mean") =
  Normal (example_nan_heap ++
          [ [("a", num 3); ("b", num 1)]; [("a", num 3); ("b", num 2)] ],
          [2; 3]).
Proof. vm_compute. reflexivity. Qed.

Lemma imputeMissingValues_mode_witness :
  Forall (fun l => l < length example_heap) example_data /\
  let present :=
    List.filter (fun d => is_present (obj_get d "a"))
      (deref example_heap example_data) in
  present <> [] /\
  exists m h' newData,
    imputeMissingValues example_StringToNumber example_heap example_data
      "a" (VString "mode") = Normal (h', newData) /\
    (exists d, In d present /\
       same_value_zero m (obj_get d "a") = true) /\
    (forall v, In v (column present "a") ->
       occurrences v (column present "a") <=
       occurrences m (column present "a")) /\
    forall k l, example_data !! k = Some l ->
      exists l',
        newData !! k = Some l' /\
        heap_get h' l' =
        impute_one "a" (value_or_zero m) (json_clone (heap_get example_heap l)).
Proof.
  assert (H1 : Forall (fun l => l < length example_heap) example_data)
    by (repeat constructor).
  assert (H2 : List.filter (fun d => is_present (obj_get d "a"))
                 (deref example_heap example_data) <> [])
    by (vm_compute; discriminate).
  exact (conj H1 (conj H2
           (imputeMissingValues_mode example_StringToNumber example_heap
              example_data "a" H1 H2))).
Defined.

Lemma calculateQuantiles_extremes_witness :
  let numbers := d3_numbers example_StringToNumber (column example_xy "x") in
  numbers <> [] /\
  exists lo hi,
    In lo numbers /\ In hi numbers /\
    (forall x, In x numbers -> num_leb lo x = true /\ num_leb x hi = true) /\
    forall q k p, q !! k = Some p ->
      (num_leb p num_zero = true ->
       exists x,
         calculateQuantiles example_StringToNumber example_xy "x" (Some q) !! k
         = Some x /\
         num_eqb x lo = true) /\
      (num_leb num_one p = true ->
       exists x,
         calculateQuantiles example_StringToNumber example_xy "x" (Some q) !! k
         = Some x /\
         num_eqb x hi = true).
Proof.
  assert (H : d3_numbers example_StringToNumber (column example_xy "x") <> [])
    by (vm_compute; discriminate).
  exact (conj H (calculateQuantiles_extremes example_StringToNumber example_xy
                   "x" H)).
Defined.

(** [calculateQuantiles(data, 'x', [0, 1])] on x = 1, 2, 3. *)
Example range_of_three :
  calculateQuantiles example_StringToNumber example_xy "x"
    (Some [num_zero; num_one]) =
  [num_of_Z 1; num_of_Z 3].
Proof. vm_compute. reflexivity. Qed.

Lemma longToWide_order_witness :
  Forall (fun row =>
            inherited (id_key example_NumberToString "id" row) = false /\
            to_property_key example_NumberToString (obj_get row "variable")
            <> "__proto__") example_long /\
  (forall row, In row example_long ->
     array_index (id_key example_NumberToString "id" row) = None) /\
  let ids :=
    first_occurrences (map (id_key example_NumberToString "id") example_long) in
  exists wide : list record,
    longToWide example_NumberToString example_long "id" "variable" "value"
    = Some wide /\
    length wide = length ids /\
    forall i k, ids !! i = Some k ->
      exists out,
        wide !! i = Some out /\
        forall c,
          obj_lookup out c =
          last_written example_NumberToString example_long
            "id" "variable" "value" k c.
Proof.
  assert (H1 : Forall (fun row =>
                         inherited (id_key example_NumberToString "id" row)
                         = false /\
                         to_property_key example_NumberToString
                           (obj_get row "variable") <> "__proto__")
                 example_long)
    by (repeat constructor; discriminate).
  assert (H2 : forall row, In row example_long ->
                 array_index (id_key example_NumberToString "id" row) = None).
  { intros row [<- | [<- | [<- | []]]]; reflexivity. }
  exact (conj H1 (conj H2 (longToWide_order example_NumberToString example_long
                             "id" "variable" "value" H1 H2))).
Defined.

Lemma longToWide_last_write_wins_witness :
  Forall (fun row =>
            inherited (id_key example_NumberToString "id" row) = false /\
            to_property_key example_NumberToString (obj_get row "variable")
            <> "__proto__") example_long /\
  exists (wide : list record) (ids : list string),
    longToWide example_NumberToString example_long "id" "variable" "value"
    = Some wide /\
    NoDup ids /\
    (forall k, In k ids <->
               exists row, In row example_long /\
                           id_key example_NumberToString "id" row = k) /\
    length wide = length ids /\
    length wide <= length example_long /\
    forall i k, ids !! i = Some k ->
      exists out,
        wide !! i = Some out /\
        forall c,
          obj_lookup out c =
          last_written example_NumberToString example_long
            "id" "variable" "value" k c.
Proof.
  assert (H1 : Forall (fun row =>
                         inherited (id_key example_NumberToString "id" row)
                         = false /\
                         to_property_key example_NumberToString
                           (obj_get row "variable") <> "__proto__")
                 example_long)
    by (repeat constructor; discriminate).
  exact (conj H1 (longToWide_last_write_wins example_NumberToString example_long
                    "id" "variable" "value" H1)).
Defined.

(** The later value of [x] for the id [a] is the one that is kept. *)
Example longToWide_keeps_the_last_value :
  longToWide example_NumberToString example_long "id" "variable" "value" =
  Some [ [("x", num 3)]; [("x", num 2)] ].
Proof. vm_compute. reflexivity. Qed.

(** The median is the middle quantile. *)
Example median_is_the_middle_quantile :
  calculateQuantiles example_StringToNumber example_groups "v" (Some [num_half]) =
  [calculateMedian example_StringToNumber example_groups "v"].
Proof. vm_compute. reflexivity. Qed.

Lemma createBins_counts_witness :
  Forall (fun d => number_or_nullish (obj_get d "x") = true) example_gap /\
  let bins :=
    createBins example_StringToNumber example_ticks example_gap "x" (num_of_Z 2) in
  bins <> [] /\
  list_sum (map bin_count bins) =
    length (List.filter (fun d => is_numeric (obj_get d "x")) example_gap) /\
  (forall i b1 b2,
     bins !! i = Some b1 -> bins !! S i = Some b2 -> binEnd b1 = binStart b2).
Proof.
  assert (H : Forall (fun d => number_or_nullish (obj_get d "x") = true)
                example_gap)
    by (repeat constructor).
  exact (conj H (createBins_counts example_StringToNumber example_ticks
                   example_gap "x" (num_of_Z 2) H)).
Defined.

(** The record without [x] is in no bin: one record of two is counted. *)
Example createBins_skips_the_absent_value :
  map bin_count
    (createBins example_StringToNumber example_ticks example_gap "x" (num_of_Z 2))
  = [1] /\
  length example_gap = 2.
Proof. split; vm_compute; reflexivity. Qed.
